(** * Nightingale rose digitizer

    A shallow embedding of [src/app.py] (the interactive digitizer) and of
    the numeric core of [src/plot-rose.py] (the re-plotter), followed by the
    properties of the data model, of persistence, of the cursor and undo
    machinery, of the CSV export and of the radius conversion.

    Conventions of the embedding.
    - Python [float]s are idealised as real numbers ([R]); rounding, NaN and
      infinities are outside the model. The float power of the export is
      the exception: its [OverflowError] and its underflow to 0.0 are kept
      ([float_square]).
    - A Python exception is the outcome [None]; callbacks of the application
      run in a state monad whose state survives an exception, as the
      attributes of [self] do.
    - The dataclass annotations are the type discipline of [ProjectData]: a
      snapshot whose fields do not have the annotated types has no image in
      [ProjectData] and is reported as an error by [dict_to_project], also
      where the code would go on with the ill-typed values;
      [modelled_snapshot] names the progress files on which the embedding
      and the code do the same.
    - Matplotlib artists, texts and the image are not part of the state; the
      three redraw routines are kept as the reads they perform. *)

From Stdlib Require Import Reals Lra Lia ZArith String List.
From stdpp Require Import gmap strings list fin_maps.

Local Open Scope string_scope.

#[global] Instance R_eq_dec : EqDecision R := Req_dec_T.

(* ===================================================================== *)
(** * Part I: the program *)
(* ===================================================================== *)

(** ** Python containers *)

(** [l[i]] on a list: negative indices count from the end, anything out of
    range raises [IndexError]. *)
Definition py_index {A} (l : list A) (i : Z) : option A :=
  if decide (0 ≤ i)%Z then l !! Z.to_nat i
  else if decide (- Z.of_nat (length l) ≤ i)%Z
       then l !! Z.to_nat (Z.of_nat (length l) + i)
       else None.

(** [l.index(x)]: position of the first occurrence, [ValueError] if none. *)
Fixpoint list_index (x : string) (l : list string) : option Z :=
  match l with
  | [] => None
  | y :: l' => if decide (x = y) then Some 0%Z else Z.succ <$> list_index x l'
  end.

(** [l.pop()]: the last element and the list without it. *)
Definition list_pop {A} (l : list A) : option (A * list A) :=
  match rev l with
  | [] => None
  | x :: r => Some (x, rev r)
  end.

(** A [dict] with string keys whose insertion order is observable (the
    payload handed to [json.dump]) is an association list without repeated
    keys: [d[k]] and [d[k] = v]. *)
Fixpoint dict_get {V} (k : string) (d : list (string * V)) : option V :=
  match d with
  | [] => None
  | (k', v) :: d' => if decide (k = k') then Some v else dict_get k d'
  end.

Fixpoint dict_set {V} (k : string) (v : V) (d : list (string * V)) : list (string * V) :=
  match d with
  | [] => [(k, v)]
  | (k', v') :: d' =>
      if decide (k = k') then (k, v) :: d' else (k', v') :: dict_set k v d'
  end.

(** ** JSON values, as [json.load] returns them and [json.dump] takes them *)

#[local] Set Warnings "-register-all".

Inductive json :=
| JNull
| JBool (b : bool)
| JNum (r : R)
| JStr (s : string)
| JList (l : list json)
| JObj (kvs : list (string * json)).

(** Python truth value of a JSON value. *)
Definition truthy (j : json) : bool :=
  match j with
  | JNull => false
  | JBool b => b
  | JNum r => if decide (r = 0%R) then false else true
  | JStr s => if decide (s = "") then false else true
  | JList l => match l with [] => false | _ => true end
  | JObj kvs => match kvs with [] => false | _ => true end
  end.

Definition as_str (j : json) : option string :=
  match j with JStr s => Some s | _ => None end.

Definition as_obj (j : json) : option (list (string * json)) :=
  match j with JObj kvs => Some kvs | _ => None end.

Definition as_str_list (j : json) : option (list string) :=
  match j with JList l => mapM as_str l | _ => None end.

(** [float(v)] on a JSON number or boolean. A string that spells a number,
    which [float] accepts as well, is not a value of a typed snapshot. *)
Definition as_float (j : json) : option R :=
  match j with
  | JNum r => Some r
  | JBool b => Some (if b then 1%R else 0%R)
  | _ => None
  end.

(** ** Diagram-specific configuration *)

Definition DIAGRAMS_months (diagram_key : string) : option (list string) :=
  if decide (diagram_key = "right") then
    Some ["1854-04"; "1854-05"; "1854-06"; "1854-07"; "1854-08"; "1854-09";
          "1854-10"; "1854-11"; "1854-12"; "1855-01"; "1855-02"; "1855-03"]
  else if decide (diagram_key = "left") then
    Some ["1855-04"; "1855-05"; "1855-06"; "1855-07"; "1855-08"; "1855-09";
          "1855-10"; "1855-11"; "1855-12"; "1856-01"; "1856-02"; "1856-03"]
  else None.

Definition CATEGORIES : list string :=
  ["preventable_disease"; "wounds"; "other_causes"].

(** ** Data model *)

Record Measurement := mkMeasurement {
  radius_px : R;
  click_xy : option (R * R);
  is_missing : bool;
}.

Record ProjectData := mkProjectData {
  image_path : string;
  diagram_key : string;
  center_xy : option (R * R);
  months : list string;
  categories : list string;
  data : gmap string (gmap string (option Measurement));
}.

(** [p.data[m][c]]: [None] is a [KeyError], [Some None] an unmeasured cell. *)
Definition cell (p : ProjectData) (m c : string) : option (option Measurement) :=
  row ← data p !! m; row !! c.

(** [{c: None for c in categories}] *)
Definition empty_row (categories : list string) : gmap string (option Measurement) :=
  foldl (λ row c, <[c := None]> row) ∅ categories.

Definition make_empty_project (image_path diagram_key : string)
    (months categories : list string) : ProjectData :=
  {| image_path := image_path;
     diagram_key := diagram_key;
     center_xy := None;
     months := months;
     categories := categories;
     data := foldl (λ d m, <[m := empty_row categories]> d) ∅ months |}.

(** ** Helpers *)

(** [math.hypot] *)
Definition hypot (x y : R) : R := sqrt (x * x + y * y).

Definition dist (a b : R * R) : R := hypot (a.1 - b.1) (a.2 - b.2).

Definition meas_to_json (v : option Measurement) : json :=
  match v with
  | None => JNull
  | Some meas =>
      JObj [("radius_px", JNum (radius_px meas));
            ("click_xy", match click_xy meas with
                         | Some (x, y) => JList [JNum x; JNum y]
                         | None => JNull
                         end);
            ("is_missing", JBool (is_missing meas))]
  end.

(** The inner loop of [project_to_dict]: fills [out["data"][m]]. *)
Fixpoint cells_to_dict (p : ProjectData) (m : string) (cats : list string)
    (acc : list (string * json)) : option (list (string * json)) :=
  match cats with
  | [] => Some acc
  | c :: cs =>
      meas ← cell p m c;
      cells_to_dict p m cs (dict_set c (meas_to_json meas) acc)
  end.

(** The outer loop of [project_to_dict]: fills [out["data"]]. *)
Fixpoint months_to_dict (p : ProjectData) (ms : list string)
    (acc : list (string * json)) : option (list (string * json)) :=
  match ms with
  | [] => Some acc
  | m :: ms' =>
      inner ← cells_to_dict p m (categories p) [];
      months_to_dict p ms' (dict_set m (JObj inner) acc)
  end.

Definition project_to_dict (p : ProjectData) : option json :=
  out_data ← months_to_dict p (months p) [];
  Some (JObj [("image_path", JStr (image_path p));
              ("diagram_key", JStr (diagram_key p));
              ("center_xy", match center_xy p with
                            | Some (x, y) => JList [JNum x; JNum y]
                            | None => JNull
                            end);
              ("months", JList (JStr <$> months p));
              ("categories", JList (JStr <$> categories p));
              ("data", JObj out_data)]).

(** [tuple(d["center_xy"]) if d["center_xy"] else None], for a center that
    is a pair of numbers or falsy. Any other truthy iterable, which [tuple]
    accepts as well, is not a value of a typed snapshot. *)
Definition as_center (j : json) : option (option (R * R)) :=
  if truthy j then
    match j with
    | JList [JNum x; JNum y] => Some (Some (x, y))
    | _ => None
    end
  else Some None.

(** [(float(v["click_xy"][0]), float(v["click_xy"][1]))] *)
Definition as_click (j : json) : option (R * R) :=
  match j with
  | JList (a :: b :: _) => x ← as_float a; y ← as_float b; Some (x, y)
  | _ => None
  end.

(** The body of the inner loop of [dict_to_project] after [v] is read, for
    a cell of a typed snapshot: [is_missing] a boolean when present,
    [click_xy] a list when present. *)
Definition json_to_meas (v : json) : option (option Measurement) :=
  match v with
  | JNull => Some None
  | JObj kvs =>
      click ← match dict_get "click_xy" kvs with
              | None | Some JNull => Some None
              | Some j => Some <$> as_click j
              end;
      radius ← dict_get "radius_px" kvs ≫= as_float;
      missing ← match dict_get "is_missing" kvs with
                | None => Some false
                | Some (JBool b) => Some b
                | Some _ => None
                end;
      Some (Some (mkMeasurement radius click missing))
  | _ => None
  end.

(** [d["data"][m][c]] *)
Definition cell_json (d : list (string * json)) (m c : string) : option json :=
  dd ← dict_get "data" d ≫= as_obj;
  dm ← dict_get m dd ≫= as_obj;
  dict_get c dm.

Fixpoint load_cells (d : list (string * json)) (m : string) (cats : list string)
    (row : gmap string (option Measurement)) : option (gmap string (option Measurement)) :=
  match cats with
  | [] => Some row
  | c :: cs =>
      v ← cell_json d m c;
      meas ← json_to_meas v;
      load_cells d m cs (<[c := meas]> row)
  end.

Fixpoint load_months (d : list (string * json)) (ms cats : list string)
    (acc : gmap string (gmap string (option Measurement)))
    : option (gmap string (gmap string (option Measurement))) :=
  match ms with
  | [] => Some acc
  | m :: ms' =>
      row ← load_cells d m cats ∅;
      load_months d ms' cats (<[m := row]> acc)
  end.

Definition dict_to_project (j : json) : option ProjectData :=
  d ← as_obj j;
  image_path ← dict_get "image_path" d ≫= as_str;
  diagram_key ← dict_get "diagram_key" d ≫= as_str;
  center_xy ← dict_get "center_xy" d ≫= as_center;
  months ← dict_get "months" d ≫= as_str_list;
  categories ← dict_get "categories" d ≫= as_str_list;
  data ← load_months d months categories ∅;
  Some (mkProjectData image_path diagram_key center_xy months categories data).

(** ** The application state *)

Record App := mkApp {
  project : ProjectData;
  month_i : Z;
  cat_i : Z;
  setting_center : bool;
  processing_click : bool;
  undo_stack : list (string * string * option Measurement);
  preview_hidden : bool;
  save_path : string;
  csv_path : string;
}.

(** One comma-separated piece of a CSV line: literal text, an integer, or a
    float printed with a fixed number of decimals ([{v:.6f}], [{v:.3f}]). *)
Inductive csv_field :=
| CsvStr (s : string)
| CsvInt (n : Z)
| CsvFixed (decimals : nat) (v : R).

(** Contents of a file: text that [json.load] rejects, text that it reads
    back as [j] (what [json.dump] of [j] writes), or the lines of a CSV. *)
Inductive file :=
| FRaw (text : string)
| FJson (j : json)
| FCsv (lines : list (list csv_field)).

Inductive fs_event :=
| EvWrite (path : string) (content : file)
| EvReplace (src dst : string).

(** What the callbacks act on: the application object, the zoom/pan state
    of the toolbar, the files on disk and the file-system calls made. *)
Record World := mkWorld {
  app : App;
  toolbar_mode : bool;
  disk : gmap string file;
  trace : list fs_event;
}.

Record MouseEvent := mkMouseEvent {
  inaxes : bool;            (* event.inaxes == self.ax *)
  xdata : option R;
  ydata : option R;
  button : Z;
}.

(** *** Field updates *)

Definition with_center (c : option (R * R)) (p : ProjectData) : ProjectData :=
  mkProjectData (image_path p) (diagram_key p) c (months p) (categories p) (data p).

Definition with_data (d : gmap string (gmap string (option Measurement)))
    (p : ProjectData) : ProjectData :=
  mkProjectData (image_path p) (diagram_key p) (center_xy p) (months p) (categories p) d.

Definition with_project (p : ProjectData) (a : App) : App :=
  mkApp p (month_i a) (cat_i a) (setting_center a) (processing_click a)
        (undo_stack a) (preview_hidden a) (save_path a) (csv_path a).

Definition with_cursor (mi ci : Z) (a : App) : App :=
  mkApp (project a) mi ci (setting_center a) (processing_click a)
        (undo_stack a) (preview_hidden a) (save_path a) (csv_path a).

Definition with_setting_center (b : bool) (a : App) : App :=
  mkApp (project a) (month_i a) (cat_i a) b (processing_click a)
        (undo_stack a) (preview_hidden a) (save_path a) (csv_path a).

Definition with_processing_click (b : bool) (a : App) : App :=
  mkApp (project a) (month_i a) (cat_i a) (setting_center a) b
        (undo_stack a) (preview_hidden a) (save_path a) (csv_path a).

Definition with_undo_stack (st : list (string * string * option Measurement))
    (a : App) : App :=
  mkApp (project a) (month_i a) (cat_i a) (setting_center a) (processing_click a)
        st (preview_hidden a) (save_path a) (csv_path a).

Definition with_preview_hidden (b : bool) (a : App) : App :=
  mkApp (project a) (month_i a) (cat_i a) (setting_center a) (processing_click a)
        (undo_stack a) b (save_path a) (csv_path a).

Definition with_app (a : App) (w : World) : World :=
  mkWorld a (toolbar_mode w) (disk w) (trace w).

(** *** Callbacks: state that survives exceptions *)

Definition M (A : Type) : Type := World → option A * World.

Definition ret {A} (x : A) : M A := λ w, (Some x, w).

Definition raise {A} : M A := λ w, (None, w).

Definition bind {A B} (m : M A) (k : A → M B) : M B :=
  λ w, match m w with
       | (Some x, w') => k x w'
       | (None, w') => (None, w')
       end.

Declare Scope cb_scope.
Delimit Scope cb_scope with cb.
Notation "x <- m ;; k" := (bind m (λ x, k))
  (at level 100, m at next level, right associativity) : cb_scope.
Notation "m ;; k" := (bind m (λ _, k))
  (at level 100, right associativity) : cb_scope.

(** Read an attribute; [None] raises. *)
Definition reading {A} (f : App → option A) : M A := λ w, (f (app w), w).

Definition get_app : M App := λ w, (Some (app w), w).

Definition modify (f : App → App) : M unit := λ w, (Some tt, with_app (f (app w)) w).

(** [try: body finally: fin] *)
Definition try_finally {A} (body : M A) (fin : M unit) : M A :=
  λ w, match body w with
       | (r, w1) => match fin w1 with
                    | (Some _, w2) => (r, w2)
                    | (None, w2) => (None, w2)
                    end
       end.

(** [for x in l: body(x)] *)
Fixpoint for_each {A} (l : list A) (body : A → M unit) : M unit :=
  match l with
  | [] => ret tt
  | x :: l' => bind (body x) (λ _, for_each l' body)
  end.

(** *** File system *)

Definition write_file (path : string) (content : file) : M unit :=
  λ w, (Some tt, mkWorld (app w) (toolbar_mode w) (<[path := content]> (disk w))
                         (trace w ++ [EvWrite path content])).

(** [os.replace(src, dst)] *)
Definition os_replace (src dst : string) : M unit :=
  λ w, match disk w !! src with
       | Some content =>
           (Some tt, mkWorld (app w) (toolbar_mode w)
                             (<[dst := content]> (delete src (disk w)))
                             (trace w ++ [EvReplace src dst]))
       | None => (None, w)
       end.

Definition safe_write_json (path : string) (payload : json) : M unit :=
  (let tmp := path ++ ".tmp" in
   write_file tmp (FJson payload) ;;
   os_replace tmp path)%cb.

(** [json.load] of an open file. *)
Definition json_load (f : file) : option json :=
  match f with FJson j => Some j | _ => None end.

Definition liftO {A} (o : option A) : M A := λ w, (o, w).

Definition read_file (path : string) : M (option file) := λ w, (Some (disk w !! path), w).

Local Open Scope cb_scope.

(** ** Workflow *)

Definition current_month_cat (a : App) : option (string * string) :=
  m ← py_index (months (project a)) (month_i a);
  c ← py_index (categories (project a)) (cat_i a);
  Some (m, c).

(** [p.data[m][c] = v]: the row [p.data[m]] must exist. *)
Definition set_cell (m c : string) (v : option Measurement) (p : ProjectData)
    : option ProjectData :=
  row ← data p !! m;
  Some (with_data (<[m := <[c := v]> row]> (data p)) p).

Definition assign_cell (m c : string) (v : option Measurement) : M unit :=
  λ w, match set_cell m c v (project (app w)) with
       | Some p' => (Some tt, with_app (with_project p' (app w)) w)
       | None => (None, w)
       end.

(** What [_update_header] and [_update_status_text] read to count progress:
    every cell of the table. *)
Definition all_cells_readable (p : ProjectData) : bool :=
  forallb (λ m, forallb (λ c, bool_decide (is_Some (cell p m c))) (categories p))
          (months p).

(** [_redraw_overlays(); _update_header(); _update_status_text()], and the
    last two alone: they fail when the cursor names no cell or a cell of the
    table is absent, and change nothing that is modelled. *)
Definition refresh_ui : M unit :=
  reading (λ a, _ ← current_month_cat a;
                if all_cells_readable (project a) then Some tt else None).

Definition save : M unit :=
  a <- get_app ;;
  payload <- liftO (project_to_dict (project a)) ;;
  safe_write_json (save_path a) payload.

Definition toggle_center_mode : M unit :=
  modify (λ a, with_setting_center (negb (setting_center a)) a) ;;
  refresh_ui.

Definition next_item : M unit :=
  a <- get_app ;;
  let n_months := Z.of_nat (length (months (project a))) in
  let n_cats := Z.of_nat (length (categories (project a))) in
  if decide (month_i a = n_months - 1 ∧ cat_i a = n_cats - 1)%Z then ret tt
  else
    (if decide (n_cats ≤ cat_i a + 1)%Z
     then modify (with_cursor (month_i a + 1) 0)
     else modify (with_cursor (month_i a) (cat_i a + 1))) ;;
    refresh_ui.

Definition prev_item : M unit :=
  a <- get_app ;;
  let n_cats := Z.of_nat (length (categories (project a))) in
  if decide (month_i a = 0 ∧ cat_i a = 0)%Z then ret tt
  else
    (if decide (cat_i a - 1 < 0)%Z
     then modify (with_cursor (month_i a - 1) (n_cats - 1))
     else modify (with_cursor (month_i a) (cat_i a - 1))) ;;
    refresh_ui.

(** The [try] block of [on_click], entered on an accepted left click. *)
Definition click_body (x y : R) : M unit :=
  a <- get_app ;;
  if setting_center a then
    modify (λ a, with_project (with_center (Some (x, y)) (project a)) a) ;;
    modify (with_setting_center false) ;;
    save ;;
    refresh_ui
  else
    match center_xy (project a) with
    | None => ret tt
    | Some center =>
        mc <- liftO (current_month_cat a) ;;
        prev <- liftO (cell (project a) mc.1 mc.2) ;;
        modify (λ a, with_undo_stack (undo_stack a ++ [(mc.1, mc.2, prev)]) a) ;;
        let r := dist center (x, y) in
        assign_cell mc.1 mc.2 (Some (mkMeasurement r (Some (x, y)) false)) ;;
        modify (with_preview_hidden false) ;;
        save ;;
        refresh_ui ;;
        next_item
    end.

Definition on_click (event : MouseEvent) : M unit :=
  λ w,
    match inaxes event, xdata event, ydata event with
    | true, Some x, Some y =>
        if processing_click (app w) then (Some tt, w)
        else if bool_decide (button event = 3%Z)
                && bool_decide (is_Some (center_xy (project (app w))))
        then modify (λ a, with_preview_hidden (negb (preview_hidden a)) a) w
        else if negb (bool_decide (button event = 1%Z)) then (Some tt, w)
        else if toolbar_mode w then (Some tt, w)
        else (modify (with_processing_click true) ;;
              try_finally (click_body x y)
                          (modify (with_processing_click false))) w
    | _, _, _ => (Some tt, w)
    end.

Definition undo : M unit :=
  a <- get_app ;;
  match list_pop (undo_stack a) with
  | None => ret tt
  | Some ((month, cat, prev), rest) =>
      modify (with_undo_stack rest) ;;
      assign_cell month cat prev ;;
      mi <- liftO (list_index month (months (project a))) ;;
      modify (λ a, with_cursor mi (cat_i a) a) ;;
      ci <- liftO (list_index cat (categories (project a))) ;;
      modify (λ a, with_cursor (month_i a) ci a) ;;
      modify (with_preview_hidden false) ;;
      save ;;
      refresh_ui
  end.

(** [confirmed] is the answer to the [askyesno] dialog. *)
Definition clear_all (confirmed : bool) : M unit :=
  if confirmed then
    a <- get_app ;;
    for_each (months (project a)) (λ m,
      for_each (categories (project a)) (λ c,
        assign_cell m c None)) ;;
    modify (with_undo_stack []) ;;
    modify (with_cursor 0 0) ;;
    modify (with_preview_hidden false) ;;
    save ;;
    refresh_ui
  else ret tt.

(** The inner loop of [_find_first_unfilled], from category index [ci]. *)
Fixpoint scan_cats (p : ProjectData) (m : string) (cats : list string) (ci : Z)
    : option (option Z) :=
  match cats with
  | [] => Some None
  | c :: cs =>
      v ← cell p m c;
      match v with
      | None => Some (Some ci)
      | Some _ => scan_cats p m cs (ci + 1)
      end
  end.

(** The outer loop of [_find_first_unfilled], from month index [mi]. *)
Fixpoint scan_months (p : ProjectData) (ms : list string) (mi : Z)
    : option (option (Z * Z)) :=
  match ms with
  | [] => Some None
  | m :: ms' =>
      r ← scan_cats p m (categories p) 0;
      match r with
      | Some ci => Some (Some (mi, ci))
      | None => scan_months p ms' (mi + 1)
      end
  end.

Definition _find_first_unfilled : M unit :=
  a <- get_app ;;
  found <- liftO (scan_months (project a) (months (project a)) 0) ;;
  match found with
  | Some (mi, ci) => modify (with_cursor mi ci)
  | None =>
      modify (with_cursor (Z.of_nat (length (months (project a))) - 1)
                          (Z.of_nat (length (categories (project a))) - 1))
  end.

Definition jump_to_unfilled : M unit :=
  _find_first_unfilled ;;
  refresh_ui.

Definition mark_missing : M unit :=
  a <- get_app ;;
  match center_xy (project a) with
  | None => ret tt
  | Some _ =>
      mc <- liftO (current_month_cat a) ;;
      prev <- liftO (cell (project a) mc.1 mc.2) ;;
      modify (λ a, with_undo_stack (undo_stack a ++ [(mc.1, mc.2, prev)]) a) ;;
      assign_cell mc.1 mc.2 (Some (mkMeasurement 0 None true)) ;;
      modify (with_preview_hidden false) ;;
      save ;;
      next_item
  end.

Definition remeasure_current : M unit :=
  a <- get_app ;;
  match center_xy (project a) with
  | None => ret tt
  | Some _ =>
      mc <- liftO (current_month_cat a) ;;
      prev <- liftO (cell (project a) mc.1 mc.2) ;;
      match prev with
      | None => ret tt
      | Some _ =>
          modify (λ a, with_undo_stack (undo_stack a ++ [(mc.1, mc.2, prev)]) a) ;;
          assign_cell mc.1 mc.2 None ;;
          modify (with_preview_hidden false) ;;
          save ;;
          refresh_ui
      end
  end.

(** ** Save / Load / Export *)

Definition reload : M unit :=
  a <- get_app ;;
  f <- read_file (save_path a) ;;
  match f with
  | None => ret tt
  | Some content =>
      loaded <- liftO (json_load content) ;;
      p <- liftO (dict_to_project loaded) ;;
      modify (with_project p) ;;
      modify (with_undo_stack []) ;;
      refresh_ui
  end.

(** The project chosen by [DigitizerApp.__init__]: the snapshot if it exists
    and loads, an empty project in every other case. *)
Definition load_or_start (image_path diagram_key : string) (ms : list string)
    (snapshot : option file) : ProjectData :=
  match snapshot with
  | Some content =>
      match json_load content ≫= dict_to_project with
      | Some p => p
      | None => make_empty_project image_path diagram_key ms CATEGORIES
      end
  | None => make_empty_project image_path diagram_key ms CATEGORIES
  end.

(** [DigitizerApp.__init__], up to the construction of the figure; an
    unknown [diagram_key] raises [ValueError] and no application exists. *)
Definition DigitizerApp__init__ (image_path diagram_key : string)
    (toolbar : bool) (files : gmap string file) : option (option unit * World) :=
  ms ← DIAGRAMS_months diagram_key;
  let save_path := "progress_" ++ diagram_key ++ ".json" in
  let csv_path := "output_data_" ++ diagram_key ++ ".csv" in
  let p := load_or_start image_path diagram_key ms (files !! save_path) in
  let a := mkApp p 0 0 false false [] false save_path csv_path in
  Some ((_find_first_unfilled ;; refresh_ui) (mkWorld a toolbar files [])).

(** The (month, category) pairs in the order of the two nested loops. *)
Definition cell_keys (p : ProjectData) : list (string * string) :=
  m ← months p; c ← categories p; [(m, c)].

(** [x ** 2] on a float. Python raises [OverflowError] when the square of
    a finite float rounds to infinity, that is from [2^1024 - 2^970] on,
    and gives 0.0 when it rounds to zero, that is up to [2^-1075]; the
    rounding of the squares in between is outside the model. *)
Definition FLOAT_OVERFLOW : R := (2 ^ 1024 - 2 ^ 970)%R.

Definition FLOAT_UNDERFLOW : R := (/ 2 ^ 1075)%R.

Definition float_square (x : R) : option R :=
  if Rle_dec FLOAT_OVERFLOW (x ^ 2) then None
  else if Rle_dec (x ^ 2) FLOAT_UNDERFLOW then Some 0%R
  else Some (x ^ 2)%R.

(** First pass of [export_csv]: squared radii of the cells that are neither
    unmeasured nor missing; a missing cell is a [KeyError], a square that
    overflows an [OverflowError]. *)
Fixpoint collect_areas (p : ProjectData) (keys : list (string * string))
    (areas : list R) : option (list R) :=
  match keys with
  | [] => Some areas
  | (m, c) :: keys' =>
      v ← cell p m c;
      match v with
      | None => collect_areas p keys' areas
      | Some meas =>
          if is_missing meas then collect_areas p keys' areas
          else
            area ← float_square (radius_px meas);
            collect_areas p keys' (areas ++ [area])
      end
  end.

(** [max(areas) if areas else 1.0] *)
Definition max_area_of (areas : list R) : R :=
  match areas with
  | [] => 1%R
  | a :: rest => foldl Rmax a rest
  end.

Definition csv_header : list csv_field :=
  [CsvStr "month"; CsvStr "category"; CsvStr "is_missing"; CsvStr "radius_px";
   CsvStr "area_rel"; CsvStr "area_norm"; CsvStr "click_x"; CsvStr "click_y"].

(** One written line, as the pieces its f-string separates by commas;
    [None] when the square of the radius overflows. *)
Definition csv_row (m c : string) (v : option Measurement) (max_area : R)
    : option (list csv_field) :=
  match v with
  | None =>
      Some [CsvStr m; CsvStr c; CsvStr ""; CsvStr ""; CsvStr ""; CsvStr ""]
  | Some meas =>
      let missing := if is_missing meas then 1%Z else 0%Z in
      area_rel ← (if is_missing meas then Some 0%R
                  else float_square (radius_px meas));
      let area_norm := if decide (max_area = 0%R) then 0%R
                       else (area_rel / max_area)%R in
      match click_xy meas with
      | None =>
          Some [CsvStr m; CsvStr c; CsvInt missing;
                CsvFixed 6 (radius_px meas);
                CsvFixed 6 area_rel; CsvFixed 6 area_norm;
                CsvStr ""; CsvStr ""]
      | Some (x, y) =>
          Some [CsvStr m; CsvStr c; CsvInt missing;
                CsvFixed 6 (radius_px meas);
                CsvFixed 6 area_rel; CsvFixed 6 area_norm;
                CsvFixed 3 x; CsvFixed 3 y]
      end
  end.

(** Second pass of [export_csv]: the lines written so far and whether the
    loops ran to their end (a missing cell stops them with [KeyError], a
    square that overflows with [OverflowError]). *)
Fixpoint write_rows (p : ProjectData) (keys : list (string * string))
    (max_area : R) (lines : list (list csv_field)) : list (list csv_field) * bool :=
  match keys with
  | [] => (lines, true)
  | (m, c) :: keys' =>
      match cell p m c with
      | None => (lines, false)
      | Some v =>
          match csv_row m c v max_area with
          | None => (lines, false)
          | Some line => write_rows p keys' max_area (lines ++ [line])
          end
      end
  end.

Definition export_csv : M unit :=
  a <- get_app ;;
  match center_xy (project a) with
  | None => ret tt
  | Some _ =>
      areas <- liftO (collect_areas (project a) (cell_keys (project a)) []) ;;
      let max_area := max_area_of areas in
      let '(lines, completed) :=
        write_rows (project a) (cell_keys (project a)) max_area [csv_header] in
      write_file (csv_path a) (FCsv lines) ;;
      (if completed then ret tt else raise) ;;
      refresh_ui
  end.

(** The operations the user can trigger on a running application. *)
Inductive action :=
| Click (event : MouseEvent)
| ToggleCenterMode
| NextItem
| PrevItem
| Undo
| ClearAll (confirmed : bool)
| JumpToUnfilled
| MarkMissing
| RemeasureCurrent
| Reload
| ExportCsv.

Definition run (act : action) : M unit :=
  match act with
  | Click event => on_click event
  | ToggleCenterMode => toggle_center_mode
  | NextItem => next_item
  | PrevItem => prev_item
  | Undo => undo
  | ClearAll confirmed => clear_all confirmed
  | JumpToUnfilled => jump_to_unfilled
  | MarkMissing => mark_missing
  | RemeasureCurrent => remeasure_current
  | Reload => reload
  | ExportCsv => export_csv
  end.

Local Close Scope cb_scope.

(** ** The re-plotter ([plot-rose.py]) *)

Module PlotRose.

(** Inner to outer stacking order; an area table has one row per month
    and one column per entry of this list. *)
Definition STACK_ORDER : list string :=
  ["other_causes"; "wounds"; "preventable_disease"].

(** One row of [DataFrame.cumsum(axis=1)]. *)
Fixpoint cumsum_row (acc : R) (row : list R) : list R :=
  match row with
  | [] => []
  | a :: row' => (acc + a)%R :: cumsum_row (acc + a)%R row'
  end.

Definition cumsum (table : list (list R)) : list (list R) :=
  map (cumsum_row 0%R) table.

(** [float(table.max().max())]: the largest entry of the table (pandas
    gives NaN for a table without entries, which is outside the model). *)
Definition table_max (table : list (list R)) : R :=
  match concat table with
  | [] => 0%R
  | x :: xs => foldl Rmax x xs
  end.

(** [global_max] as [main] computes it from the two area tables. *)
Definition main_global_max (areaL areaR : list (list R)) : R :=
  Rmax (table_max (cumsum areaL)) (table_max (cumsum areaR)).

(** [if global_max <= 0: global_max = 1.0] *)
Definition effective_max (global_max : R) : R :=
  if Rle_dec global_max 0 then 1%R else global_max.

(** [r_cum] of [draw_rose]: months reversed, areas stacked, then
    [sqrt(cum_area / global_max)]. *)
Definition r_cum (area_table : list (list R)) (global_max : R) : list (list R) :=
  map (map (λ a, sqrt (a / effective_max global_max)))
      (cumsum (reverse area_table)).

(** The bars of one category: [(bottom, height)] per month. *)
Definition bars_of (prev outer : list R) : list (R * R) :=
  zip_with (λ b o, (b, (o - b)%R)) prev outer.

(** The loop over [STACK_ORDER]: column [k] of [r_cum] is drawn on top of
    the previous one. *)
Fixpoint stack_bars (rc : list (list R)) (cats : list string) (k : nat)
    (prev : list R) : list (string * list (R * R)) :=
  match cats with
  | [] => []
  | cat :: cats' =>
      let outer := map (λ row, nth k row 0%R) rc in
      (cat, bars_of prev outer) :: stack_bars rc cats' (S k) outer
  end.

(** [draw_rose]: the bar series handed to [ax.bar], one per category;
    [width = 2 * np.pi / n] raises for a table without months. *)
Definition draw_rose (area_table : list (list R)) (global_max : R)
    : option (list (string * list (R * R))) :=
  let n := length area_table in
  if decide (n = 0) then None
  else Some (stack_bars (r_cum area_table global_max) STACK_ORDER 0
                        (replicate n 0%R)).

(** The area stacked up to and including column [k] of a row. *)
Definition stacked_area (row : list R) (k : nat) : R :=
  foldr Rplus 0%R (take (S k) row).

(** An area table as [pivot_area] returns it: at least one month, one
    column per category, no negative area. *)
Definition area_table_ok (table : list (list R)) : Prop :=
  table ≠ [] ∧
  ∀ row, row ∈ table →
    length row = length STACK_ORDER ∧ ∀ a, a ∈ row → (0 <= a)%R.

End PlotRose.

(** ** Vocabulary of the properties *)

(** The data-model invariant: every (month, category) pair has an entry. *)
Definition has_all_cells (p : ProjectData) : Prop :=
  ∀ m c, m ∈ months p → c ∈ categories p → is_Some (cell p m c).

(** The table holds the cells of the month and category lists and no other
    key: a project is then determined by its per-cell values. *)
Definition exact_cells (p : ProjectData) : Prop :=
  dom (data p) = list_to_set (months p) ∧
  ∀ m row, data p !! m = Some row → dom row = list_to_set (categories p).

(** The entries of the undo stack name cells of the table. *)
Definition stack_in_table (a : App) : Prop :=
  ∀ m c prev, (m, c, prev) ∈ undo_stack a →
    m ∈ months (project a) ∧ c ∈ categories (project a).

(** A state as the application keeps it between two callbacks. *)
Definition consistent (w : World) : Prop :=
  has_all_cells (project (app w)) ∧ stack_in_table (app w).

(** A left click inside the image axes at [(x, y)] that [on_click] lets
    through its guards. *)
Definition accepted_left_click (w : World) (event : MouseEvent) (x y : R) : Prop :=
  inaxes event = true ∧ xdata event = Some x ∧ ydata event = Some y ∧
  button event = 1%Z ∧ processing_click (app w) = false ∧ toolbar_mode w = false.



(** The cell at position [(i, j)] of the table. *)
Definition cell_at (p : ProjectData) (i j : nat) : option (option Measurement) :=
  m ← months p !! i; c ← categories p !! j; cell p m c.

(** Position [(i', j')] comes before [(i, j)] in month-major,
    category-minor order. *)
Definition before (i' j' i j : nat) : Prop := i' < i ∨ (i' = i ∧ j' < j).

(** [w'] differs from [w] at most in what the user interface shows: the
    cursor, the mode and the preview flags. *)
Definition ui_rel (w w' : World) : Prop :=
  project (app w') = project (app w) ∧
  undo_stack (app w') = undo_stack (app w) ∧
  save_path (app w') = save_path (app w) ∧
  disk w' = disk w ∧
  trace w' = trace w.

Definition ui_only {A} (t : M A) : Prop := ∀ w, ui_rel w (t w).2.


(** A computation that keeps the data-model invariant, also when it
    raises. *)
Definition keeps_cells {A} (t : M A) : Prop :=
  ∀ w, has_all_cells (project (app w)) → has_all_cells (project (app (t w).2)).

(** Every measurement of the project has one of the two shapes, as the
    specification words them: a recorded click, whose radius is the
    distance from the project's center to its click point, or a missing
    marker with radius zero and no click point. *)
Definition two_shapes (p : ProjectData) : Prop :=
  ∀ m c meas,
    cell p m c = Some (Some meas) →
    (is_missing meas = false ∧
     ∃ center xy, center_xy p = Some center ∧ click_xy meas = Some xy ∧
                  radius_px meas = dist center xy)
    ∨ (is_missing meas = true ∧ radius_px meas = 0%R ∧ click_xy meas = None).

(** The squared radius, as a float, of a cell that is measured and not
    missing. *)
Definition measured_area (p : ProjectData) (mc : string * string) : option R :=
  match cell p mc.1 mc.2 with
  | Some (Some meas) =>
      if is_missing meas then None else float_square (radius_px meas)
  | _ => None
  end.

(** No radius that the export squares is too large for its square to be a
    float. *)
Definition squares_fit (p : ProjectData) : Prop :=
  ∀ m c meas,
    m ∈ months p → c ∈ categories p →
    cell p m c = Some (Some meas) → is_missing meas = false →
    is_Some (float_square (radius_px meas)).

(** The areas over which the export normalises, in table order. *)
Definition measured_areas (p : ProjectData) : list R :=
  omap (measured_area p) (cell_keys p).

(** The line of a cell, given the value the cell holds (no line when the
    square of its radius overflows). *)
Definition csv_line_of (p : ProjectData) (max_area : R) (mc : string * string)
    : list csv_field :=
  default [] (csv_row mc.1 mc.2 (default None (cell p mc.1 mc.2)) max_area).

(** Min-max normalisation of [a] over [areas], as the specification words
    the last column of the export. *)
Definition minmax_norm (areas : list R) (a : R) : R :=
  let lo := match areas with [] => 0%R | x :: xs => foldl Rmin x xs end in
  let hi := match areas with [] => 0%R | x :: xs => foldl Rmax x xs end in
  ((a - lo) / (hi - lo))%R.

(** The [area_norm] column (sixth piece) of every exported line is the
    min-max normalisation of its [area_rel] column (fifth piece). *)
Definition area_norm_is_minmax (p : ProjectData)
    (lines : list (list csv_field)) : Prop :=
  ∀ line a n,
    line ∈ lines →
    line !! 4 = Some (CsvFixed 6 a) → line !! 5 = Some (CsvFixed 6 n) →
    n = minmax_norm (measured_areas p) a.

(** ** Sample states *)

Definition sample_click : Measurement := mkMeasurement 5 (Some (13, 24)%R) false.

Definition sample_missing : Measurement := mkMeasurement 0 None true.

Definition sample_project : ProjectData :=
  {| image_path := "plate.jpg";
     diagram_key := "right";
     center_xy := Some (10, 20)%R;
     months := ["1854-04"; "1854-05"];
     categories := CATEGORIES;
     data := <["1854-04" := <["preventable_disease" := Some sample_click]>
                            (<["wounds" := Some sample_missing]>
                             (<["other_causes" := None]> ∅))]>
             (<["1854-05" := empty_row CATEGORIES]> ∅) |}.

(** The cursor is on the first cell of the second month. *)
Definition sample_app : App :=
  mkApp sample_project 1 0 false false
        [("1854-04", "wounds", None)] false
        "progress_right.json" "output_data_right.csv".

Definition sample_world : World :=
  mkWorld sample_app false {["progress_right.json" := FRaw "{"]} [].

Definition sample_left_click : MouseEvent :=
  mkMouseEvent true (Some 13%R) (Some 24%R) 1.

(** The right-hand diagram with the center at the origin and two recorded
    clicks of radius 1 and 2 in its first month; every other cell is
    unmeasured. *)
Definition csv_project : ProjectData :=
  let months := default [] (DIAGRAMS_months "right") in
  let empty := make_empty_project "plate.jpg" "right" months CATEGORIES in
  {| image_path := "plate.jpg";
     diagram_key := "right";
     center_xy := Some (0, 0)%R;
     months := months;
     categories := CATEGORIES;
     data := <["1854-04" :=
                <["preventable_disease" :=
                    Some (mkMeasurement 1 (Some (1, 0)%R) false)]>
                (<["wounds" := Some (mkMeasurement 2 (Some (2, 0)%R) false)]>
                 (empty_row CATEGORIES))]> (data empty) |}.

Definition csv_world : World :=
  mkWorld (mkApp csv_project 0 0 false false [] false
                 "progress_right.json" "output_data_right.csv")
          false ∅ [].

(** Two small area tables, columns in [STACK_ORDER]. *)
Definition sample_areaL : list (list R) := [[1; 2; 1]; [0; 0; 4]]%R.

Definition sample_areaR : list (list R) := [[0; 1; 3]]%R.

(** ** Keyboard, pointer and progress display *)




(** [on_move]: the arguments [(cx, cy, x, y)] it hands to [_draw_preview],
    or [None] when it returns before the call. *)
Definition on_move (event : MouseEvent) (a : App) : option (R * R * R * R) :=
  match inaxes event, center_xy (project a) with
  | true, Some (cx, cy) =>
      match xdata event, ydata event with
      | Some x, Some y =>
          if preview_hidden a then None else Some (cx, cy, x, y)
      | _, _ => None
      end
  | _, _ => None
  end.

(** [sum(1 for m in months for c in categories if data[m][c] is not None)]
    of [_update_header] and [_update_status_text], over the pairs in loop
    order; an absent cell is a [KeyError]. *)
Fixpoint count_done (p : ProjectData) (keys : list (string * string))
    : option nat :=
  match keys with
  | [] => Some 0
  | (m, c) :: keys' =>
      v ← cell p m c;
      n ← count_done p keys';
      Some (match v with Some _ => S n | None => n end)
  end.

(** [(done, total)] as both routines show them. *)
Definition progress (p : ProjectData) : option (nat * nat) :=
  done ← count_done p (cell_keys p);
  Some (done, length (months p) * length (categories p)).

(** The project with its table cut down to the cells of its month and
    category lists. *)
Definition listed (p : ProjectData) : ProjectData :=
  with_data
    (foldl (λ acc m,
       <[m := foldl (λ row c, <[c := default None (cell p m c)]> row) ∅
                    (categories p)]> acc) ∅ (months p)) p.

(** Snapshots on which [dict_to_project] raises whatever else they hold:
    values that are no object ([TypeError] at [d["image_path"]]) and
    objects without one of the five keys it reads first ([KeyError]). *)
Definition load_raises (j : json) : Prop :=
  match j with
  | JObj d =>
      ∃ k, k ∈ ["image_path"; "diagram_key"; "center_xy"; "months";
                "categories"] ∧ dict_get k d = None
  | _ => True
  end.


(** ** Vocabulary of the cursor and of exception freedom *)

(** The cursor names a cell by two indices that are in range. *)
Definition cursor_ok (a : App) : Prop :=
  (0 ≤ month_i a < Z.of_nat (length (months (project a))))%Z ∧
  (0 ≤ cat_i a < Z.of_nat (length (categories (project a))))%Z.


(** A computation that returns normally with the cursor in range. *)
Definition settles {A} (t : M A) (w : World) : Prop :=
  is_Some (t w).1 ∧ cursor_ok (app (t w).2).


(** The rank of the cursor in month-major, category-minor order. *)
Definition position (a : App) : Z :=
  (month_i a * Z.of_nat (length (categories (project a))) + cat_i a)%Z.

(** The number of cells of the table. *)
Definition n_cells (p : ProjectData) : Z :=
  (Z.of_nat (length (months p)) * Z.of_nat (length (categories p)))%Z.

(** ** Further sample states and events *)


(** The sample state with the cursor on the recorded click. *)
Definition measured_world : World :=
  with_app (with_cursor 0 0 sample_app) sample_world.

Definition sample_right_click : MouseEvent :=
  mkMouseEvent true (Some 13%R) (Some 24%R) 3.

Definition sample_middle_click : MouseEvent :=
  mkMouseEvent true (Some 13%R) (Some 24%R) 2.

(** A left click on the origin of the image. *)
Definition sample_origin_click : MouseEvent :=
  mkMouseEvent true (Some 0%R) (Some 0%R) 1.

(** A snapshot whose only cell holds a radius, no click point and no
    missing mark. *)
Definition bare_radius_snapshot : json :=
  JObj [("image_path", JStr "plate.jpg"); ("diagram_key", JStr "right");
        ("center_xy", JList [JNum 10; JNum 20]);
        ("months", JList [JStr "1854-04"]);
        ("categories", JList [JStr "wounds"]);
        ("data", JObj [("1854-04",
                        JObj [("wounds", JObj [("radius_px", JNum 7)])])])].

(** A snapshot of a one-cell project that carries an entry the lists do
    not name. *)
Definition sample_snapshot : json :=
  JObj [("image_path", JStr "plate.jpg"); ("diagram_key", JStr "right");
        ("center_xy", JNull); ("months", JList [JStr "1854-04"]);
        ("categories", JList [JStr "wounds"]);
        ("data", JObj [("1854-04", JObj [("wounds", JNull);
                                         ("notes", JNull)])])].

(* ===================================================================== *)
(** * Part II: properties *)
(* ===================================================================== *)

(** ** Containers *)

Lemma dict_get_set_eq {V} (k : string) (v : V) d :
  dict_get k (dict_set k v d) = Some v.
Proof.
  induction d as [|[k' v'] d IH]; simpl.
  - by rewrite decide_True.
  - destruct (decide (k = k')) as [->|Hne]; simpl.
    + by rewrite decide_True.
    + by rewrite decide_False.
Qed.

Lemma dict_get_set_ne {V} (k k' : string) (v : V) d :
  k ≠ k' → dict_get k' (dict_set k v d) = dict_get k' d.
Proof.
  intros Hne. induction d as [|[k0 v0] d IH]; simpl.
  - by rewrite decide_False.
  - destruct (decide (k = k0)) as [->|Hk]; simpl.
    + by rewrite !decide_False.
    + destruct (decide (k' = k0)); [done | apply IH].
Qed.

Lemma foldl_insert_lookup {V} (f : string → V) (l : list string)
    (acc : gmap string V) (k : string) :
  foldl (λ a x, <[x := f x]> a) acc l !! k
  = if decide (k ∈ l) then Some (f k) else acc !! k.
Proof.
  revert acc. induction l as [|x l IH]; intros acc; cbn [foldl].
  - rewrite decide_False; [done | by apply not_elem_of_nil].
  - rewrite IH. destruct (decide (k ∈ l)) as [Hin|Hnin].
    + rewrite decide_True; [done | by right].
    + destruct (decide (k = x)) as [->|Hne].
      * rewrite lookup_insert_eq, decide_True; [done | by left].
      * rewrite lookup_insert_ne by done.
        rewrite decide_False; [done |].
        intros Hin. apply elem_of_cons in Hin as [?|?]; contradiction.
Qed.

Lemma mapM_as_str (l : list string) : mapM as_str (JStr <$> l) = Some l.
Proof.
  induction l as [|x l IH]; [done |].
  rewrite fmap_cons. cbn [mapM as_str mbind option_bind]. by rewrite IH.
Qed.

(** ** Serialisation *)

Lemma json_to_meas_to_json v : json_to_meas (meas_to_json v) = Some v.
Proof. by destruct v as [[r [[x y]|] b]|]. Qed.

Lemma cells_to_dict_get p m cats acc out c :
  cells_to_dict p m cats acc = Some out →
  dict_get c out
  = if decide (c ∈ cats) then meas_to_json <$> cell p m c else dict_get c acc.
Proof.
  revert acc. induction cats as [|c0 cs IH]; intros acc; cbn [cells_to_dict].
  - intros [= <-]. rewrite decide_False; [done | by apply not_elem_of_nil].
  - destruct (cell p m c0) as [v0|] eqn:Hc0; cbn [mbind option_bind]; [|done].
    intros Hout. rewrite (IH _ Hout).
    destruct (decide (c ∈ cs)) as [Hin|Hnin].
    + rewrite decide_True; [done | by right].
    + destruct (decide (c = c0)) as [->|Hne].
      * rewrite dict_get_set_eq, decide_True, Hc0; [done | by left].
      * rewrite dict_get_set_ne by done.
        rewrite decide_False; [done |].
        intros Hin. apply elem_of_cons in Hin as [?|?]; contradiction.
Qed.

Lemma months_to_dict_get p ms acc out m :
  months_to_dict p ms acc = Some out →
  dict_get m out
  = if decide (m ∈ ms) then JObj <$> cells_to_dict p m (categories p) []
    else dict_get m acc.
Proof.
  revert acc. induction ms as [|m0 ms IH]; intros acc; cbn [months_to_dict].
  - intros [= <-]. rewrite decide_False; [done | by apply not_elem_of_nil].
  - destruct (cells_to_dict p m0 (categories p) []) as [inner|] eqn:Hin0;
      cbn [mbind option_bind]; [|done].
    intros Hout. rewrite (IH _ Hout).
    destruct (decide (m ∈ ms)) as [Hin|Hnin].
    + rewrite decide_True; [done | by right].
    + destruct (decide (m = m0)) as [->|Hne].
      * rewrite dict_get_set_eq, decide_True, Hin0; [done | by left].
      * rewrite dict_get_set_ne by done.
        rewrite decide_False; [done |].
        intros Hin. apply elem_of_cons in Hin as [?|?]; contradiction.
Qed.

Lemma cells_to_dict_total p m cats acc :
  (∀ c, c ∈ cats → is_Some (cell p m c)) →
  is_Some (cells_to_dict p m cats acc).
Proof.
  revert acc. induction cats as [|c0 cs IH]; intros acc Hall; simpl; [done |].
  destruct (Hall c0) as [v Hv]; [by left |]. rewrite Hv. simpl.
  apply IH. intros c Hc. apply Hall. by right.
Qed.

Lemma months_to_dict_total p ms acc :
  (∀ m c, m ∈ ms → c ∈ categories p → is_Some (cell p m c)) →
  is_Some (months_to_dict p ms acc).
Proof.
  revert acc. induction ms as [|m0 ms IH]; intros acc Hall; simpl; [done |].
  destruct (cells_to_dict_total p m0 (categories p) []) as [inner Hin].
  { intros c Hc. apply Hall; [by left | done]. }
  rewrite Hin. simpl. apply IH. intros m c Hm Hc. apply Hall; [by right | done].
Qed.

Lemma project_to_dict_total p :
  has_all_cells p → is_Some (project_to_dict p).
Proof.
  intros Hall. unfold project_to_dict.
  destruct (months_to_dict_total p (months p) []) as [out Hout]; [done |].
  by rewrite Hout.
Qed.

Lemma load_cells_fold d m cats row (g : string → option Measurement) :
  (∀ c, c ∈ cats → cell_json d m c = Some (meas_to_json (g c))) →
  load_cells d m cats row = Some (foldl (λ r c, <[c := g c]> r) row cats).
Proof.
  revert row. induction cats as [|c0 cs IH]; intros row Hall; simpl; [done |].
  rewrite (Hall c0) by (by left). simpl.
  rewrite json_to_meas_to_json. simpl.
  apply IH. intros c Hc. apply Hall. by right.
Qed.

Lemma load_months_fold d ms cats acc (g : string → string → option Measurement) :
  (∀ m c, m ∈ ms → c ∈ cats → cell_json d m c = Some (meas_to_json (g m c))) →
  load_months d ms cats acc
  = Some (foldl (λ a m, <[m := foldl (λ r c, <[c := g m c]> r) ∅ cats]> a) acc ms).
Proof.
  revert acc. induction ms as [|m0 ms IH]; intros acc Hall; simpl; [done |].
  rewrite (load_cells_fold d m0 cats ∅ (g m0)).
  2:{ intros c Hc. apply Hall; [by left | done]. }
  simpl. apply IH. intros m c Hm Hc. apply Hall; [by right | done].
Qed.

Lemma exact_cells_has_all p : exact_cells p → has_all_cells p.
Proof.
  intros [Hdom Hrows] m c Hm Hc. unfold cell.
  assert (is_Some (data p !! m)) as [row Hrow].
  { apply elem_of_dom. rewrite Hdom. by apply elem_of_list_to_set. }
  rewrite Hrow. simpl. apply elem_of_dom.
  rewrite (Hrows m row Hrow). by apply elem_of_list_to_set.
Qed.

Lemma months_to_dict_inner p ms acc out m :
  months_to_dict p ms acc = Some out → m ∈ ms →
  is_Some (cells_to_dict p m (categories p) []).
Proof.
  revert acc. induction ms as [|m0 ms IH]; intros acc Hout Hm.
  - by apply not_elem_of_nil in Hm.
  - cbn [months_to_dict] in Hout.
    destruct (cells_to_dict p m0 (categories p) []) as [inner|] eqn:Hin0;
      cbn [mbind option_bind] in Hout; [|done].
    apply elem_of_cons in Hm as [->|Hm]; [by rewrite Hin0 | by eapply IH].
Qed.

(** What [dict_to_project] reads at [d["data"][m][c]] in a serialised
    project is the serialised cell. *)
Lemma cell_json_project_to_dict p d m c :
  project_to_dict p = Some (JObj d) →
  m ∈ months p → c ∈ categories p →
  cell_json d m c = meas_to_json <$> cell p m c.
Proof.
  unfold project_to_dict.
  destruct (months_to_dict p (months p) []) as [out|] eqn:Hout; [|done].
  intros [= <-] Hm Hc. unfold cell_json.
  change (dict_get "data" _) with (Some (JObj out)). cbn [mbind option_bind as_obj].
  rewrite (months_to_dict_get _ _ _ _ m Hout), decide_True by done.
  destruct (months_to_dict_inner _ _ _ _ m Hout Hm) as [inner Hinner].
  rewrite Hinner. cbn [fmap option_fmap option_map mbind option_bind as_obj].
  by rewrite (cells_to_dict_get _ _ _ _ _ c Hinner), decide_True.
Qed.

(** C1. Serialising a project whose table holds exactly the cells of its
    month and category lists with [project_to_dict] and reading the result
    back with [dict_to_project] succeeds and gives the project back, for
    every image path, diagram key, optional center, month and category
    list and every per-cell value (unmeasured, recorded click, missing
    marker, or any other [Measurement]). *)
Theorem project_roundtrip (p : ProjectData) :
  exact_cells p →
  project_to_dict p ≫= dict_to_project = Some p.
Proof.
  intros Hexact. pose proof (exact_cells_has_all p Hexact) as Hall.
  destruct (project_to_dict_total p Hall) as [j Hj]. rewrite Hj.
  cbn [mbind option_bind].
  assert (∃ d, j = JObj d) as [d ->].
  { revert Hj. unfold project_to_dict.
    destruct (months_to_dict p (months p) []); [|done]. intros [= <-]. eauto. }
  pose (g := λ m c, default None (cell p m c)).
  assert (load_months d (months p) (categories p) ∅ = Some (data p)) as Hload.
  { rewrite (load_months_fold d _ _ ∅ g).
    2:{ intros m c Hm Hc. rewrite (cell_json_project_to_dict p d m c Hj Hm Hc).
        unfold g. by destruct (Hall m c Hm Hc) as [v ->]. }
    f_equal. destruct Hexact as [Hdom Hrows]. apply map_eq. intros m.
    rewrite foldl_insert_lookup. destruct (decide (m ∈ months p)) as [Hm|Hm].
    - assert (is_Some (data p !! m)) as [row Hrow].
      { apply elem_of_dom. rewrite Hdom. by apply elem_of_list_to_set. }
      rewrite Hrow. f_equal. apply map_eq. intros c.
      rewrite foldl_insert_lookup. pose proof (Hrows m row Hrow) as Hdr.
      destruct (decide (c ∈ categories p)) as [Hc|Hc].
      + unfold g, cell. rewrite Hrow. cbn [mbind option_bind].
        assert (is_Some (row !! c)) as [v ->]; [|done].
        apply elem_of_dom. rewrite Hdr. by apply elem_of_list_to_set.
      + rewrite lookup_empty. symmetry. apply not_elem_of_dom.
        rewrite Hdr. by rewrite elem_of_list_to_set.
    - rewrite lookup_empty. symmetry. apply not_elem_of_dom.
      rewrite Hdom. by rewrite elem_of_list_to_set. }
  revert Hj. unfold project_to_dict.
  destruct (months_to_dict p (months p) []) as [out|]; [|done].
  intros [= <-]. unfold dict_to_project.
  match type of Hload with load_months ?l _ _ _ = _ => set (D := l) in * end.
  cbn [as_obj mbind option_bind].
  assert (dict_get "image_path" D = Some (JStr (image_path p))) as ->
    by reflexivity.
  assert (dict_get "diagram_key" D = Some (JStr (diagram_key p))) as ->
    by reflexivity.
  assert (dict_get "center_xy" D ≫= as_center = Some (center_xy p)) as ->
    by (by destruct (center_xy p) as [[x y]|]).
  assert (dict_get "months" D = Some (JList (JStr <$> months p))) as ->
    by reflexivity.
  assert (dict_get "categories" D = Some (JList (JStr <$> categories p))) as ->
    by reflexivity.
  cbn [as_str as_str_list mbind option_bind].
  rewrite !mapM_as_str. cbn [mbind option_bind].
  rewrite Hload. cbn [mbind option_bind]. by destruct p.
Qed.

Lemma sample_project_exact : exact_cells sample_project.
Proof.
  split; [reflexivity |].
  intros m row. cbn [data sample_project].
  rewrite !lookup_insert.
  repeat case_decide; try done; intros [= <-]; reflexivity.
Defined.

Lemma project_roundtrip_witness :
  exact_cells sample_project ∧
  project_to_dict sample_project ≫= dict_to_project = Some sample_project.
Proof.
  split; [exact sample_project_exact |].
  exact (project_roundtrip sample_project sample_project_exact).
Defined.

(** ** Executing callbacks *)

Lemma bind_get_app {B} (k : App → M B) w : bind get_app k w = k (app w) w.
Proof. reflexivity. Qed.

Lemma bind_liftO {A B} (o : option A) (k : A → M B) w :
  bind (liftO o) k w = match o with Some x => k x w | None => (None, w) end.
Proof. by destruct o. Qed.

Lemma bind_modify {B} (f : App → App) (k : unit → M B) w :
  bind (modify f) k w = k tt (with_app (f (app w)) w).
Proof. reflexivity. Qed.

Lemma bind_assign_cell {B} m c v (k : unit → M B) w :
  bind (assign_cell m c v) k w
  = match set_cell m c v (project (app w)) with
    | Some p' => k tt (with_app (with_project p' (app w)) w)
    | None => (None, w)
    end.
Proof. unfold bind, assign_cell. by destruct (set_cell _ _ _ _). Qed.

(** Normalise projections of explicitly updated states. *)
Ltac proj_norm :=
  cbv beta iota delta [with_app with_project with_cursor with_undo_stack
    with_preview_hidden with_setting_center with_processing_click
    app toolbar_mode disk trace project month_i cat_i setting_center
    processing_click undo_stack preview_hidden save_path csv_path
    inaxes xdata ydata button fst snd].

Ltac proj_norm_in H :=
  cbv beta iota delta [with_app with_project with_cursor with_undo_stack
    with_preview_hidden with_setting_center with_processing_click
    app toolbar_mode disk trace project month_i cat_i setting_center
    processing_click undo_stack preview_hidden save_path csv_path
    inaxes xdata ydata button fst snd] in H.

(** *** Steps that only touch the user interface *)

Lemma ui_rel_refl w : ui_rel w w.
Proof. by repeat split. Qed.

Lemma ui_rel_trans w1 w2 w3 : ui_rel w1 w2 → ui_rel w2 w3 → ui_rel w1 w3.
Proof.
  intros (?&?&?&?&?) (?&?&?&?&?). repeat split; congruence.
Qed.

Lemma ui_only_ret {A} (x : A) : ui_only (ret x).
Proof. intros w. apply ui_rel_refl. Qed.

Lemma ui_only_raise {A} : ui_only (@raise A).
Proof. intros w. apply ui_rel_refl. Qed.

Lemma ui_only_liftO {A} (o : option A) : ui_only (liftO o).
Proof. intros w. apply ui_rel_refl. Qed.

Lemma ui_only_reading {A} (f : App → option A) : ui_only (reading f).
Proof. intros w. apply ui_rel_refl. Qed.

Lemma ui_only_bind {A B} (m : M A) (k : A → M B) :
  ui_only m → (∀ x, ui_only (k x)) → ui_only (bind m k).
Proof.
  intros Hm Hk w. unfold bind. specialize (Hm w).
  destruct (m w) as [[x|] w1]; [|done].
  eapply ui_rel_trans; [exact Hm | apply Hk].
Qed.

Lemma ui_only_bind_get_app {B} (k : App → M B) :
  (∀ a, ui_only (k a)) → ui_only (bind get_app k).
Proof. intros Hk w. rewrite bind_get_app. apply Hk. Qed.

Lemma ui_only_try_finally {A} (body : M A) (fin : M unit) :
  ui_only body → ui_only fin → ui_only (try_finally body fin).
Proof.
  intros Hb Hf w. unfold try_finally. specialize (Hb w).
  destruct (body w) as [r w1]. specialize (Hf w1).
  destruct (fin w1) as [[[]|] w2]; by eapply ui_rel_trans.
Qed.

Lemma ui_only_cursor mi ci : ui_only (modify (with_cursor mi ci)).
Proof. intros w. by repeat split. Qed.

Lemma ui_only_cursor_fun (f g : App → Z) :
  ui_only (modify (λ a, with_cursor (f a) (g a) a)).
Proof. intros w. by repeat split. Qed.


Lemma ui_only_processing_click b : ui_only (modify (with_processing_click b)).
Proof. intros w. by repeat split. Qed.

Lemma ui_only_setting_center (f : App → bool) :
  ui_only (modify (λ a, with_setting_center (f a) a)).
Proof. intros w. by repeat split. Qed.

Lemma ui_only_refresh_ui : ui_only refresh_ui.
Proof. apply ui_only_reading. Qed.

Lemma ui_only_next_item : ui_only next_item.
Proof.
  apply ui_only_bind_get_app. intros a. cbv beta zeta.
  destruct (decide _); [apply ui_only_ret |].
  apply ui_only_bind; [| intros _; apply ui_only_refresh_ui].
  destruct (decide _); apply ui_only_cursor.
Qed.

Lemma ui_only_prev_item : ui_only prev_item.
Proof.
  apply ui_only_bind_get_app. intros a. cbv beta zeta.
  destruct (decide _); [apply ui_only_ret |].
  apply ui_only_bind; [| intros _; apply ui_only_refresh_ui].
  destruct (decide _); apply ui_only_cursor.
Qed.

Lemma ui_only_toggle_center_mode : ui_only toggle_center_mode.
Proof.
  apply ui_only_bind; [| intros _; apply ui_only_refresh_ui].
  apply (ui_only_setting_center (λ a, negb (setting_center a))).
Qed.

Lemma ui_only_find_first_unfilled : ui_only _find_first_unfilled.
Proof.
  apply ui_only_bind_get_app. intros a. cbv beta.
  apply ui_only_bind; [apply ui_only_liftO |].
  intros [[mi ci]|]; apply ui_only_cursor.
Qed.

Lemma ui_only_jump_to_unfilled : ui_only jump_to_unfilled.
Proof.
  apply ui_only_bind; [apply ui_only_find_first_unfilled |].
  intros _. apply ui_only_refresh_ui.
Qed.

Lemma cell_set_cell_eq m c v p p' :
  set_cell m c v p = Some p' → cell p' m c = Some v.
Proof.
  unfold set_cell, cell. destruct (data p !! m) as [row|]; [|done].
  cbn [mbind option_bind]. intros [= <-]. cbn [data with_data].
  rewrite lookup_insert_eq. cbn [mbind option_bind].
  by rewrite lookup_insert_eq.
Qed.

Lemma cell_set_cell_ne m c v p p' m' c' :
  set_cell m c v p = Some p' → (m', c') ≠ (m, c) → cell p' m' c' = cell p m' c'.
Proof.
  unfold set_cell, cell. destruct (data p !! m) as [row|] eqn:Hrow; [|done].
  cbn [mbind option_bind]. intros [= <-] Hne. cbn [data with_data].
  destruct (decide (m' = m)) as [->|Hm].
  - rewrite lookup_insert_eq, Hrow. cbn [mbind option_bind].
    rewrite lookup_insert_ne; [done | congruence].
  - by rewrite lookup_insert_ne.
Qed.

Lemma set_cell_is_Some m c v p :
  is_Some (cell p m c) → is_Some (set_cell m c v p).
Proof.
  unfold cell, set_cell. destruct (data p !! m); [eauto | by intros [? ?]].
Qed.

(** *** Saving *)


Lemma safe_write_json_spec path payload w :
  safe_write_json path payload w
  = (Some tt,
     mkWorld (app w) (toolbar_mode w)
       (<[path := FJson payload]> (delete (path ++ ".tmp") (disk w)))
       (trace w ++ [EvWrite (path ++ ".tmp") (FJson payload);
                    EvReplace (path ++ ".tmp") path])%list).
Proof.
  unfold safe_write_json, bind, write_file, os_replace. cbn [disk app toolbar_mode trace].
  rewrite lookup_insert_eq. rewrite delete_insert_eq.
  by rewrite <- app_assoc.
Qed.


(** Whether or not it raises, [save] leaves the application object alone
    and never removes the save file. *)
Lemma save_frame w :
  app (save w).2 = app w ∧ toolbar_mode (save w).2 = toolbar_mode w ∧
  (is_Some (disk w !! save_path (app w)) →
   is_Some (disk (save w).2 !! save_path (app w))).
Proof.
  unfold save. rewrite bind_get_app, bind_liftO.
  destruct (project_to_dict _); [|done].
  rewrite safe_write_json_spec. cbn [snd app toolbar_mode disk].
  repeat split. intros _. rewrite lookup_insert_eq. eauto.
Qed.




(** The same without assuming that the save succeeds. *)
Lemma save_then_ui_frame (tail : M unit) w1 :
  ui_only tail →
  let w' := (bind save (λ _, tail) w1).2 in
  project (app w') = project (app w1) ∧
  undo_stack (app w') = undo_stack (app w1) ∧
  save_path (app w') = save_path (app w1) ∧
  (is_Some (disk w1 !! save_path (app w1)) →
   is_Some (disk w' !! save_path (app w1))).
Proof.
  intros Htail. cbv zeta. unfold bind.
  destruct (save_frame w1) as (Happ & _ & Hkeep).
  destruct (save w1) as [[[]|] w2]; cbn [snd] in *.
  - destruct (Htail w2) as (Hproj & Hst & Hsp & Hdisk & Htrace).
    rewrite Hproj, Hst, Hsp, Hdisk, Happ. done.
  - by rewrite Happ.
Qed.

(** *** The paths on which a callback changes the project *)

Lemma dist_euclidean (a b : R * R) :
  (0 <= dist a b)%R ∧
  (dist a b * dist a b
   = (b.1 - a.1) * (b.1 - a.1) + (b.2 - a.2) * (b.2 - a.2))%R.
Proof.
  unfold dist, hypot. split; [apply sqrt_pos |].
  rewrite sqrt_sqrt; [ring |].
  apply Rplus_le_le_0_compat;
    [apply (Rle_0_sqr (a.1 - b.1)) | apply (Rle_0_sqr (a.2 - b.2))].
Qed.

Lemma on_click_accepted w event x y :
  accepted_left_click w event x y →
  on_click event w
  = try_finally (click_body x y) (modify (with_processing_click false))
      (with_app (with_processing_click true (app w)) w).
Proof.
  intros (Hin & Hx & Hy & Hb & Hpc & Htb). unfold on_click.
  rewrite Hin, Hx, Hy, Hb, Hpc, Htb.
  rewrite (bool_decide_eq_false_2 (1 = 3)%Z) by done.
  rewrite (bool_decide_eq_true_2 (1 = 1)%Z) by done.
  reflexivity.
Qed.

Lemma on_click_ui_rel w event x y :
  accepted_left_click w event x y →
  ui_rel (click_body x y (with_app (with_processing_click true (app w)) w)).2
         (on_click event w).2.
Proof.
  intros Hacc. rewrite (on_click_accepted _ _ _ _ Hacc). unfold try_finally.
  destruct (click_body x y _) as [r w1]. by repeat split.
Qed.


Lemma click_body_measure x y w center m c prev p' :
  setting_center (app w) = false →
  center_xy (project (app w)) = Some center →
  current_month_cat (app w) = Some (m, c) →
  cell (project (app w)) m c = Some prev →
  set_cell m c (Some (mkMeasurement (dist center (x, y)) (Some (x, y)) false))
           (project (app w)) = Some p' →
  click_body x y w
  = bind save (λ _, bind refresh_ui (λ _, next_item))
      (with_app (with_preview_hidden false
                   (with_project p'
                      (with_undo_stack (undo_stack (app w) ++ [(m, c, prev)])
                                       (app w)))) w).
Proof.
  intros Hsc Hcenter Hcur Hprev Hset. unfold click_body.
  rewrite bind_get_app, Hsc, Hcenter, bind_liftO, Hcur.
  cbn [fst snd]. rewrite bind_liftO, Hprev, bind_modify, bind_assign_cell.
  destruct w as [[p mi ci sc pc st ph sp cp] tb dk tr]. proj_norm.
  proj_norm_in Hset. rewrite Hset. by rewrite bind_modify.
Qed.

Lemma mark_missing_path w center m c prev p' :
  center_xy (project (app w)) = Some center →
  current_month_cat (app w) = Some (m, c) →
  cell (project (app w)) m c = Some prev →
  set_cell m c (Some (mkMeasurement 0 None true)) (project (app w)) = Some p' →
  mark_missing w
  = bind save (λ _, next_item)
      (with_app (with_preview_hidden false
                   (with_project p'
                      (with_undo_stack (undo_stack (app w) ++ [(m, c, prev)])
                                       (app w)))) w).
Proof.
  intros Hcenter Hcur Hprev Hset. unfold mark_missing.
  rewrite bind_get_app, Hcenter, bind_liftO, Hcur.
  cbn [fst snd]. rewrite bind_liftO, Hprev, bind_modify, bind_assign_cell.
  destruct w as [[p mi ci sc pc st ph sp cp] tb dk tr]. proj_norm.
  proj_norm_in Hset. rewrite Hset. by rewrite bind_modify.
Qed.

Lemma remeasure_current_path w center m c meas p' :
  center_xy (project (app w)) = Some center →
  current_month_cat (app w) = Some (m, c) →
  cell (project (app w)) m c = Some (Some meas) →
  set_cell m c None (project (app w)) = Some p' →
  remeasure_current w
  = bind save (λ _, refresh_ui)
      (with_app (with_preview_hidden false
                   (with_project p'
                      (with_undo_stack
                         (undo_stack (app w) ++ [(m, c, Some meas)])
                         (app w)))) w).
Proof.
  intros Hcenter Hcur Hprev Hset. unfold remeasure_current.
  rewrite bind_get_app, Hcenter, bind_liftO, Hcur.
  cbn [fst snd]. rewrite bind_liftO, Hprev, bind_modify, bind_assign_cell.
  destruct w as [[p mi ci sc pc st ph sp cp] tb dk tr]. proj_norm.
  proj_norm_in Hset. rewrite Hset. by rewrite bind_modify.
Qed.

Lemma list_pop_snoc {A} (l : list A) (x : A) : list_pop (l ++ [x]) = Some (x, l).
Proof.
  unfold list_pop. rewrite rev_app_distr. simpl.
  by rewrite rev_involutive.
Qed.


Lemma list_index_elem x l : x ∈ l → is_Some (list_index x l).
Proof.
  induction l as [|y l IH]; [by intros ?%not_elem_of_nil |].
  intros Hin. cbn [list_index]. destruct (decide (x = y)); [eauto |].
  apply elem_of_cons in Hin as [?|Hin]; [done |].
  destruct (IH Hin) as [i ->]. cbn. eauto.
Qed.

Lemma py_index_elem {A} (l : list A) i x : py_index l i = Some x → x ∈ l.
Proof.
  unfold py_index. repeat case_decide; [| |done];
    intros Hl; by eapply list_elem_of_lookup_2.
Qed.

Lemma current_month_cat_elem a m c :
  current_month_cat a = Some (m, c) →
  m ∈ months (project a) ∧ c ∈ categories (project a).
Proof.
  unfold current_month_cat.
  destruct (py_index (months _) _) as [m'|] eqn:Hm; [|done].
  destruct (py_index (categories _) _) as [c'|] eqn:Hc; [|done].
  intros [= <- <-]. split; by eapply py_index_elem.
Qed.

Lemma undo_path w m c prev rest p' mi ci :
  list_pop (undo_stack (app w)) = Some ((m, c, prev), rest) →
  set_cell m c prev (project (app w)) = Some p' →
  list_index m (months (project (app w))) = Some mi →
  list_index c (categories (project (app w))) = Some ci →
  undo w
  = bind save (λ _, refresh_ui)
      (with_app (with_preview_hidden false
                   (with_cursor mi ci
                      (with_project p' (with_undo_stack rest (app w))))) w).
Proof.
  intros Hpop Hset Hmi Hci. unfold undo.
  rewrite bind_get_app, Hpop, bind_modify, bind_assign_cell.
  destruct w as [[p mi0 ci0 sc pc st ph sp cp] tb dk tr]. proj_norm.
  proj_norm_in Hset. proj_norm_in Hmi. proj_norm_in Hci.
  rewrite Hset, bind_liftO, Hmi, bind_modify, bind_liftO, Hci.
  by rewrite !bind_modify.
Qed.

(** Whatever happens after the cell is restored, [undo] pops one entry and
    writes its value back. *)
Lemma undo_effect w m c prev rest p' :
  list_pop (undo_stack (app w)) = Some ((m, c, prev), rest) →
  set_cell m c prev (project (app w)) = Some p' →
  project (app (undo w).2) = p' ∧ undo_stack (app (undo w).2) = rest.
Proof.
  intros Hpop Hset.
  destruct (list_index m (months (project (app w)))) as [mi|] eqn:Hmi;
    [destruct (list_index c (categories (project (app w)))) as [ci|] eqn:Hci |].
  - rewrite (undo_path _ _ _ _ _ _ _ _ Hpop Hset Hmi Hci).
    destruct (save_then_ui_frame refresh_ui
                (with_app (with_preview_hidden false
                   (with_cursor mi ci
                      (with_project p' (with_undo_stack rest (app w))))) w)
                ui_only_refresh_ui) as (Hp & Hs & _).
    by rewrite Hp, Hs.
  - unfold undo.
    rewrite bind_get_app, Hpop, bind_modify, bind_assign_cell.
    destruct w as [[p mi0 ci0 sc pc st ph sp cp] tb dk tr]. proj_norm.
    proj_norm_in Hset. proj_norm_in Hmi. proj_norm_in Hci.
    by rewrite Hset, bind_liftO, Hmi, bind_modify, bind_liftO, Hci.
  - unfold undo.
    rewrite bind_get_app, Hpop, bind_modify, bind_assign_cell.
    destruct w as [[p mi0 ci0 sc pc st ph sp cp] tb dk tr]. proj_norm.
    proj_norm_in Hset. proj_norm_in Hmi.
    by rewrite Hset, bind_liftO, Hmi.
Qed.

Lemma set_cell_revert m c v prev p p' :
  cell p m c = Some prev → set_cell m c v p = Some p' →
  set_cell m c prev p' = Some p.
Proof.
  unfold cell, set_cell. destruct (data p !! m) as [row|] eqn:Hrow; [|done].
  cbn [mbind option_bind]. intros Hc [= <-]. cbn [data with_data].
  rewrite lookup_insert_eq. cbn [mbind option_bind]. f_equal.
  destruct p as [ip dk cx ms cs d]. unfold with_data. cbn in *. f_equal.
  rewrite !insert_insert_eq. rewrite (insert_id row c prev Hc).
  by apply insert_id.
Qed.

Lemma ui_only_refresh_next : ui_only (bind refresh_ui (λ _, next_item)).
Proof.
  apply ui_only_bind; [apply ui_only_refresh_ui |].
  intros _. apply ui_only_next_item.
Qed.

(** The state a measuring click leads to, up to the user interface. *)
Lemma on_click_measure_effect w event x y center m c prev :
  accepted_left_click w event x y →
  setting_center (app w) = false →
  center_xy (project (app w)) = Some center →
  current_month_cat (app w) = Some (m, c) →
  cell (project (app w)) m c = Some prev →
  ∃ p', set_cell m c
          (Some (mkMeasurement (dist center (x, y)) (Some (x, y)) false))
          (project (app w)) = Some p' ∧
        project (app (on_click event w).2) = p' ∧
        undo_stack (app (on_click event w).2)
        = (undo_stack (app w) ++ [(m, c, prev)])%list.
Proof.
  intros Hacc Hsc Hcenter Hcur Hprev.
  destruct (set_cell_is_Some m c
              (Some (mkMeasurement (dist center (x, y)) (Some (x, y)) false))
              (project (app w))) as [p' Hp']; [by rewrite Hprev |].
  exists p'. split; [done |].
  destruct (on_click_ui_rel w event x y Hacc) as (Hproj & Hst & _).
  rewrite Hproj, Hst.
  rewrite (click_body_measure x y
             (with_app (with_processing_click true (app w)) w)
             center m c prev p' Hsc Hcenter Hcur Hprev Hp').
  match goal with
  | |- context [bind save _ ?w1] =>
      destruct (save_then_ui_frame _ w1 ui_only_refresh_next) as (-> & -> & _)
  end.
  by destruct w as [[p0 mi ci sc pc st ph sp cp] tb dk tr].
Qed.

Lemma mark_missing_effect w center m c prev :
  center_xy (project (app w)) = Some center →
  current_month_cat (app w) = Some (m, c) →
  cell (project (app w)) m c = Some prev →
  ∃ p', set_cell m c (Some (mkMeasurement 0 None true)) (project (app w))
        = Some p' ∧
        project (app (mark_missing w).2) = p' ∧
        undo_stack (app (mark_missing w).2)
        = (undo_stack (app w) ++ [(m, c, prev)])%list.
Proof.
  intros Hcenter Hcur Hprev.
  destruct (set_cell_is_Some m c (Some (mkMeasurement 0 None true))
              (project (app w))) as [p' Hp']; [by rewrite Hprev |].
  exists p'. split; [done |].
  rewrite (mark_missing_path w center m c prev p' Hcenter Hcur Hprev Hp').
  match goal with
  | |- context [bind save _ ?w1] =>
      destruct (save_then_ui_frame _ w1 ui_only_next_item) as (-> & -> & _)
  end.
  by destruct w as [[p0 mi ci sc pc st ph sp cp] tb dk tr].
Qed.

(** C6. A measurement is created in one of two shapes. A measuring click
    at [(x, y)] stores, in the current cell, a recorded click: the click's
    own coordinates, not missing, and as radius the Euclidean distance from
    the center to [(x, y)] (the non-negative number whose square is the sum
    of the squared coordinate differences), for all center and click
    coordinates. Marking the current cell missing stores the missing marker:
    radius zero, no coordinates, missing. *)
Theorem measurement_shapes (w : World) (center : R * R) (m c : string) :
  center_xy (project (app w)) = Some center →
  current_month_cat (app w) = Some (m, c) →
  is_Some (cell (project (app w)) m c) →
  (∀ event x y,
     accepted_left_click w event x y → setting_center (app w) = false →
     ∃ r, cell (project (app (on_click event w).2)) m c
          = Some (Some (mkMeasurement r (Some (x, y)) false)) ∧
          (0 <= r)%R ∧
          (r * r = (x - center.1) * (x - center.1)
                   + (y - center.2) * (y - center.2))%R) ∧
  cell (project (app (mark_missing w).2)) m c
  = Some (Some (mkMeasurement 0 None true)).
Proof.
  intros Hcenter Hcur [prev Hprev]. split.
  - intros event x y Hacc Hsc. exists (dist center (x, y)).
    split; [| apply (dist_euclidean center (x, y))].
    destruct (on_click_measure_effect w event x y center m c prev
                Hacc Hsc Hcenter Hcur Hprev) as (p' & Hset & -> & _).
    by eapply cell_set_cell_eq.
  - destruct (mark_missing_effect w center m c prev Hcenter Hcur Hprev)
      as (p' & Hset & -> & _).
    by eapply cell_set_cell_eq.
Qed.

(** C4. Recording a measurement into the current cell pushes
    [(month, category, previous value)] on the undo stack; one undo then
    pops exactly that entry and puts the previous value back, so the whole
    project, and with it the previous value of that cell, is exactly what
    it was; the undo touches no other cell. *)
Theorem record_then_undo (w : World) (event : MouseEvent) (x y : R)
    (center : R * R) (m c : string) (prev : option Measurement) :
  accepted_left_click w event x y →
  setting_center (app w) = false →
  center_xy (project (app w)) = Some center →
  current_month_cat (app w) = Some (m, c) →
  cell (project (app w)) m c = Some prev →
  let w1 := (on_click event w).2 in
  let w2 := (undo w1).2 in
  undo_stack (app w1) = (undo_stack (app w) ++ [(m, c, prev)])%list ∧
  cell (project (app w1)) m c
  = Some (Some (mkMeasurement (dist center (x, y)) (Some (x, y)) false)) ∧
  cell (project (app w2)) m c = Some prev ∧
  project (app w2) = project (app w) ∧
  undo_stack (app w2) = undo_stack (app w) ∧
  (∀ m' c', (m', c') ≠ (m, c) →
     cell (project (app w2)) m' c' = cell (project (app w1)) m' c').
Proof.
  intros Hacc Hsc Hcenter Hcur Hprev. cbv zeta.
  destruct (on_click_measure_effect w event x y center m c prev
              Hacc Hsc Hcenter Hcur Hprev) as (p' & Hset & Hp1 & Hs1).
  pose proof (set_cell_revert _ _ _ _ _ _ Hprev Hset) as Hback.
  destruct (undo_effect (on_click event w).2 m c prev (undo_stack (app w))
              (project (app w))) as (Hp2 & Hs2).
  { rewrite Hs1. apply list_pop_snoc. }
  { by rewrite Hp1. }
  rewrite Hp1, Hp2, Hs1, Hs2.
  split; [done |]. split; [by eapply cell_set_cell_eq |].
  split; [done |]. split; [done |]. split; [done |].
  intros m' c' Hne. symmetry. by eapply cell_set_cell_ne.
Qed.

Lemma sample_world_accepts :
  accepted_left_click sample_world sample_left_click 13 24.
Proof. by repeat split. Defined.

Lemma sample_world_target :
  current_month_cat (app sample_world) = Some ("1854-05", "preventable_disease").
Proof. reflexivity. Defined.

Lemma sample_world_cell :
  cell (project (app sample_world)) "1854-05" "preventable_disease" = Some None.
Proof. reflexivity. Defined.

Lemma measurement_shapes_witness :
  (∀ event x y,
     accepted_left_click sample_world event x y →
     setting_center (app sample_world) = false →
     ∃ r, cell (project (app (on_click event sample_world).2))
               "1854-05" "preventable_disease"
          = Some (Some (mkMeasurement r (Some (x, y)) false)) ∧
          (0 <= r)%R ∧
          (r * r = (x - 10) * (x - 10) + (y - 20) * (y - 20))%R) ∧
  cell (project (app (mark_missing sample_world).2))
       "1854-05" "preventable_disease"
  = Some (Some (mkMeasurement 0 None true)).
Proof.
  apply (measurement_shapes sample_world (10, 20)%R
           "1854-05" "preventable_disease").
  - reflexivity.
  - exact sample_world_target.
  - exists None. exact sample_world_cell.
Defined.

(** C6 as the specification words it fails. The sample project has the
    two shapes, but after the user re-centers it (set-center mode, then a
    left click on the origin) the recorded click of radius 5 at (13, 24)
    is no longer at distance 5 from the center; and [dict_to_project]
    loads a measurement that is neither a recorded click nor a missing
    marker. *)
Lemma measurement_shapes_not_kept :
  two_shapes (project (app sample_world)) ∧
  ¬ two_shapes
      (project (app (run (Click sample_origin_click)
                         (run ToggleCenterMode sample_world).2).2)) ∧
  ∃ p, dict_to_project bare_radius_snapshot = Some p ∧ ¬ two_shapes p.
Proof.
  assert (cell sample_project "1854-04" "preventable_disease"
          = Some (Some sample_click)) as Hclick by reflexivity.
  split; [| split].
  - intros m c meas. unfold cell. cbn [project app sample_world sample_app].
    cbn [data sample_project]. rewrite !lookup_insert.
    destruct (decide ("1854-04" = m)) as [<-|Hm].
    + cbn [mbind option_bind]. rewrite !lookup_insert.
      repeat case_decide; try done.
      * intros [= <-]. left. split; [done |].
        exists (10, 20)%R, (13, 24)%R. split; [done |]. split; [done |].
        destruct (dist_euclidean (10, 20)%R (13, 24)%R) as [Hpos Hsq].
        cbn [fst snd radius_px sample_click] in *. nra.
      * intros [= <-]. right. done.
    + destruct (decide ("1854-05" = m)) as [<-|Hm'];
        cbn [mbind option_bind]; [| by rewrite lookup_empty].
      unfold empty_row. rewrite (foldl_insert_lookup (λ _, None)).
      by case_decide.
  - assert (project (app (run (Click sample_origin_click)
                              (run ToggleCenterMode sample_world).2).2)
            = with_center (Some (0, 0)%R) sample_project) as ->
      by reflexivity.
    intros Hshapes.
    destruct (Hshapes "1854-04" "preventable_disease" sample_click Hclick)
      as [(_ & center & xy & [= <-] & [= <-] & Hr)|(Hmiss & _)]; [| done].
    destruct (dist_euclidean (0, 0)%R (13, 24)%R) as [_ Hsq].
    rewrite <- Hr in Hsq. cbn [fst snd radius_px sample_click] in Hsq. lra.
  - eexists. split; [reflexivity |]. intros Hshapes.
    destruct (Hshapes "1854-04" "wounds" (mkMeasurement 7 None false) eq_refl)
      as [(_ & center & xy & _ & Hxy & _)|(Hmiss & _)]; done.
Qed.

Lemma record_then_undo_witness :
  let w1 := (on_click sample_left_click sample_world).2 in
  let w2 := (undo w1).2 in
  undo_stack (app w1)
  = [("1854-04", "wounds", None); ("1854-05", "preventable_disease", None)] ∧
  cell (project (app w1)) "1854-05" "preventable_disease"
  = Some (Some (mkMeasurement (dist (10, 20)%R (13, 24)%R)
                              (Some (13, 24)%R) false)) ∧
  cell (project (app w2)) "1854-05" "preventable_disease" = Some None ∧
  project (app w2) = sample_project ∧
  undo_stack (app w2) = [("1854-04", "wounds", None)] ∧
  (∀ m' c', (m', c') ≠ ("1854-05", "preventable_disease") →
     cell (project (app w2)) m' c' = cell (project (app w1)) m' c').
Proof.
  apply (record_then_undo sample_world sample_left_click 13 24 (10, 20)%R
           "1854-05" "preventable_disease" None).
  - exact sample_world_accepts.
  - reflexivity.
  - reflexivity.
  - exact sample_world_target.
  - exact sample_world_cell.
Defined.

(** ** Loops *)

(** A loop whose body never raises under the invariant [I]: it keeps [I],
    establishes [Q (tag x)] for every element [x] it has visited, and
    destroys no [Q] that held before. *)
Lemma for_each_post {A B} (I : World → Prop) (Q : B → World → Prop)
    (tag : A → B) (l : list A) (body : A → M unit) :
  (∀ x w, x ∈ l → I w →
     ∃ w', body x w = (Some tt, w') ∧ I w' ∧ Q (tag x) w' ∧
           ∀ y, Q y w → Q y w') →
  ∀ w, I w →
    ∃ w', for_each l body w = (Some tt, w') ∧ I w' ∧
          (∀ x, x ∈ l → Q (tag x) w') ∧ (∀ y, Q y w → Q y w').
Proof.
  induction l as [|x l IH]; intros Hbody w HI.
  - exists w. split; [done |]. split; [done |].
    split; [by intros x ?%not_elem_of_nil | done].
  - destruct (Hbody x w) as (w1 & Hx & HI1 & HQ1 & Hst1); [by left | done |].
    destruct (IH (λ x' w' Hin, Hbody x' w' (list_elem_of_further _ _ _ Hin))
                 w1 HI1) as (w' & Hl & HI' & HQ' & Hst').
    exists w'. cbn [for_each]. unfold bind. rewrite Hx.
    split; [done |]. split; [done |]. split.
    + intros x' [->|Hin]%elem_of_cons; [by apply Hst' | by apply HQ'].
    + intros y Hy. by apply Hst', Hst1.
Qed.

Lemma assign_cell_ok m c v w row :
  data (project (app w)) !! m = Some row →
  assign_cell m c v w
  = (Some tt,
     with_app (with_project
                 (with_data (<[m := <[c := v]> row]> (data (project (app w))))
                            (project (app w))) (app w)) w).
Proof. intros Hrow. unfold assign_cell, set_cell. by rewrite Hrow. Qed.

(** The loops of [clear_all]: on a table that has every cell they do not
    raise, they replace the table and nothing else, and every cell of the
    month and category lists ends up unmeasured. *)
Lemma clear_loops w :
  has_all_cells (project (app w)) →
  ∃ d', for_each (months (project (app w)))
          (λ m, for_each (categories (project (app w)))
                  (λ c, assign_cell m c None)) w
        = (Some tt,
           with_app (with_project (with_data d' (project (app w))) (app w)) w) ∧
        ∀ m c, m ∈ months (project (app w)) →
               c ∈ categories (project (app w)) →
               cell (with_data d' (project (app w))) m c = Some None.
Proof.
  destruct w as [[p0 mi ci sc pc st ph sp cp] tb dk tr]. proj_norm.
  intros Hall.
  set (mk := λ d, mkWorld (mkApp (with_data d p0) mi ci sc pc st ph sp cp) tb dk tr).
  set (I := λ w' : World,
         (∃ d, w' = mk d) ∧
         ∀ m, is_Some (data p0 !! m) → is_Some (data (project (app w')) !! m)).
  set (Q := λ (mc : string * string) (w' : World),
         cell (project (app w')) mc.1 mc.2 = Some None).
  assert (Hinner : ∀ m, m ∈ months p0 → ∀ w1, I w1 →
            ∃ w', for_each (categories p0) (λ c, assign_cell m c None) w1
                  = (Some tt, w') ∧ I w' ∧
                  (∀ c, c ∈ categories p0 → Q (m, c) w') ∧
                  (∀ y, Q y w1 → Q y w')).
  { intros m Hm. apply (for_each_post I Q (λ c, (m, c))).
    intros c w1 Hc [[d ->] Hrows].
    assert (is_Some (data p0 !! m)) as Hrow0.
    { destruct (Hall m c Hm Hc) as [v Hv]. unfold cell in Hv.
      destruct (data p0 !! m); [eauto | done]. }
    destruct (Hrows m Hrow0) as [row Hrow].
    rewrite (assign_cell_ok m c None _ row Hrow).
    eexists. split; [reflexivity |].
    unfold I, Q, cell, mk in *. proj_norm. proj_norm_in Hrow. proj_norm_in Hrows.
    cbn [data with_data] in *.
    split; [split; [eauto |] |]; [| split].
    - intros m' Hm'. destruct (decide (m' = m)) as [->|Hne].
      + rewrite lookup_insert_eq. eauto.
      + rewrite lookup_insert_ne by done. by apply Hrows.
    - rewrite lookup_insert_eq. cbn [mbind option_bind].
      by rewrite lookup_insert_eq.
    - intros [m' c']. cbn [fst snd]. destruct (decide (m' = m)) as [->|Hne].
      + rewrite lookup_insert_eq, Hrow. cbn [mbind option_bind].
        destruct (decide (c' = c)) as [->|Hnc].
        * by rewrite lookup_insert_eq.
        * by rewrite lookup_insert_ne.
      + by rewrite lookup_insert_ne. }
  destruct (for_each_post I (λ m w', ∀ c, c ∈ categories p0 → Q (m, c) w')
              (λ m, m) (months p0)
              (λ m, for_each (categories p0) (λ c, assign_cell m c None)))
    with (w := mk (data p0)) as (w' & Hrun & [[d' ->] _] & Hdone & _).
  { intros m w1 Hm HI1.
    destruct (Hinner m Hm w1 HI1) as (w' & Hrun & HI' & HQ & Hst).
    exists w'. split; [done |]. split; [done |]. split; [done |].
    intros m' Hm' c Hc. by apply Hst, Hm'. }
  { split; [| done]. by exists (data p0). }
  exists d'. split.
  - assert (with_data (data p0) p0 = p0) as Heta by (by destruct p0).
    unfold mk in Hrun. rewrite Heta in Hrun. exact Hrun.
  - intros m c Hm Hc. exact (Hdone m Hm c Hc).
Qed.

Lemma bind_eq {A B} (m : M A) (k : A → M B) w x w1 :
  m w = (Some x, w1) → bind m k w = k x w1.
Proof. intros Hm. unfold bind. by rewrite Hm. Qed.

Lemma clear_all_path w :
  has_all_cells (project (app w)) →
  ∃ d', clear_all true w
        = bind save (λ _, refresh_ui)
            (with_app (with_preview_hidden false
               (with_cursor 0 0
                  (with_undo_stack []
                     (with_project (with_data d' (project (app w)))
                                   (app w))))) w) ∧
        ∀ m c, m ∈ months (project (app w)) →
               c ∈ categories (project (app w)) →
               cell (with_data d' (project (app w))) m c = Some None.
Proof.
  intros Hall. destruct (clear_loops w Hall) as (d' & Hrun & Hcells).
  exists d'. split; [| exact Hcells].
  unfold clear_all. rewrite bind_get_app, (bind_eq _ _ _ _ _ Hrun).
  by rewrite !bind_modify.
Qed.

Lemma save_refresh_app w : app (bind save (λ _, refresh_ui) w).2 = app w.
Proof.
  unfold bind. destruct (save_frame w) as (Happ & _).
  by destruct (save w) as [[[]|] w2].
Qed.

(** C10. A confirmed clear-all sets every cell of the month and category
    lists to unmeasured, empties the undo stack and puts the cursor on the
    first month and first category; the center point, image path, diagram
    key, month list and category list stay as they were. A declined
    clear-all changes nothing. *)
Theorem clear_all_effect (w : World) :
  has_all_cells (project (app w)) →
  let p := project (app w) in
  let a' := app (clear_all true w).2 in
  (∀ m c, m ∈ months p → c ∈ categories p →
          cell (project a') m c = Some None) ∧
  undo_stack a' = [] ∧
  month_i a' = 0%Z ∧ cat_i a' = 0%Z ∧
  center_xy (project a') = center_xy p ∧
  image_path (project a') = image_path p ∧
  diagram_key (project a') = diagram_key p ∧
  months (project a') = months p ∧
  categories (project a') = categories p ∧
  clear_all false w = (Some tt, w).
Proof.
  intros Hall. cbv zeta.
  destruct (clear_all_path w Hall) as (d' & -> & Hcells).
  rewrite save_refresh_app.
  destruct w as [[p mi ci sc pc st ph sp cp] tb dk tr].
  proj_norm. proj_norm_in Hcells.
  split; [exact Hcells |]. by repeat split.
Qed.

Lemma sample_project_has_all : has_all_cells sample_project.
Proof. apply exact_cells_has_all, sample_project_exact. Defined.

Lemma clear_all_effect_witness :
  let a' := app (clear_all true sample_world).2 in
  (∀ m c, m ∈ months sample_project → c ∈ categories sample_project →
          cell (project a') m c = Some None) ∧
  undo_stack a' = [] ∧
  month_i a' = 0%Z ∧ cat_i a' = 0%Z ∧
  center_xy (project a') = Some (10, 20)%R ∧
  image_path (project a') = "plate.jpg" ∧
  diagram_key (project a') = "right" ∧
  months (project a') = ["1854-04"; "1854-05"] ∧
  categories (project a') = CATEGORIES ∧
  clear_all false sample_world = (Some tt, sample_world).
Proof. exact (clear_all_effect sample_world sample_project_has_all). Defined.

(** ** Every mutation is persisted *)

Lemma set_cell_frame m c v p p' :
  set_cell m c v p = Some p' →
  image_path p' = image_path p ∧ diagram_key p' = diagram_key p ∧
  center_xy p' = center_xy p ∧ months p' = months p ∧
  categories p' = categories p.
Proof.
  unfold set_cell. destruct (data p !! m); [|done]. by intros [= <-].
Qed.

Lemma has_all_cells_set_cell m c v p p' :
  set_cell m c v p = Some p' → has_all_cells p → has_all_cells p'.
Proof.
  intros Hset Hall m' c'.
  destruct (set_cell_frame _ _ _ _ _ Hset) as (_ & _ & _ & -> & ->).
  intros Hm Hc. destruct (decide ((m', c') = (m, c))) as [[= -> ->]|Hne].
  - rewrite (cell_set_cell_eq _ _ _ _ _ Hset). eauto.
  - rewrite (cell_set_cell_ne _ _ _ _ _ _ _ Hset Hne). by apply Hall.
Qed.

Lemma has_all_cells_with_center c p :
  has_all_cells p → has_all_cells (with_center c p).
Proof. done. Qed.












Lemma sample_world_consistent : consistent sample_world.
Proof.
  split; [exact sample_project_has_all |].
  intros m c prev Hin. apply list_elem_of_singleton in Hin.
  injection Hin as -> -> ->.
  split; [apply list_elem_of_here |].
  apply list_elem_of_further, list_elem_of_here.
Defined.


(** ** The data-model invariant *)

Lemma has_all_cells_make_empty_project ip dk ms cs :
  has_all_cells (make_empty_project ip dk ms cs).
Proof.
  intros m c Hm Hc. unfold cell, make_empty_project, empty_row in *.
  cbn [data months categories] in *.
  rewrite (foldl_insert_lookup (λ _, foldl _ ∅ cs)), decide_True by done.
  cbn [mbind option_bind].
  rewrite (foldl_insert_lookup (λ _, None)), decide_True by done. eauto.
Qed.

Lemma load_cells_rows d m cats row row' :
  load_cells d m cats row = Some row' →
  ∀ c, (c ∈ cats → is_Some (row' !! c)) ∧
       (is_Some (row !! c) → is_Some (row' !! c)).
Proof.
  revert row. induction cats as [|c0 cs IH]; intros row; cbn [load_cells].
  - intros [= <-] c. split; [by intros ?%not_elem_of_nil | done].
  - destruct (cell_json d m c0) as [v|]; cbn [mbind option_bind]; [|done].
    destruct (json_to_meas v) as [meas|]; cbn [mbind option_bind]; [|done].
    intros Hload c. destruct (IH _ Hload c) as [Hin Hkeep]. split.
    + intros [->|Hc]%elem_of_cons; [| by apply Hin].
      apply Hkeep. rewrite lookup_insert_eq. eauto.
    + intros Hrow. apply Hkeep. destruct (decide (c = c0)) as [->|Hne].
      * rewrite lookup_insert_eq. eauto.
      * by rewrite lookup_insert_ne.
Qed.

Lemma load_months_rows d ms cats acc data' :
  load_months d ms cats acc = Some data' →
  ∀ m, m ∈ ms →
    ∃ row, data' !! m = Some row ∧ ∀ c, c ∈ cats → is_Some (row !! c).
Proof.
  assert (∀ ms acc data',
    load_months d ms cats acc = Some data' →
    ∀ m, (m ∈ ms →
          ∃ row, data' !! m = Some row ∧ ∀ c, c ∈ cats → is_Some (row !! c)) ∧
         (m ∉ ms → data' !! m = acc !! m)) as Hgen.
  { clear. induction ms as [|m0 ms IH]; intros acc data'; cbn [load_months].
    - intros [= <-] m. split; [by intros ?%not_elem_of_nil | done].
    - destruct (load_cells d m0 cats ∅) as [row0|] eqn:Hrow0;
        cbn [mbind option_bind]; [|done].
      intros Hload m. destruct (IH _ _ Hload m) as [Hin Hout]. split.
      + intros Hm. destruct (decide (m ∈ ms)) as [Hms|Hms]; [by apply Hin |].
        apply elem_of_cons in Hm as [->|Hm]; [| done].
        exists row0. rewrite (Hout Hms), lookup_insert_eq. split; [done |].
        intros c Hc.
        destruct (load_cells_rows _ _ _ _ _ Hrow0 c) as [Hin0 _]. by apply Hin0.
      + intros Hm. apply not_elem_of_cons in Hm as [Hne Hms].
        rewrite (Hout Hms). by rewrite lookup_insert_ne. }
  intros Hload m Hm. by apply (Hgen ms acc data' Hload m).
Qed.

Lemma has_all_cells_dict_to_project j p :
  dict_to_project j = Some p → has_all_cells p.
Proof.
  unfold dict_to_project. intros Hload.
  repeat match type of Hload with
  | (?o ≫= _) = Some _ =>
      let x := fresh "x" in
      destruct o as [x|] eqn:?; cbn [mbind option_bind] in Hload; [|done]
  end.
  injection Hload as <-. intros m c Hm Hc. unfold cell.
  cbn [data months categories] in *.
  match goal with
  | H : load_months _ _ _ _ = Some _ |- _ =>
      destruct (load_months_rows _ _ _ _ _ H m Hm) as (row & -> & Hrow)
  end.
  by apply Hrow.
Qed.

Lemma keeps_ui {A} (t : M A) : ui_only t → keeps_cells t.
Proof. intros Hui w Hall. destruct (Hui w) as (-> & _). done. Qed.

Lemma keeps_ret {A} (x : A) : keeps_cells (ret x).
Proof. by intros w. Qed.

Lemma keeps_raise {A} : keeps_cells (@raise A).
Proof. by intros w. Qed.

Lemma keeps_bind {A B} (m : M A) (k : A → M B) :
  keeps_cells m → (∀ x, keeps_cells (k x)) → keeps_cells (bind m k).
Proof.
  intros Hm Hk w Hall. unfold bind. specialize (Hm w Hall).
  destruct (m w) as [[x|] w1]; [by apply Hk | done].
Qed.

Lemma keeps_bind_get_app {B} (k : App → M B) :
  (∀ a, keeps_cells (k a)) → keeps_cells (bind get_app k).
Proof. intros Hk w. rewrite bind_get_app. apply Hk. Qed.

Lemma keeps_bind_liftO {A B} (o : option A) (k : A → M B) :
  (∀ x, o = Some x → keeps_cells (k x)) → keeps_cells (bind (liftO o) k).
Proof.
  intros Hk w. rewrite bind_liftO. destruct o as [x|]; [by apply Hk | done].
Qed.

Lemma keeps_try_finally {A} (body : M A) (fin : M unit) :
  keeps_cells body → keeps_cells fin → keeps_cells (try_finally body fin).
Proof.
  intros Hb Hf w Hall. unfold try_finally. specialize (Hb w Hall).
  destruct (body w) as [r w1]. specialize (Hf w1 Hb).
  by destruct (fin w1) as [[[]|] w2].
Qed.

Lemma keeps_for_each {A} (l : list A) (body : A → M unit) :
  (∀ x, keeps_cells (body x)) → keeps_cells (for_each l body).
Proof.
  intros Hbody. induction l as [|x l IH]; [apply keeps_ret |].
  apply keeps_bind; [apply Hbody | intros _; apply IH].
Qed.

Lemma keeps_modify (f : App → App) :
  (∀ a, has_all_cells (project a) → has_all_cells (project (f a))) →
  keeps_cells (modify f).
Proof. intros Hf w Hall. by apply Hf. Qed.

Lemma keeps_push (f : App → list (string * string * option Measurement)) :
  keeps_cells (modify (λ a, with_undo_stack (f a) a)).
Proof. by apply keeps_modify. Qed.

Lemma keeps_assign_cell m c v : keeps_cells (assign_cell m c v).
Proof.
  intros w Hall. unfold assign_cell.
  destruct (set_cell m c v (project (app w))) as [p'|] eqn:Hset; [|done].
  by eapply has_all_cells_set_cell.
Qed.

Lemma keeps_save : keeps_cells save.
Proof. intros w Hall. by destruct (save_frame w) as (-> & _). Qed.

Lemma keeps_write_file path content : keeps_cells (write_file path content).
Proof. by intros w. Qed.

Create HintDb keeps discriminated.

#[local] Hint Resolve keeps_ret keeps_raise keeps_save keeps_assign_cell
  keeps_write_file keeps_push : keeps.
#[local] Hint Extern 1 (keeps_cells refresh_ui) =>
  apply keeps_ui, ui_only_refresh_ui : keeps.
#[local] Hint Extern 1 (keeps_cells next_item) =>
  apply keeps_ui, ui_only_next_item : keeps.
#[local] Hint Extern 1 (keeps_cells (modify (with_preview_hidden _))) =>
  by apply keeps_modify : keeps.
#[local] Hint Extern 1 (keeps_cells (modify (with_undo_stack _))) =>
  by apply keeps_modify : keeps.
#[local] Hint Extern 1 (keeps_cells (modify (with_cursor _ _))) =>
  by apply keeps_modify : keeps.
#[local] Hint Extern 1 (keeps_cells (modify _)) =>
  by apply keeps_modify : keeps.

(** Walk through a callback along its binds. *)
Ltac keeps_walk :=
  repeat first
    [ solve [auto with keeps]
    | apply keeps_bind_get_app; intros ?; cbv beta
    | apply keeps_bind_liftO; intros ? ?
    | apply keeps_bind; [| intros ?]
    | match goal with
      | |- keeps_cells (match ?x with _ => _ end) => destruct x
      | |- keeps_cells (if ?b then _ else _) => destruct b
      end ].

Lemma keeps_click_body x y : keeps_cells (click_body x y).
Proof. unfold click_body. keeps_walk. Qed.

Lemma keeps_on_click event : keeps_cells (on_click event).
Proof.
  intros w Hall. unfold on_click.
  destruct (inaxes event); [| done].
  destruct (xdata event) as [x|]; [| done].
  destruct (ydata event) as [y|]; [| done].
  destruct (processing_click (app w)); [done |].
  destruct (_ && _); [done |].
  destruct (negb _); [done |].
  destruct (toolbar_mode w); [done |].
  revert w Hall. change (keeps_cells
    (bind (modify (with_processing_click true))
          (λ _, try_finally (click_body x y)
                            (modify (with_processing_click false))))).
  apply keeps_bind; [by apply keeps_modify |]. intros _.
  apply keeps_try_finally; [apply keeps_click_body | by apply keeps_modify].
Qed.

Lemma keeps_undo : keeps_cells undo.
Proof. unfold undo. keeps_walk. Qed.

Lemma keeps_clear_all confirmed : keeps_cells (clear_all confirmed).
Proof.
  unfold clear_all. destruct confirmed; [| apply keeps_ret].
  apply keeps_bind_get_app. intros a. cbv beta.
  apply keeps_bind.
  { apply keeps_for_each. intros m. apply keeps_for_each. intros c.
    apply keeps_assign_cell. }
  intros _. keeps_walk.
Qed.

Lemma keeps_mark_missing : keeps_cells mark_missing.
Proof. unfold mark_missing. keeps_walk. Qed.

Lemma keeps_remeasure_current : keeps_cells remeasure_current.
Proof. unfold remeasure_current. keeps_walk. Qed.

Lemma keeps_reload : keeps_cells reload.
Proof.
  unfold reload. apply keeps_bind_get_app. intros a. cbv beta.
  apply keeps_bind; [by intros w |]. intros [content|]; [| apply keeps_ret].
  apply keeps_bind_liftO. intros loaded _.
  apply keeps_bind_liftO. intros p Hp.
  apply keeps_bind.
  { intros w _. by eapply has_all_cells_dict_to_project. }
  intros _. keeps_walk.
Qed.

Lemma keeps_export_csv : keeps_cells export_csv.
Proof.
  unfold export_csv. apply keeps_bind_get_app. intros a. cbv beta.
  destruct (center_xy (project a)); [| apply keeps_ret].
  apply keeps_bind_liftO. intros areas _.
  destruct (write_rows _ _ _ _) as [lines completed].
  keeps_walk.
Qed.

Lemma keeps_run act : keeps_cells (run act).
Proof.
  destruct act; cbn [run].
  - apply keeps_on_click.
  - apply keeps_ui, ui_only_toggle_center_mode.
  - apply keeps_ui, ui_only_next_item.
  - apply keeps_ui, ui_only_prev_item.
  - apply keeps_undo.
  - apply keeps_clear_all.
  - apply keeps_ui, ui_only_jump_to_unfilled.
  - apply keeps_mark_missing.
  - apply keeps_remeasure_current.
  - apply keeps_reload.
  - apply keeps_export_csv.
Qed.

Lemma has_all_cells_load_or_start ip dk ms snapshot :
  has_all_cells (load_or_start ip dk ms snapshot).
Proof.
  unfold load_or_start. destruct snapshot as [content|];
    [| apply has_all_cells_make_empty_project].
  destruct (json_load content ≫= dict_to_project) as [p|] eqn:Hload;
    [| apply has_all_cells_make_empty_project].
  destruct (json_load content) as [j|]; [| done].
  by eapply has_all_cells_dict_to_project.
Qed.

Lemma has_all_cells_init ip dk tb files r w :
  DigitizerApp__init__ ip dk tb files = Some (r, w) →
  has_all_cells (project (app w)).
Proof.
  unfold DigitizerApp__init__.
  destruct (DIAGRAMS_months dk) as [ms|]; cbn [mbind option_bind]; [|done].
  intros [= Hrun].
  pose proof (keeps_ui _ ui_only_jump_to_unfilled) as Hkeep.
  unfold jump_to_unfilled in Hkeep.
  match type of Hrun with
  | ?t ?w0 = _ => specialize (Hkeep w0); rewrite Hrun in Hkeep
  end.
  apply Hkeep. apply has_all_cells_load_or_start.
Qed.

(** C7. The data-model invariant (the table has an entry, unmeasured or a
    measurement, for every pair of a listed month and a listed category)
    holds for the empty project, for every project read from a snapshot,
    for the project a newly started application holds, and after every
    operation on a state in which it held, whether the operation completes
    or raises. *)
Theorem data_model_invariant :
  (∀ ip dk ms cs, has_all_cells (make_empty_project ip dk ms cs)) ∧
  (∀ j p, dict_to_project j = Some p → has_all_cells p) ∧
  (∀ ip dk tb files r w,
     DigitizerApp__init__ ip dk tb files = Some (r, w) →
     has_all_cells (project (app w))) ∧
  (∀ act w,
     has_all_cells (project (app w)) →
     has_all_cells (project (app (run act w).2))).
Proof.
  split; [exact has_all_cells_make_empty_project |].
  split; [exact has_all_cells_dict_to_project |].
  split; [exact has_all_cells_init |].
  exact keeps_run.
Qed.

Lemma data_model_invariant_witness :
  has_all_cells (project (app (run MarkMissing sample_world).2)) ∧
  has_all_cells (project (app (run Undo sample_world).2)).
Proof.
  destruct data_model_invariant as (_ & _ & _ & Hrun).
  split; apply Hrun; exact sample_project_has_all.
Defined.

(** ** Jump to the first unfilled cell *)

Lemma scan_cats_total p m cats ci :
  (∀ c, c ∈ cats → is_Some (cell p m c)) → is_Some (scan_cats p m cats ci).
Proof.
  revert ci. induction cats as [|c0 cs IH]; intros ci Hall; [by eexists |].
  cbn [scan_cats]. destruct (Hall c0) as [v ->]; [by left |].
  cbn [mbind option_bind]. destruct v; [| by eexists].
  apply IH. intros c Hc. apply Hall. by right.
Qed.

Lemma scan_months_total p ms mi :
  (∀ m c, m ∈ ms → c ∈ categories p → is_Some (cell p m c)) →
  is_Some (scan_months p ms mi).
Proof.
  revert mi. induction ms as [|m0 ms IH]; intros mi Hall; [by eexists |].
  cbn [scan_months].
  destruct (scan_cats_total p m0 (categories p) 0) as [r ->].
  { intros c Hc. apply Hall; [by left | done]. }
  cbn [mbind option_bind]. destruct r; [by eexists |].
  apply IH. intros m c Hm Hc. apply Hall; [by right | done].
Qed.

Lemma scan_cats_spec p m cats ci r :
  scan_cats p m cats ci = Some r →
  match r with
  | Some j =>
      ∃ k c, j = (ci + Z.of_nat k)%Z ∧ cats !! k = Some c ∧
             cell p m c = Some None ∧
             ∀ k' c', k' < k → cats !! k' = Some c' → cell p m c' ≠ Some None
  | None => ∀ c, c ∈ cats → cell p m c ≠ Some None
  end.
Proof.
  revert ci. induction cats as [|c0 cs IH]; intros ci; cbn [scan_cats].
  - intros [= <-]. by intros c ?%not_elem_of_nil.
  - destruct (cell p m c0) as [[meas|]|] eqn:Hc0; cbn [mbind option_bind];
      [| | done].
    + intros Hscan. specialize (IH _ Hscan). destruct r as [j|].
      * destruct IH as (k & c & -> & Hk & Hnull & Hbefore).
        exists (S k), c. split; [lia |]. split; [done |]. split; [done |].
        intros [|k'] c' Hlt Hk'; cbn in Hk'.
        -- injection Hk' as <-. by rewrite Hc0.
        -- apply (Hbefore k'); [lia | done].
      * intros c [->|Hc]%elem_of_cons; [by rewrite Hc0 | by apply IH].
    + intros [= <-]. exists 0, c0. split; [lia |]. split; [done |].
      split; [done |]. intros k' c' Hlt. lia.
Qed.

Lemma scan_months_spec p ms mi r :
  scan_months p ms mi = Some r →
  match r with
  | Some (i, j) =>
      ∃ ki kj m c,
        i = (mi + Z.of_nat ki)%Z ∧ j = Z.of_nat kj ∧
        ms !! ki = Some m ∧ categories p !! kj = Some c ∧
        cell p m c = Some None ∧
        (∀ k' m' c', k' < ki → ms !! k' = Some m' → c' ∈ categories p →
                     cell p m' c' ≠ Some None) ∧
        (∀ k' c', k' < kj → categories p !! k' = Some c' →
                  cell p m c' ≠ Some None)
  | None => ∀ m c, m ∈ ms → c ∈ categories p → cell p m c ≠ Some None
  end.
Proof.
  revert mi. induction ms as [|m0 ms IH]; intros mi; cbn [scan_months].
  - intros [= <-]. by intros m c ?%not_elem_of_nil.
  - destruct (scan_cats p m0 (categories p) 0) as [r0|] eqn:Hrow;
      cbn [mbind option_bind]; [| done].
    pose proof (scan_cats_spec _ _ _ _ _ Hrow) as Hspec0.
    destruct r0 as [j0|].
    + intros [= <-]. destruct Hspec0 as (k & c & -> & Hk & Hnull & Hbefore).
      exists 0, k, m0, c. split; [lia |]. split; [lia |].
      split; [done |]. split; [done |]. split; [done |].
      split; [intros k' m' c' Hlt; lia | done].
    + intros Hscan. specialize (IH _ Hscan). destruct r as [[i j]|].
      * destruct IH as (ki & kj & m & c & -> & -> & Hm & Hc & Hnull & Hbm & Hbc).
        exists (S ki), kj, m, c. split; [lia |]. split; [done |].
        split; [done |]. split; [done |]. split; [done |]. split; [| done].
        intros [|k'] m' c' Hlt Hk' Hc'; cbn in Hk'.
        -- injection Hk' as <-. by apply Hspec0.
        -- apply (Hbm k'); [lia | done | done].
      * intros m c [->|Hm]%elem_of_cons Hc; [by apply Hspec0 | by apply IH].
Qed.

(** C8. Jump-to-first-unfilled leaves the project alone and moves the
    cursor to the earliest unmeasured cell in month-major, category-minor
    order: the cell under the new cursor is unmeasured and no cell before
    it in that order is; when no cell is unmeasured the cursor settles on
    the last month and the last category. *)
Theorem jump_to_first_unfilled (w : World) :
  has_all_cells (project (app w)) →
  let p := project (app w) in
  let a' := app (jump_to_unfilled w).2 in
  project a' = p ∧
  ((∃ i j, month_i a' = Z.of_nat i ∧ cat_i a' = Z.of_nat j ∧
           cell_at p i j = Some None ∧
           ∀ i' j', before i' j' i j → cell_at p i' j' ≠ Some None)
   ∨ ((∀ i j, cell_at p i j ≠ Some None) ∧
      month_i a' = (Z.of_nat (length (months p)) - 1)%Z ∧
      cat_i a' = (Z.of_nat (length (categories p)) - 1)%Z)).
Proof.
  intros Hall p a'.
  destruct (scan_months_total p (months p) 0) as [r Hscan]; [done |].
  pose proof (scan_months_spec _ _ _ _ Hscan) as Hspec.
  assert (a' = match r with
               | Some (i, j) => with_cursor i j (app w)
               | None => with_cursor (Z.of_nat (length (months p)) - 1)
                                     (Z.of_nat (length (categories p)) - 1)
                                     (app w)
               end) as ->.
  { subst a' p. unfold jump_to_unfilled. unfold bind at 1.
    unfold _find_first_unfilled. rewrite bind_get_app, bind_liftO, Hscan.
    by destruct r as [[i j]|]. }
  destruct r as [[i j]|].
  - split; [done |]. left.
    destruct Hspec as (ki & kj & m & c & -> & -> & Hm & Hc & Hnull & Hbm & Hbc).
    exists ki, kj. split; [cbn; lia |]. split; [done |].
    unfold cell_at. rewrite Hm, Hc. cbn [mbind option_bind].
    split; [done |]. intros i' j' [Hlt|[-> Hlt]].
    + destruct (months p !! i') as [m'|] eqn:Hm'; [| done].
      destruct (categories p !! j') as [c'|] eqn:Hc'; [| done].
      cbn [mbind option_bind]. apply (Hbm i'); [done | done |].
      by eapply list_elem_of_lookup_2.
    + rewrite Hm. destruct (categories p !! j') as [c'|] eqn:Hc'; [| done].
      cbn [mbind option_bind]. by apply (Hbc j').
  - split; [done |]. right.
    split; [| done]. intros i j. unfold cell_at.
    destruct (months p !! i) as [m|] eqn:Hm; [| done].
    destruct (categories p !! j) as [c|] eqn:Hc; [| done].
    cbn [mbind option_bind]. apply Hspec; by eapply list_elem_of_lookup_2.
Qed.

Lemma jump_to_first_unfilled_witness :
  let p := sample_project in
  let a' := app (jump_to_unfilled sample_world).2 in
  project a' = p ∧
  ((∃ i j, month_i a' = Z.of_nat i ∧ cat_i a' = Z.of_nat j ∧
           cell_at p i j = Some None ∧
           ∀ i' j', before i' j' i j → cell_at p i' j' ≠ Some None)
   ∨ ((∀ i j, cell_at p i j ≠ Some None) ∧
      month_i a' = (Z.of_nat (length (months p)) - 1)%Z ∧
      cat_i a' = (Z.of_nat (length (categories p)) - 1)%Z)).
Proof. exact (jump_to_first_unfilled sample_world sample_project_has_all). Defined.

(** On the sample state the first unmeasured cell is the third category of
    the first month. *)
Example jump_to_unfilled_sample :
  let a' := app (jump_to_unfilled sample_world).2 in
  month_i a' = 0%Z ∧ cat_i a' = 2%Z.
Proof. split; reflexivity. Qed.

(** ** Loading a snapshot *)

(** At start, a snapshot that does not parse or does not load is replaced
    by an empty project. *)
Lemma load_or_start_fallback ip dk ms content :
  json_load content ≫= dict_to_project = None →
  load_or_start ip dk ms (Some content) = make_empty_project ip dk ms CATEGORIES.
Proof. intros Hbad. unfold load_or_start. by rewrite Hbad. Qed.

(** [reload] has no such fallback: the exception of [json.load] or of
    [dict_to_project] leaves the callback and the state is what it was. *)
Lemma reload_raises w content :
  disk w !! save_path (app w) = Some content →
  json_load content ≫= dict_to_project = None →
  reload w = (None, w).
Proof.
  intros Hfile Hbad. unfold reload.
  rewrite bind_get_app. unfold bind at 1, read_file. rewrite Hfile.
  rewrite bind_liftO. destruct (json_load content) as [j|]; [| done].
  cbn [mbind option_bind] in Hbad. by rewrite bind_liftO, Hbad.
Qed.

(** C2, at a snapshot file that holds the text [{]: the application started
    on it holds the empty project, but [reload] on it raises and keeps the
    project at hand, with its center and its measurements. *)
Theorem reload_malformed_raises :
  (∃ w, DigitizerApp__init__ "plate.jpg" "right" false (disk sample_world)
        = Some (Some tt, w) ∧
        project (app w)
        = make_empty_project "plate.jpg" "right"
            (default [] (DIAGRAMS_months "right")) CATEGORIES) ∧
  reload sample_world = (None, sample_world) ∧
  center_xy (project (app (reload sample_world).2)) = Some (10, 20)%R ∧
  cell (project (app (reload sample_world).2)) "1854-04" "preventable_disease"
  = Some (Some sample_click).
Proof.
  split.
  - eexists. split; reflexivity.
  - rewrite (reload_raises sample_world (FRaw "{")) by reflexivity.
    by repeat split.
Qed.

(** ** CSV export *)

Lemma elem_of_cell_keys p m c :
  (m, c) ∈ cell_keys p ↔ m ∈ months p ∧ c ∈ categories p.
Proof.
  unfold cell_keys. rewrite list_elem_of_bind. split.
  - intros (m' & Hin & Hm). apply list_elem_of_bind in Hin as (c' & Hin & Hc).
    apply list_elem_of_ret in Hin as [= -> ->]. done.
  - intros [Hm Hc]. exists m. split; [| done].
    apply list_elem_of_bind. exists c. split; [| done].
    by apply list_elem_of_ret.
Qed.

(** *** Squares of floats *)

Lemma FLOAT_UNDERFLOW_small : (0 < FLOAT_UNDERFLOW < 1)%R.
Proof.
  unfold FLOAT_UNDERFLOW.
  assert (1 < 2 ^ 1075)%R as Hbig by (apply Rlt_pow_R1; [lra | lia]).
  split; [apply Rinv_0_lt_compat; lra |].
  rewrite <- Rinv_1. apply Rinv_lt_contravar; lra.
Qed.

Lemma FLOAT_OVERFLOW_large : (4 < FLOAT_OVERFLOW)%R.
Proof.
  unfold FLOAT_OVERFLOW.
  replace 1024 with (54 + 970) by reflexivity. rewrite pow_add.
  assert (1 <= 2 ^ 970)%R as Hlow by (apply pow_R1_Rle; lra).
  assert (2 ^ 3 <= 2 ^ 54)%R as Hhigh by (apply Rle_pow; [lra | lia]).
  assert (2 ^ 3 = 8)%R as Height by (cbn [pow]; lra).
  nra.
Qed.

Lemma float_square_ordinary (x : R) :
  (FLOAT_UNDERFLOW < x ^ 2 < FLOAT_OVERFLOW)%R →
  float_square x = Some (x ^ 2)%R.
Proof.
  intros [Hlow Hhigh]. unfold float_square.
  destruct (Rle_dec FLOAT_OVERFLOW (x ^ 2)); [lra |].
  destruct (Rle_dec (x ^ 2) FLOAT_UNDERFLOW); [lra | done].
Qed.

Lemma float_square_Some (x a : R) :
  float_square x = Some a →
  (x ^ 2 < FLOAT_OVERFLOW)%R ∧ (0 <= a)%R ∧
  ((FLOAT_UNDERFLOW < x ^ 2)%R ∧ a = (x ^ 2)%R
   ∨ (x ^ 2 <= FLOAT_UNDERFLOW)%R ∧ a = 0%R).
Proof.
  unfold float_square.
  destruct (Rle_dec FLOAT_OVERFLOW (x ^ 2)); [done |].
  destruct (Rle_dec (x ^ 2) FLOAT_UNDERFLOW); intros [= <-].
  - split; [lra |]. split; [lra |]. by right.
  - split; [lra |]. split; [apply pow2_ge_0 |]. left. split; [lra | done].
Qed.

Lemma float_square_None (x : R) :
  float_square x = None ↔ (FLOAT_OVERFLOW <= x ^ 2)%R.
Proof.
  unfold float_square. destruct (Rle_dec FLOAT_OVERFLOW (x ^ 2)).
  - done.
  - destruct (Rle_dec (x ^ 2) FLOAT_UNDERFLOW); split; (done || lra).
Qed.

(** *** The two passes of the export *)

Lemma collect_areas_spec p keys acc :
  (∀ mc, mc ∈ keys → is_Some (cell p mc.1 mc.2)) →
  (∀ mc meas, mc ∈ keys → cell p mc.1 mc.2 = Some (Some meas) →
     is_missing meas = false → is_Some (float_square (radius_px meas))) →
  collect_areas p keys acc = Some (acc ++ omap (measured_area p) keys)%list.
Proof.
  revert acc. induction keys as [|[m c] keys IH]; intros acc Hall Hfit.
  - cbn. by rewrite app_nil_r.
  - destruct (Hall (m, c)) as [v Hv]; [by left |]. cbn [fst snd] in Hv.
    assert (∀ mc, mc ∈ keys → is_Some (cell p mc.1 mc.2)) as Hrest.
    { intros mc Hmc. apply Hall. by right. }
    assert (∀ mc meas, mc ∈ keys → cell p mc.1 mc.2 = Some (Some meas) →
              is_missing meas = false →
              is_Some (float_square (radius_px meas))) as Hfrest.
    { intros mc meas Hmc. apply Hfit. by right. }
    assert (omap (measured_area p) ((m, c) :: keys)
            = match measured_area p (m, c) with
              | Some a => a :: omap (measured_area p) keys
              | None => omap (measured_area p) keys
              end) as -> by reflexivity.
    unfold measured_area at 1. cbn [collect_areas fst snd].
    rewrite Hv. cbn [mbind option_bind].
    destruct v as [meas|]; [| by rewrite (IH _ Hrest Hfrest)].
    destruct (is_missing meas) eqn:Hmiss; [by rewrite (IH _ Hrest Hfrest) |].
    destruct (Hfit (m, c) meas) as [a Ha]; [by left | done | done |].
    rewrite Ha. cbn [mbind option_bind]. rewrite (IH _ Hrest Hfrest).
    by rewrite <- app_assoc.
Qed.

Lemma collect_areas_Some p keys acc areas :
  collect_areas p keys acc = Some areas →
  ∀ mc meas, mc ∈ keys → cell p mc.1 mc.2 = Some (Some meas) →
    is_missing meas = false → is_Some (float_square (radius_px meas)).
Proof.
  revert acc. induction keys as [|[m c] keys IH]; intros acc;
    cbn [collect_areas].
  - by intros _ mc meas ?%not_elem_of_nil.
  - destruct (cell p m c) as [v|] eqn:Hv; cbn [mbind option_bind]; [| done].
    intros Hcollect mc meas [->|Hmc]%elem_of_cons.
    + cbn [fst snd]. rewrite Hv. intros [= ->] Hmiss.
      rewrite Hmiss in Hcollect.
      by destruct (float_square (radius_px meas)); [eauto |].
    + destruct v as [meas0|]; [destruct (is_missing meas0) |];
        try (by eapply IH).
      destruct (float_square (radius_px meas0));
        cbn [mbind option_bind] in Hcollect; [by eapply IH | done].
Qed.

Lemma csv_row_is_Some m c v max_area :
  (∀ meas, v = Some meas → is_missing meas = false →
           is_Some (float_square (radius_px meas))) →
  is_Some (csv_row m c v max_area).
Proof.
  intros Hfit. destruct v as [meas|]; [| by eexists]. unfold csv_row.
  destruct (is_missing meas) eqn:Hmiss.
  - cbn [mbind option_bind]. destruct (click_xy meas) as [[x y]|]; by eexists.
  - destruct (Hfit meas eq_refl Hmiss) as [a ->]. cbn [mbind option_bind].
    destruct (click_xy meas) as [[x y]|]; by eexists.
Qed.

Lemma write_rows_spec p keys max_area lines :
  (∀ mc, mc ∈ keys → is_Some (cell p mc.1 mc.2)) →
  (∀ mc meas, mc ∈ keys → cell p mc.1 mc.2 = Some (Some meas) →
     is_missing meas = false → is_Some (float_square (radius_px meas))) →
  write_rows p keys max_area lines
  = ((lines ++ map (csv_line_of p max_area) keys)%list, true).
Proof.
  revert lines. induction keys as [|[m c] keys IH]; intros lines Hall Hfit.
  - cbn. by rewrite app_nil_r.
  - cbn [write_rows map]. unfold csv_line_of at 1. cbn [fst snd].
    destruct (Hall (m, c)) as [v Hv]; [by left |]. cbn [fst snd] in Hv.
    rewrite Hv. cbn [default from_option Datatypes.id].
    destruct (csv_row_is_Some m c v max_area) as [line ->].
    { intros meas -> Hmiss. by apply (Hfit (m, c) meas); [left | |]. }
    cbn [default from_option Datatypes.id]. rewrite IH.
    + by rewrite <- app_assoc.
    + intros mc Hmc. apply Hall. by right.
    + intros mc meas Hmc. apply Hfit. by right.
Qed.

Lemma squares_fit_keys p :
  squares_fit p ↔
  ∀ mc meas, mc ∈ cell_keys p → cell p mc.1 mc.2 = Some (Some meas) →
    is_missing meas = false → is_Some (float_square (radius_px meas)).
Proof.
  split.
  - intros Hfit [m c] meas [Hm Hc]%elem_of_cell_keys. by apply Hfit.
  - intros Hfit m c meas Hm Hc. apply (Hfit (m, c)). by apply elem_of_cell_keys.
Qed.

Lemma foldl_Rmax_spec (x : R) (xs : list R) :
  (foldl Rmax x xs ∈ x :: xs) ∧
  ∀ y, y ∈ x :: xs → (y <= foldl Rmax x xs)%R.
Proof.
  revert x. induction xs as [|z xs IH]; intros x; cbn [foldl].
  - split; [by left |]. intros y ->%list_elem_of_singleton. lra.
  - destruct (IH (Rmax x z)) as [Hin Hub]. split.
    + apply elem_of_cons in Hin as [->|Hin].
      * apply Rmax_case; [by left | right; by left].
      * by do 2 right.
    + intros y Hy.
      assert (Rmax x z <= foldl Rmax (Rmax x z) xs)%R as Hm
        by (apply Hub; by left).
      pose proof (Rbasic_fun.Rmax_l x z). pose proof (Rbasic_fun.Rmax_r x z).
      apply elem_of_cons in Hy as [->|[->|Hy]%elem_of_cons]; [lra | lra |].
      apply Hub. by right.
Qed.

(** Where the export writes its file. *)
Lemma export_csv_file w center :
  center_xy (project (app w)) = Some center →
  has_all_cells (project (app w)) → squares_fit (project (app w)) →
  let p := project (app w) in
  disk (export_csv w).2 !! csv_path (app w)
  = Some (FCsv (csv_header ::
                map (csv_line_of p (max_area_of (measured_areas p)))
                    (cell_keys p))).
Proof.
  intros Hcenter Hall Hfit. cbv zeta.
  assert (∀ mc, mc ∈ cell_keys (project (app w)) →
                is_Some (cell (project (app w)) mc.1 mc.2)) as Hkeys.
  { intros [m c] [Hm Hc]%elem_of_cell_keys. by apply Hall. }
  pose proof (proj1 (squares_fit_keys _) Hfit) as Hfk.
  unfold export_csv. rewrite bind_get_app, Hcenter, bind_liftO.
  rewrite (collect_areas_spec _ _ [] Hkeys Hfk). cbn [List.app].
  rewrite (write_rows_spec _ _ _ _ Hkeys Hfk).
  unfold bind at 1, write_file. cbn [ret]. unfold bind, ret, refresh_ui, reading.
  cbn [app]. destruct (_ ≫= _); cbn [snd disk]; by rewrite lookup_insert_eq.
Qed.

(** A square that overflows stops the export before the file is opened. *)
Lemma export_csv_overflow w center :
  center_xy (project (app w)) = Some center →
  ¬ squares_fit (project (app w)) →
  export_csv w = (None, w).
Proof.
  intros Hcenter Hnofit. unfold export_csv.
  rewrite bind_get_app, Hcenter, bind_liftO.
  destruct (collect_areas _ _ _) as [areas|] eqn:Hcollect; [| done].
  destruct Hnofit. apply (proj2 (squares_fit_keys _)).
  by apply (collect_areas_Some _ _ _ _ Hcollect).
Qed.

Lemma max_area_of_spec (areas : list R) :
  (areas = [] → max_area_of areas = 1%R) ∧
  (areas ≠ [] →
   max_area_of areas ∈ areas ∧ ∀ a, a ∈ areas → (a <= max_area_of areas)%R).
Proof.
  destruct areas as [|x xs]; [done |]. split; [done |]. intros _.
  apply foldl_Rmax_spec.
Qed.

(** C5, as the code has it. Without a center the export writes nothing.
    With a center, on a table that has every cell, the export raises
    before it opens the file when the square of some measured, non-missing
    radius overflows; otherwise the file holds the header of the eight
    columns and then one row per (month, category) pair in month-major
    order. The normaliser is the largest squared radius among the
    measured, non-missing cells (1 when there is none). The row of a cell
    that holds a measurement has the eight columns month, category,
    is_missing, radius_px, area_rel (the squared radius, 0 for a missing
    cell and when the square underflows), area_norm (area_rel divided by
    the normaliser, 0 when the normaliser is 0), click_x and click_y
    (empty without a click); the row of an unmeasured cell begins with
    month and category. *)
Theorem export_csv_rows (w : World) :
  has_all_cells (project (app w)) →
  let p := project (app w) in
  let areas := measured_areas p in
  let max_area := max_area_of areas in
  (center_xy p = None → export_csv w = (Some tt, w)) ∧
  (is_Some (center_xy p) → ¬ squares_fit p → export_csv w = (None, w)) ∧
  (is_Some (center_xy p) → squares_fit p →
   disk (export_csv w).2 !! csv_path (app w)
   = Some (FCsv (csv_header :: map (csv_line_of p max_area) (cell_keys p)))) ∧
  (areas = [] → max_area = 1%R) ∧
  (areas ≠ [] → max_area ∈ areas ∧ ∀ a, a ∈ areas → (a <= max_area)%R) ∧
  (∀ m c meas area_rel,
     cell p m c = Some (Some meas) →
     (if is_missing meas then Some 0%R else float_square (radius_px meas))
     = Some area_rel →
     let area_norm := if decide (max_area = 0%R) then 0%R
                      else (area_rel / max_area)%R in
     csv_line_of p max_area (m, c)
     = [CsvStr m; CsvStr c; CsvInt (if is_missing meas then 1 else 0);
        CsvFixed 6 (radius_px meas); CsvFixed 6 area_rel; CsvFixed 6 area_norm;
        from_option (λ xy, CsvFixed 3 xy.1) (CsvStr "") (click_xy meas);
        from_option (λ xy, CsvFixed 3 xy.2) (CsvStr "") (click_xy meas)]) ∧
  (∀ x, (float_square x = None ↔ (FLOAT_OVERFLOW <= x ^ 2)%R) ∧
        ((FLOAT_UNDERFLOW < x ^ 2 < FLOAT_OVERFLOW)%R →
         float_square x = Some (x ^ 2)%R) ∧
        ((x ^ 2 <= FLOAT_UNDERFLOW)%R → float_square x = Some 0%R)) ∧
  (∀ m c, cell p m c = Some None →
     take 2 (csv_line_of p max_area (m, c)) = [CsvStr m; CsvStr c]).
Proof.
  intros Hall p areas max_area.
  split; [| split; [| split; [| split; [| split; [| split; [| split]]]]]].
  - intros Hnone. unfold export_csv. rewrite bind_get_app.
    fold p. by rewrite Hnone.
  - intros [center Hcenter]. by apply (export_csv_overflow w center).
  - intros [center Hcenter]. by apply (export_csv_file w center).
  - apply max_area_of_spec.
  - apply max_area_of_spec.
  - intros m c meas area_rel Hcell Harea. unfold csv_line_of, csv_row.
    cbn [fst snd]. rewrite Hcell. cbn [default from_option Datatypes.id].
    rewrite Harea. cbn [mbind option_bind].
    by destruct (click_xy meas) as [[x y]|].
  - intros x. split; [apply float_square_None |]. split.
    + apply float_square_ordinary.
    + intros Hsmall. unfold float_square.
      pose proof FLOAT_UNDERFLOW_small. pose proof FLOAT_OVERFLOW_large.
      destruct (Rle_dec FLOAT_OVERFLOW (x ^ 2)); [lra |].
      by destruct (Rle_dec (x ^ 2) FLOAT_UNDERFLOW).
  - intros m c Hcell. unfold csv_line_of, csv_row. cbn [fst snd].
    by rewrite Hcell.
Qed.

Lemma csv_project_has_all : has_all_cells csv_project.
Proof.
  intros m c Hm Hc. unfold cell. cbn [data csv_project].
  destruct (decide (m = "1854-04")) as [->|Hne].
  - rewrite lookup_insert_eq. cbn [mbind option_bind].
    rewrite !lookup_insert. repeat case_decide; [eauto | eauto |].
    unfold empty_row. rewrite (foldl_insert_lookup (λ _, None)).
    rewrite decide_True by done. eauto.
  - rewrite lookup_insert_ne by done.
    by apply (has_all_cells_make_empty_project "plate.jpg" "right").
Defined.

Lemma float_square_1 : float_square 1 = Some (1 ^ 2)%R.
Proof.
  pose proof FLOAT_UNDERFLOW_small. pose proof FLOAT_OVERFLOW_large.
  apply float_square_ordinary. lra.
Defined.

Lemma float_square_2 : float_square 2 = Some (2 ^ 2)%R.
Proof.
  pose proof FLOAT_UNDERFLOW_small. pose proof FLOAT_OVERFLOW_large.
  apply float_square_ordinary. lra.
Defined.

Lemma csv_project_squares_fit : squares_fit csv_project.
Proof.
  intros m c meas Hm Hc. unfold cell. cbn [data csv_project].
  destruct (decide (m = "1854-04")) as [->|Hne].
  - rewrite lookup_insert_eq. cbn [mbind option_bind].
    rewrite !lookup_insert. repeat case_decide.
    + intros [= <-] _. cbn [radius_px]. rewrite float_square_1. by eexists.
    + intros [= <-] _. cbn [radius_px]. rewrite float_square_2. by eexists.
    + unfold empty_row. rewrite (foldl_insert_lookup (λ _, None)).
      by case_decide.
  - rewrite lookup_insert_ne by done.
    unfold make_empty_project, empty_row. cbn [data].
    rewrite (foldl_insert_lookup (λ _, foldl _ ∅ CATEGORIES)).
    case_decide; cbn [mbind option_bind]; [| by rewrite lookup_empty].
    rewrite (foldl_insert_lookup (λ _, None)).
    case_decide; [done | by rewrite lookup_empty].
Defined.

Lemma export_csv_rows_witness :
  let p := csv_project in
  let max_area := max_area_of (measured_areas p) in
  disk (export_csv csv_world).2 !! "output_data_right.csv"
  = Some (FCsv (csv_header :: map (csv_line_of p max_area) (cell_keys p))) ∧
  max_area ∈ measured_areas p.
Proof.
  destruct (export_csv_rows csv_world csv_project_has_all)
    as (_ & _ & Hfile & _ & Hmax & _).
  split; [apply Hfile; [by eexists | exact csv_project_squares_fit] |].
  apply Hmax. cbn [project app csv_world].
  assert (measured_areas csv_project
          = omap (λ o : option R, o) [float_square 1%R; float_square 2%R])
    as -> by (with_strategy opaque [float_square] reflexivity).
  by rewrite float_square_1.
Defined.

(** C5 as the specification words it fails: the export of a project whose
    only measurements are two recorded clicks of radius 1 and 2 gives the
    first one [area_norm] 1/4, where min-max normalisation over the areas 1
    and 4 gives 0. *)
Lemma export_csv_not_minmax :
  ∃ lines,
    disk (export_csv csv_world).2 !! "output_data_right.csv"
    = Some (FCsv lines) ∧
    ¬ area_norm_is_minmax csv_project lines.
Proof.
  eexists. split.
  - apply (export_csv_file csv_world (0, 0)%R eq_refl csv_project_has_all
             csv_project_squares_fit).
  - intros Hclaim.
    assert (Rmax (1 ^ 2) (2 ^ 2) = 4%R) as Hmax
      by (unfold Rmax; destruct (Rle_dec _ _); lra).
    assert (Rmin (1 ^ 2) (2 ^ 2) = 1%R) as Hmin
      by (unfold Rmin; destruct (Rle_dec _ _); lra).
    pose (n := if decide (Rmax (1 ^ 2) (2 ^ 2) = 0%R) then 0%R
               else (1 ^ 2 / Rmax (1 ^ 2) (2 ^ 2))%R).
    assert (measured_areas csv_project = [(1 ^ 2)%R; (2 ^ 2)%R]) as Hareas.
    { transitivity (omap (λ o : option R, o) [float_square 1%R; float_square 2%R]);
        [with_strategy opaque [float_square] reflexivity |].
      by rewrite float_square_1, float_square_2. }
    assert (csv_line_of csv_project (max_area_of (measured_areas csv_project))
                        ("1854-04", "preventable_disease")
            = [CsvStr "1854-04"; CsvStr "preventable_disease"; CsvInt 0;
               CsvFixed 6 1;
               CsvFixed 6 (1 ^ 2); CsvFixed 6 n; CsvFixed 3 1; CsvFixed 3 0])
      as Hrow.
    { rewrite Hareas.
      transitivity
        (default []
           (a ← float_square 1%R;
            Some [CsvStr "1854-04"; CsvStr "preventable_disease"; CsvInt 0;
                  CsvFixed 6 1; CsvFixed 6 a;
                  CsvFixed 6 (if decide (Rmax (1 ^ 2) (2 ^ 2) = 0%R) then 0%R
                              else (a / Rmax (1 ^ 2) (2 ^ 2))%R);
                  CsvFixed 3 1; CsvFixed 3 0]));
        [with_strategy opaque [float_square] reflexivity |].
      by rewrite float_square_1. }
    specialize (Hclaim _ (1 ^ 2)%R n (list_elem_of_further _ _ _
                                         (list_elem_of_here _ _))).
    cbn [project app csv_world] in Hclaim. rewrite Hrow, Hareas in Hclaim.
    specialize (Hclaim eq_refl eq_refl).
    unfold minmax_norm, n in Hclaim. cbn [foldl] in Hclaim.
    rewrite Hmax, Hmin in Hclaim.
    rewrite decide_False in Hclaim by lra. lra.
Qed.

(** ** The re-plotter *)

Lemma elem_of_map {A B} (f : A → B) (l : list A) (y : B) :
  y ∈ map f l ↔ ∃ x, y = f x ∧ x ∈ l.
Proof.
  rewrite list_elem_of_In, in_map_iff. split.
  - intros (x & <- & Hx). exists x. by rewrite list_elem_of_In.
  - intros (x & -> & Hx). exists x. by rewrite <- list_elem_of_In.
Qed.

Lemma elem_of_concat {A} (ls : list (list A)) (x : A) :
  x ∈ concat ls ↔ ∃ l, l ∈ ls ∧ x ∈ l.
Proof.
  rewrite list_elem_of_In, in_concat. split.
  - intros (l & Hl & Hx). exists l. by rewrite !list_elem_of_In.
  - intros (l & Hl & Hx). exists l. by rewrite <- !list_elem_of_In.
Qed.

Lemma cumsum_row_lookup (acc : R) (row : list R) (k : nat) (s : R) :
  PlotRose.cumsum_row acc row !! k = Some s →
  s = (acc + PlotRose.stacked_area row k)%R.
Proof.
  revert acc k. induction row as [|a row IH]; intros acc k; [done |].
  destruct k as [|k]; cbn.
  - intros [= <-]. unfold PlotRose.stacked_area. cbn. rewrite take_0. cbn. lra.
  - intros Hk. rewrite (IH _ _ Hk). unfold PlotRose.stacked_area. cbn. lra.
Qed.

Lemma cumsum_row_nonneg (acc : R) (row : list R) :
  (0 <= acc)%R → (∀ a, a ∈ row → (0 <= a)%R) →
  ∀ s, s ∈ PlotRose.cumsum_row acc row → (0 <= s)%R.
Proof.
  revert acc. induction row as [|a row IH]; intros acc Hacc Hrow s;
    [by intros ?%not_elem_of_nil |].
  assert (0 <= a)%R by (apply Hrow; by left).
  cbn. intros [->|Hs]%elem_of_cons; [lra |].
  apply (IH (acc + a)%R); [lra | | done].
  intros b Hb. apply Hrow. by right.
Qed.

Lemma table_max_upper (table : list (list R)) (row : list R) (a : R) :
  row ∈ table → a ∈ row → (a <= PlotRose.table_max table)%R.
Proof.
  intros Hrow Ha. unfold PlotRose.table_max.
  assert (a ∈ concat table) as Hin by (apply elem_of_concat; eauto).
  destruct (concat table) as [|x xs]; [by apply not_elem_of_nil in Hin |].
  by apply foldl_Rmax_spec.
Qed.

(** The conversion of a stacked area below the global maximum. *)
Lemma radius_of_area (a global_max : R) :
  (0 <= a <= global_max)%R →
  let g := PlotRose.effective_max global_max in
  let r := sqrt (a / g) in
  (0 <= r <= 1)%R ∧ (r * r * g = a)%R.
Proof.
  intros [Ha Hle]. cbv zeta. unfold PlotRose.effective_max.
  destruct (Rle_dec global_max 0) as [Hgm|Hgm].
  - assert (a = 0%R) as -> by lra.
    replace (0 / 1)%R with 0%R by lra. rewrite sqrt_0. lra.
  - assert (0 < global_max)%R as Hpos by lra.
    assert (0 <= a / global_max <= 1)%R as [Hq0 Hq1].
    { split.
      - apply Rmult_le_pos; [lra |]. left. by apply Rinv_0_lt_compat.
      - apply (Rmult_le_reg_r global_max); [lra |]. field_simplify; lra. }
    split; [split; [apply sqrt_pos |] |].
    + rewrite <- sqrt_1. by apply sqrt_le_1_alt.
    + rewrite sqrt_sqrt by done. field. lra.
Qed.

Lemma lookup_map {A B} (f : A → B) (l : list A) (i : nat) :
  map f l !! i = f <$> l !! i.
Proof.
  revert i. induction l as [|x l IH]; intros [|i]; cbn; [done .. |]. apply IH.
Qed.

Lemma stacked_area_bounds (areaL areaR table : list (list R)) crow s :
  PlotRose.area_table_ok table →
  table = areaL ∨ table = areaR →
  crow ∈ PlotRose.cumsum (reverse table) → s ∈ crow →
  (0 <= s <= PlotRose.main_global_max areaL areaR)%R.
Proof.
  intros [_ Hrows] Hwhich Hcrow Hs. unfold PlotRose.cumsum in Hcrow.
  apply elem_of_map in Hcrow as (row & -> & Hrow).
  rewrite elem_of_reverse in Hrow. split.
  - apply (cumsum_row_nonneg 0 row); [lra | | done].
    by apply (Hrows row Hrow).
  - assert (s <= PlotRose.table_max (PlotRose.cumsum table))%R as Hle.
    { apply (table_max_upper _ (PlotRose.cumsum_row 0 row)); [| done].
      apply elem_of_map. eauto. }
    unfold PlotRose.main_global_max.
    pose proof (Rbasic_fun.Rmax_l
                  (PlotRose.table_max (PlotRose.cumsum areaL))
                  (PlotRose.table_max (PlotRose.cumsum areaR))).
    pose proof (Rbasic_fun.Rmax_r
                  (PlotRose.table_max (PlotRose.cumsum areaL))
                  (PlotRose.table_max (PlotRose.cumsum areaR))).
    destruct Hwhich as [-> | ->]; lra.
Qed.

Lemma r_cum_bounds (areaL areaR table : list (list R)) rrow r :
  PlotRose.area_table_ok table →
  table = areaL ∨ table = areaR →
  rrow ∈ PlotRose.r_cum table (PlotRose.main_global_max areaL areaR) →
  r ∈ rrow → (0 <= r <= 1)%R.
Proof.
  intros Hok Hwhich Hrrow Hr. unfold PlotRose.r_cum in Hrrow.
  apply elem_of_map in Hrrow as (crow & -> & Hcrow).
  apply elem_of_map in Hr as (s & -> & Hs).
  apply radius_of_area. by eapply stacked_area_bounds.
Qed.

(** The top of every bar is an entry of [r_cum] (or the filler 0). *)
Lemma stack_bars_tops rc cats k prev cat series b h :
  (cat, series) ∈ PlotRose.stack_bars rc cats k prev →
  (b, h) ∈ series →
  ∃ row k', row ∈ rc ∧ (b + h = nth k' row 0)%R.
Proof.
  revert k prev. induction cats as [|c0 cats IH]; intros k prev;
    [by intros ?%not_elem_of_nil |].
  cbn [PlotRose.stack_bars]. intros [[= -> ->]|Hin]%elem_of_cons Hbar.
  - unfold PlotRose.bars_of in Hbar.
    apply elem_of_zip_with in Hbar as (b0 & o & [= -> ->] & _ & Ho).
    apply elem_of_map in Ho as (row & -> & Hrow).
    exists row, k. split; [done | lra].
  - by eapply IH.
Qed.

Lemma length_cumsum_row (acc : R) (row : list R) :
  length (PlotRose.cumsum_row acc row) = length row.
Proof.
  revert acc. induction row as [|a row IH]; intros acc; [done |].
  cbn [PlotRose.cumsum_row length]. by rewrite IH.
Qed.

Lemma length_r_cum (table : list (list R)) (gm : R) :
  length (PlotRose.r_cum table gm) = length table.
Proof.
  unfold PlotRose.r_cum, PlotRose.cumsum.
  by rewrite !length_map, length_reverse.
Qed.

Lemma bars_of_top (prev outer : list R) (i : nat) (o : R) :
  length prev = length outer → outer !! i = Some o →
  ∃ b h, PlotRose.bars_of prev outer !! i = Some (b, h) ∧ (b + h = o)%R.
Proof.
  intros Hlen Ho.
  destruct (lookup_lt_is_Some_2 prev i) as [b Hb].
  { rewrite Hlen. by eapply lookup_lt_Some. }
  exists b, (o - b)%R. split; [| lra].
  apply lookup_zip_with_Some. by exists b, o.
Qed.

Lemma column_lookup (rc : list (list R)) (k i : nat) (rrow : list R) (r : R) :
  rc !! i = Some rrow → rrow !! k = Some r →
  map (λ row, nth k row 0%R) rc !! i = Some r.
Proof.
  intros Hrrow Hr. rewrite lookup_map, Hrrow. cbn [fmap option_fmap option_map].
  by rewrite nth_lookup, Hr.
Qed.

(** C9. For two area tables as the pivot returns them, with [global_max]
    the larger of their two maximum stacked areas (1 in its place when it
    is not positive): [r_cum] has one row per month, in reversed order,
    and in it one radius per category; the radius for a month and a
    category is the square root of the area stacked up to that category
    divided by that maximum; it lies in [0, 1]; its square times the
    maximum is the stacked area. [draw_rose] draws one series of bars per
    category of [STACK_ORDER], each with one bar per month whose top is
    that radius, so the top of every bar lies in [0, 1]. *)
Theorem wedge_radii (areaL areaR : list (list R)) :
  PlotRose.area_table_ok areaL → PlotRose.area_table_ok areaR →
  let gm := PlotRose.main_global_max areaL areaR in
  let g := PlotRose.effective_max gm in
  gm = Rmax (PlotRose.table_max (PlotRose.cumsum areaL))
            (PlotRose.table_max (PlotRose.cumsum areaR)) ∧
  ((gm <= 0)%R → g = 1%R) ∧ ((0 < gm)%R → g = gm) ∧
  ∀ table, table = areaL ∨ table = areaR →
    length (PlotRose.r_cum table gm) = length table ∧
    (∀ i row,
       reverse table !! i = Some row →
       ∃ rrow,
         PlotRose.r_cum table gm !! i = Some rrow ∧
         length rrow = length PlotRose.STACK_ORDER ∧
         ∀ k, k < length PlotRose.STACK_ORDER →
           ∃ r, rrow !! k = Some r ∧
                r = sqrt (PlotRose.stacked_area row k / g)) ∧
    (∀ i k row rrow r,
       reverse table !! i = Some row →
       PlotRose.r_cum table gm !! i = Some rrow →
       rrow !! k = Some r →
       r = sqrt (PlotRose.stacked_area row k / g) ∧
       (0 <= r <= 1)%R ∧
       (r * r * g = PlotRose.stacked_area row k)%R) ∧
    (∃ bars, PlotRose.draw_rose table gm = Some bars ∧
       map fst bars = PlotRose.STACK_ORDER ∧
       (∀ k cat series,
          bars !! k = Some (cat, series) →
          length series = length table ∧
          ∀ i rrow r,
            PlotRose.r_cum table gm !! i = Some rrow → rrow !! k = Some r →
            ∃ b h, series !! i = Some (b, h) ∧ (b + h = r)%R) ∧
       ∀ cat series b h,
         (cat, series) ∈ bars → (b, h) ∈ series → (0 <= b + h <= 1)%R).
Proof.
  intros HokL HokR gm g. split; [done |].
  split; [| split].
  - intros Hle. unfold g, PlotRose.effective_max.
    by destruct (Rle_dec gm 0).
  - intros Hlt. unfold g, PlotRose.effective_max.
    destruct (Rle_dec gm 0); [lra | done].
  - intros table Hwhich.
    assert (PlotRose.area_table_ok table) as Hok
      by (by destruct Hwhich as [-> | ->]).
    assert (∀ i k row rrow r,
              reverse table !! i = Some row →
              PlotRose.r_cum table gm !! i = Some rrow →
              rrow !! k = Some r →
              r = sqrt (PlotRose.stacked_area row k / g) ∧
              (0 <= r <= 1)%R ∧
              (r * r * g = PlotRose.stacked_area row k)%R) as Hradius.
    { intros i k row rrow r Hrow Hrrow Hr.
      unfold PlotRose.r_cum, PlotRose.cumsum in Hrrow.
      rewrite !lookup_map, Hrow in Hrrow. injection Hrrow as <-.
      rewrite lookup_map in Hr.
      destruct (PlotRose.cumsum_row 0 row !! k) as [s|] eqn:Hs; [| done].
      injection Hr as <-.
      pose proof (cumsum_row_lookup _ _ _ _ Hs) as Hsum.
      assert (s = PlotRose.stacked_area row k) as -> by lra.
      split; [done |]. apply radius_of_area.
      apply (stacked_area_bounds areaL areaR table
               (PlotRose.cumsum_row 0 row)); [done | done | |].
      * apply elem_of_map. exists row. split; [done |].
        by eapply list_elem_of_lookup_2.
      * by eapply list_elem_of_lookup_2. }
    split; [apply length_r_cum |]. split; [| split; [exact Hradius |]].
    + intros i row Hrow.
      assert (length row = length PlotRose.STACK_ORDER) as Hlen.
      { destruct Hok as [_ Hrows]. apply Hrows.
        apply elem_of_reverse. by eapply list_elem_of_lookup_2. }
      exists (map (λ a, sqrt (a / PlotRose.effective_max gm))
                  (PlotRose.cumsum_row 0 row)).
      assert (PlotRose.r_cum table gm !! i
              = Some (map (λ a, sqrt (a / PlotRose.effective_max gm))
                          (PlotRose.cumsum_row 0 row))) as Hrrow.
      { unfold PlotRose.r_cum, PlotRose.cumsum.
        by rewrite !lookup_map, Hrow. }
      split; [done |].
      split; [by rewrite length_map, length_cumsum_row |].
      intros k Hk.
      destruct (lookup_lt_is_Some_2 (PlotRose.cumsum_row 0 row) k) as [s Hs].
      { rewrite length_cumsum_row, Hlen. done. }
      exists (sqrt (s / PlotRose.effective_max gm)).
      assert (map (λ a, sqrt (a / PlotRose.effective_max gm))
                  (PlotRose.cumsum_row 0 row) !! k
              = Some (sqrt (s / PlotRose.effective_max gm))) as Hr
        by (by rewrite lookup_map, Hs).
      split; [done |].
      by destruct (Hradius i k row _ _ Hrow Hrrow Hr) as [-> _].
    + unfold PlotRose.draw_rose.
      destruct Hok as [Hne Hrows].
      destruct (decide (length table = 0)) as [Hlen|_].
      { by apply length_zero_iff_nil in Hlen. }
      eexists. split; [reflexivity |]. split; [reflexivity |]. split.
      * intros k cat series Hbars.
        pose proof (length_r_cum table gm) as Hrc.
        destruct k as [|[|[|k]]]; cbn in Hbars; [| | | done];
          injection Hbars as <- <-.
        -- split.
           ++ unfold PlotRose.bars_of.
              rewrite length_zip_with, length_map, length_replicate. lia.
           ++ intros i rrow r Hrrow Hr. apply bars_of_top.
              ** by rewrite length_map, length_replicate.
              ** by eapply column_lookup.
        -- split.
           ++ unfold PlotRose.bars_of.
              rewrite length_zip_with, !length_map. lia.
           ++ intros i rrow r Hrrow Hr. apply bars_of_top.
              ** by rewrite !length_map.
              ** by eapply column_lookup.
        -- split.
           ++ unfold PlotRose.bars_of.
              rewrite length_zip_with, !length_map. lia.
           ++ intros i rrow r Hrrow Hr. apply bars_of_top.
              ** by rewrite !length_map.
              ** by eapply column_lookup.
      * intros cat series b h Hseries Hbar.
        destruct (stack_bars_tops _ _ _ _ _ _ _ _ Hseries Hbar)
          as (rrow & k' & Hrrow & ->).
        destruct (nth_in_or_default k' rrow 0%R) as [Hin | ->]; [| lra].
        apply (r_cum_bounds areaL areaR table rrow); [by split | done | done |].
        by apply list_elem_of_In.
Qed.

Ltac area_table_ok_tac :=
  split; [done |]; intros row Hrow;
  repeat (apply elem_of_cons in Hrow as [->|Hrow]);
  try (by apply not_elem_of_nil in Hrow);
  (split; [reflexivity |]; intros a Ha;
   repeat (apply elem_of_cons in Ha as [->|Ha]);
   try lra; by apply not_elem_of_nil in Ha).

Lemma sample_areaL_ok : PlotRose.area_table_ok sample_areaL.
Proof. area_table_ok_tac. Defined.

Lemma sample_areaR_ok : PlotRose.area_table_ok sample_areaR.
Proof. area_table_ok_tac. Defined.

Lemma wedge_radii_witness :
  let gm := PlotRose.main_global_max sample_areaL sample_areaR in
  length (PlotRose.r_cum sample_areaL gm) = 2 ∧
  (∃ bars, PlotRose.draw_rose sample_areaL gm = Some bars ∧
           map fst bars = PlotRose.STACK_ORDER) ∧
  ∀ i k row rrow r,
    reverse sample_areaL !! i = Some row →
    PlotRose.r_cum sample_areaL gm !! i = Some rrow →
    rrow !! k = Some r →
    r = sqrt (PlotRose.stacked_area row k / PlotRose.effective_max gm) ∧
    (0 <= r <= 1)%R.
Proof.
  destruct (wedge_radii sample_areaL sample_areaR
              sample_areaL_ok sample_areaR_ok) as (_ & _ & _ & Htables).
  destruct (Htables sample_areaL (or_introl eq_refl))
    as (Hlen & _ & Hradius & bars & Hdraw & Hcats & _).
  split; [exact Hlen |]. split; [by exists bars |].
  intros i k row rrow r Hrow Hrrow Hr.
  destruct (Hradius i k row rrow r Hrow Hrrow Hr) as (Heq & Hrange & _).
  by split.
Defined.

(** ** The states the application reaches are consistent *)












Lemma export_csv_app w : app (export_csv w).2 = app w.
Proof.
  unfold export_csv. rewrite bind_get_app.
  destruct (center_xy (project (app w))); [| done].
  rewrite bind_liftO. destruct (collect_areas _ _ _); [| done].
  destruct (write_rows _ _ _ _) as [lines completed].
  unfold bind, write_file, refresh_ui, reading. cbn [app].
  destruct completed; cbn [ret raise]; [| done].
  by destruct (_ ≫= _).
Qed.



(* ===================================================================== *)
(** * Part III: further properties of the code *)
(* ===================================================================== *)

#[local] Set Warnings "-clear-no-such-hyp".

(** ** Snapshots: when they exist and what loading keeps *)

Lemma cells_to_dict_Some p m cats acc out :
  cells_to_dict p m cats acc = Some out → ∀ c, c ∈ cats → is_Some (cell p m c).
Proof.
  revert acc. induction cats as [|c0 cs IH]; intros acc; cbn [cells_to_dict].
  - by intros _ c ?%not_elem_of_nil.
  - destruct (cell p m c0) as [v|] eqn:Hv; cbn [mbind option_bind]; [|done].
    intros Hout c [->|Hc]%elem_of_cons; [by rewrite Hv | by eapply IH].
Qed.

Lemma months_to_dict_Some p ms acc out :
  months_to_dict p ms acc = Some out →
  ∀ m c, m ∈ ms → c ∈ categories p → is_Some (cell p m c).
Proof.
  revert acc. induction ms as [|m0 ms IH]; intros acc; cbn [months_to_dict].
  - by intros _ m c ?%not_elem_of_nil.
  - destruct (cells_to_dict p m0 (categories p) []) as [inner|] eqn:Hin;
      cbn [mbind option_bind]; [|done].
    intros Hout m c [->|Hm]%elem_of_cons Hc.
    + by eapply cells_to_dict_Some.
    + by eapply IH.
Qed.

(** X1. [project_to_dict] returns a snapshot exactly for the projects that
    hold every cell of their month and category lists; for any other
    project it raises [KeyError]. *)
Theorem project_to_dict_defined (p : ProjectData) :
  is_Some (project_to_dict p) ↔ has_all_cells p.
Proof.
  split; [| apply project_to_dict_total].
  intros [j Hj] m c Hm Hc. revert Hj. unfold project_to_dict.
  destruct (months_to_dict p (months p) []) as [out|] eqn:Hout; [|done].
  intros _. by eapply months_to_dict_Some.
Qed.

Lemma load_cells_dom d m cats row row' :
  load_cells d m cats row = Some row' →
  dom row' = dom row ∪ list_to_set cats.
Proof.
  revert row. induction cats as [|c0 cs IH]; intros row; cbn [load_cells].
  - intros [= <-]. set_solver.
  - destruct (cell_json d m c0) as [v|]; cbn [mbind option_bind]; [|done].
    destruct (json_to_meas v) as [meas|]; cbn [mbind option_bind]; [|done].
    intros Hload. rewrite (IH _ Hload), dom_insert_L. set_solver.
Qed.

Lemma load_months_dom d ms cats acc data' :
  load_months d ms cats acc = Some data' →
  dom data' = dom acc ∪ list_to_set ms ∧
  ∀ m row, data' !! m = Some row →
    acc !! m = Some row ∨ dom row = list_to_set cats.
Proof.
  revert acc. induction ms as [|m0 ms IH]; intros acc; cbn [load_months].
  - intros [= <-]. split; [set_solver | eauto].
  - destruct (load_cells d m0 cats ∅) as [row0|] eqn:Hrow0;
      cbn [mbind option_bind]; [|done].
    intros Hload. destruct (IH _ Hload) as [Hdom Hrows]. split.
    + rewrite Hdom, dom_insert_L. set_solver.
    + intros m row Hrow. destruct (Hrows m row Hrow) as [Hacc|Hd]; [|by right].
      destruct (decide (m = m0)) as [->|Hne].
      * rewrite lookup_insert_eq in Hacc. injection Hacc as <-. right.
        rewrite (load_cells_dom _ _ _ _ _ Hrow0). set_solver.
      * rewrite lookup_insert_ne in Hacc by done. by left.
Qed.

Lemma exact_cells_dict_to_project j p :
  dict_to_project j = Some p → exact_cells p.
Proof.
  unfold dict_to_project. intros Hload.
  repeat match type of Hload with
  | (?o ≫= _) = Some _ =>
      let x := fresh "x" in
      destruct o as [x|] eqn:?; cbn [mbind option_bind] in Hload; [|done]
  end.
  injection Hload as <-. unfold exact_cells. cbn [data months categories].
  match goal with
  | H : load_months _ _ _ _ = Some _ |- _ =>
      destruct (load_months_dom _ _ _ _ _ H) as [Hdom Hrows]
  end.
  split; [rewrite Hdom; set_solver |].
  intros m row Hrow. destruct (Hrows m row Hrow) as [Hacc|Hd]; [|done].
  by rewrite lookup_empty in Hacc.
Qed.

Lemma snapshot_loads p j :
  project_to_dict p = Some j → dict_to_project j = Some (listed p).
Proof.
  intros Hj.
  assert (has_all_cells p) as Hall.
  { intros m c Hm Hc. revert Hj. unfold project_to_dict.
    destruct (months_to_dict p (months p) []) as [out|] eqn:Hout; [|done].
    intros _. by eapply months_to_dict_Some. }
  assert (∃ d, j = JObj d) as [d ->].
  { revert Hj. unfold project_to_dict.
    destruct (months_to_dict p (months p) []); [|done]. intros [= <-]. eauto. }
  pose (g := λ m c, default None (cell p m c)).
  assert (load_months d (months p) (categories p) ∅ = Some (data (listed p)))
    as Hload.
  { rewrite (load_months_fold d _ _ ∅ g); [done |].
    intros m c Hm Hc. rewrite (cell_json_project_to_dict p d m c Hj Hm Hc).
    unfold g. by destruct (Hall m c Hm Hc) as [v ->]. }
  revert Hj. unfold project_to_dict.
  destruct (months_to_dict p (months p) []) as [out|]; [|done].
  intros [= <-]. unfold dict_to_project.
  match type of Hload with load_months ?l _ _ _ = _ => set (D := l) in * end.
  cbn [as_obj mbind option_bind].
  assert (dict_get "image_path" D = Some (JStr (image_path p))) as ->
    by reflexivity.
  assert (dict_get "diagram_key" D = Some (JStr (diagram_key p))) as ->
    by reflexivity.
  assert (dict_get "center_xy" D ≫= as_center = Some (center_xy p)) as ->
    by (by destruct (center_xy p) as [[x y]|]).
  assert (dict_get "months" D = Some (JList (JStr <$> months p))) as ->
    by reflexivity.
  assert (dict_get "categories" D = Some (JList (JStr <$> categories p))) as ->
    by reflexivity.
  cbn [as_str as_str_list mbind option_bind].
  rewrite !mapM_as_str. cbn [mbind option_bind].
  rewrite Hload. cbn [mbind option_bind]. reflexivity.
Qed.

Lemma cell_listed p m c :
  cell (listed p) m c
  = if decide (m ∈ months p)
    then if decide (c ∈ categories p) then Some (default None (cell p m c))
         else None
    else None.
Proof.
  unfold cell at 1, listed, with_data. cbn [data].
  rewrite (foldl_insert_lookup
             (λ m, foldl (λ row c, <[c := default None (cell p m c)]> row) ∅
                         (categories p))).
  destruct (decide (m ∈ months p)); cbn [mbind option_bind].
  - rewrite (foldl_insert_lookup (λ c, default None (cell p m c))).
    destruct (decide (c ∈ categories p)); [done | by rewrite lookup_empty].
  - by rewrite lookup_empty.
Qed.

Lemma listed_exact p : exact_cells p → listed p = p.
Proof.
  intros [Hdom Hrows]. unfold listed.
  assert (foldl (λ acc m,
            <[m := foldl (λ row c, <[c := default None (cell p m c)]> row) ∅
                         (categories p)]> acc) ∅ (months p) = data p) as ->;
    [| by destruct p].
  apply map_eq. intros m.
  rewrite (foldl_insert_lookup
             (λ m, foldl (λ row c, <[c := default None (cell p m c)]> row) ∅
                         (categories p))).
  destruct (decide (m ∈ months p)) as [Hm|Hm].
  - assert (is_Some (data p !! m)) as [row Hrow].
    { apply elem_of_dom. rewrite Hdom. by apply elem_of_list_to_set. }
    rewrite Hrow. f_equal. apply map_eq. intros c.
    rewrite (foldl_insert_lookup (λ c, default None (cell p m c))).
    pose proof (Hrows m row Hrow) as Hdr.
    destruct (decide (c ∈ categories p)) as [Hc|Hc].
    + unfold cell. rewrite Hrow. cbn [mbind option_bind].
      assert (is_Some (row !! c)) as [v ->]; [|done].
      apply elem_of_dom. rewrite Hdr. by apply elem_of_list_to_set.
    + rewrite lookup_empty. symmetry. apply not_elem_of_dom.
      rewrite Hdr. by rewrite elem_of_list_to_set.
  - rewrite lookup_empty. symmetry. apply not_elem_of_dom.
    rewrite Hdom. by rewrite elem_of_list_to_set.
Qed.

Lemma snapshot_reloads p j :
  exact_cells p → project_to_dict p = Some j → dict_to_project j = Some p.
Proof.
  intros Hexact Hj. rewrite (snapshot_loads p j Hj). by rewrite listed_exact.
Qed.

(** X2. Saving and loading a project that holds every listed cell gives
    the project cut down to its listed cells: the fields and the listed
    cells are as before, every other entry of the table is gone. *)
Theorem save_load_keeps_listed (p : ProjectData) :
  has_all_cells p →
  ∃ p', project_to_dict p ≫= dict_to_project = Some p' ∧
        image_path p' = image_path p ∧ diagram_key p' = diagram_key p ∧
        center_xy p' = center_xy p ∧ months p' = months p ∧
        categories p' = categories p ∧
        (∀ m c, m ∈ months p → c ∈ categories p → cell p' m c = cell p m c) ∧
        (∀ m c, m ∉ months p ∨ c ∉ categories p → cell p' m c = None).
Proof.
  intros Hall. destruct (project_to_dict_total p Hall) as [j Hj].
  exists (listed p). rewrite Hj. cbn [mbind option_bind].
  split; [by apply snapshot_loads |]. repeat split; try done.
  - intros m c Hm Hc. rewrite cell_listed.
    rewrite decide_True by done. rewrite decide_True by done.
    by destruct (Hall m c Hm Hc) as [v ->].
  - intros m c Hmc. rewrite cell_listed.
    destruct Hmc as [Hm|Hc].
    + by rewrite decide_False.
    + destruct (decide (m ∈ months p)); [by rewrite decide_False | done].
Qed.

(** X3. What [dict_to_project] returns has a table with exactly the keys
    of its month and category lists, whatever else the snapshot carried,
    and is a fixed point of saving and loading. *)
Theorem loaded_project_normal (j : json) (p : ProjectData) :
  dict_to_project j = Some p →
  exact_cells p ∧ project_to_dict p ≫= dict_to_project = Some p.
Proof.
  intros Hload. pose proof (exact_cells_dict_to_project j p Hload) as Hexact.
  split; [done |].
  destruct (project_to_dict_total p (exact_cells_has_all p Hexact)) as [j' Hj'].
  rewrite Hj'. cbn [mbind option_bind]. by apply snapshot_reloads.
Qed.

(** ** Exception freedom *)

Ltac proj_norm_all :=
  cbv beta iota delta [with_app with_project with_cursor with_undo_stack
    with_preview_hidden with_setting_center with_processing_click
    app toolbar_mode disk trace project month_i cat_i setting_center
    processing_click undo_stack preview_hidden save_path csv_path
    inaxes xdata ydata button fst snd] in *.

Lemma py_index_in_range {A} (l : list A) (i : Z) :
  (0 ≤ i < Z.of_nat (length l))%Z → py_index l i = l !! Z.to_nat i.
Proof. intros [H0 _]. unfold py_index. by rewrite decide_True. Qed.

Lemma current_month_cat_ok a :
  cursor_ok a → is_Some (current_month_cat a).
Proof.
  intros [Hm Hc]. unfold current_month_cat.
  rewrite (py_index_in_range _ _ Hm), (py_index_in_range _ _ Hc).
  destruct (lookup_lt_is_Some_2 (months (project a)) (Z.to_nat (month_i a)))
    as [m ->]; [lia |].
  destruct (lookup_lt_is_Some_2 (categories (project a)) (Z.to_nat (cat_i a)))
    as [c ->]; [lia |].
  cbn [mbind option_bind]. eauto.
Qed.

Lemma all_cells_readable_true p :
  has_all_cells p → all_cells_readable p = true.
Proof.
  intros Hall. unfold all_cells_readable.
  apply forallb_forall. intros m Hm%list_elem_of_In.
  apply forallb_forall. intros c Hc%list_elem_of_In.
  apply bool_decide_eq_true_2. by apply Hall.
Qed.

Lemma refresh_ui_ok w :
  has_all_cells (project (app w)) → cursor_ok (app w) →
  refresh_ui w = (Some tt, w).
Proof.
  intros Hall Hcur. unfold refresh_ui, reading.
  destruct (current_month_cat_ok _ Hcur) as [mc ->]. cbn [mbind option_bind].
  by rewrite all_cells_readable_true.
Qed.


Lemma cursor_ok_with_cursor mi ci a :
  (0 ≤ mi < Z.of_nat (length (months (project a))))%Z →
  (0 ≤ ci < Z.of_nat (length (categories (project a))))%Z →
  cursor_ok (with_cursor mi ci a).
Proof. by split. Qed.

Lemma move_cursor_ok mi ci w :
  has_all_cells (project (app w)) →
  (0 ≤ mi < Z.of_nat (length (months (project (app w)))))%Z →
  (0 ≤ ci < Z.of_nat (length (categories (project (app w)))))%Z →
  bind (modify (with_cursor mi ci)) (λ _, refresh_ui) w
  = (Some tt, with_app (with_cursor mi ci (app w)) w).
Proof.
  intros Hall Hm Hc. rewrite bind_modify. apply refresh_ui_ok.
  - by destruct w as [[p mi0 ci0 sc pc st ph sp cp] tb dk tr].
  - destruct w as [[p mi0 ci0 sc pc st ph sp cp] tb dk tr]. by split.
Qed.

Lemma with_cursor_same w :
  with_app (with_cursor (month_i (app w)) (cat_i (app w)) (app w)) w = w.
Proof. by destruct w as [[p mi0 ci0 sc pc st ph sp cp] tb dk tr]. Qed.

Lemma next_item_cursor w :
  has_all_cells (project (app w)) → cursor_ok (app w) →
  ∃ mi ci,
    next_item w = (Some tt, with_app (with_cursor mi ci (app w)) w) ∧
    cursor_ok (with_cursor mi ci (app w)) ∧
    position (with_cursor mi ci (app w))
    = Z.min (position (app w) + 1) (n_cells (project (app w)) - 1).
Proof.
  intros Hall [Hm Hc]. unfold next_item. rewrite bind_get_app. cbv zeta.
  set (nm := Z.of_nat (length (months (project (app w))))) in *.
  set (nc := Z.of_nat (length (categories (project (app w))))) in *.
  destruct (decide _) as [[Hlm Hlc]|Hnl].
  - exists (month_i (app w)), (cat_i (app w)). rewrite with_cursor_same.
    split; [done |]. split; [by split |].
    unfold position, n_cells.
    destruct w as [[p mi0 ci0 sc pc st ph sp cp] tb dk tr].
    cbn [app project month_i cat_i with_cursor] in *. fold nm nc. nia.
  - destruct (decide (nc ≤ cat_i (app w) + 1)%Z) as [Hwrap|Hin].
    + exists (month_i (app w) + 1)%Z, 0%Z.
      assert (month_i (app w) + 1 < nm)%Z by lia.
      rewrite move_cursor_ok by (done || lia).
      split; [done |]. split; [split; cbn; lia |].
      unfold position, n_cells.
      destruct w as [[p mi0 ci0 sc pc st ph sp cp] tb dk tr].
      cbn [app project month_i cat_i with_cursor] in *. fold nm nc. nia.
    + exists (month_i (app w)), (cat_i (app w) + 1)%Z.
      rewrite move_cursor_ok by (done || lia).
      split; [done |]. split; [split; cbn; lia |].
      unfold position, n_cells.
      destruct w as [[p mi0 ci0 sc pc st ph sp cp] tb dk tr].
      cbn [app project month_i cat_i with_cursor] in *. fold nm nc. nia.
Qed.

Lemma prev_item_cursor w :
  has_all_cells (project (app w)) → cursor_ok (app w) →
  ∃ mi ci,
    prev_item w = (Some tt, with_app (with_cursor mi ci (app w)) w) ∧
    cursor_ok (with_cursor mi ci (app w)) ∧
    position (with_cursor mi ci (app w)) = Z.max (position (app w) - 1) 0.
Proof.
  intros Hall [Hm Hc]. unfold prev_item. rewrite bind_get_app. cbv zeta.
  set (nm := Z.of_nat (length (months (project (app w))))) in *.
  set (nc := Z.of_nat (length (categories (project (app w))))) in *.
  destruct (decide _) as [[Hlm Hlc]|Hnl].
  - exists (month_i (app w)), (cat_i (app w)). rewrite with_cursor_same.
    split; [done |]. split; [by split |].
    unfold position.
    destruct w as [[p mi0 ci0 sc pc st ph sp cp] tb dk tr].
    cbn [app project month_i cat_i with_cursor] in *. fold nc. nia.
  - destruct (decide (cat_i (app w) - 1 < 0)%Z) as [Hwrap|Hin].
    + exists (month_i (app w) - 1)%Z, (nc - 1)%Z.
      rewrite move_cursor_ok by (done || lia).
      split; [done |]. split; [split; cbn; lia |].
      unfold position.
      destruct w as [[p mi0 ci0 sc pc st ph sp cp] tb dk tr].
      cbn [app project month_i cat_i with_cursor] in *. fold nc. nia.
    + exists (month_i (app w)), (cat_i (app w) - 1)%Z.
      rewrite move_cursor_ok by (done || lia).
      split; [done |]. split; [split; cbn; lia |].
      unfold position.
      destruct w as [[p mi0 ci0 sc pc st ph sp cp] tb dk tr].
      cbn [app project month_i cat_i with_cursor] in *. fold nc. nia.
Qed.

Lemma position_inj a mi ci mi' ci' :
  cursor_ok (with_cursor mi ci a) → cursor_ok (with_cursor mi' ci' a) →
  position (with_cursor mi ci a) = position (with_cursor mi' ci' a) →
  mi = mi' ∧ ci = ci'.
Proof.
  destruct a as [p mi0 ci0 sc pc st ph sp cp].
  unfold cursor_ok, position. cbn [project month_i cat_i with_cursor].
  intros [Hm Hc] [Hm' Hc'] Heq.
  assert (mi = mi') by nia. subst. split; [done | lia].
Qed.








Lemma try_finally_modify {A} (body : M A) (f : App → App) w :
  try_finally body (modify f) w
  = ((body w).1, with_app (f (app (body w).2)) (body w).2).
Proof. unfold try_finally, modify. by destruct (body w). Qed.




Lemma list_index_range x l i :
  list_index x l = Some i →
  (0 ≤ i < Z.of_nat (length l))%Z ∧ l !! Z.to_nat i = Some x.
Proof.
  revert i. induction l as [|y l IH]; intros i; cbn [list_index]; [done |].
  destruct (decide (x = y)) as [->|Hne].
  - intros [= <-]. cbn. split; [lia | done].
  - destruct (list_index x l) as [j|]; [|done]. intros [= <-].
    destruct (IH j eq_refl) as [Hj Hl]. split; [cbn [length]; lia |].
    replace (Z.to_nat (Z.succ j)) with (S (Z.to_nat j)) by lia. done.
Qed.




Lemma cursor_ok_nonempty a :
  cursor_ok a → months (project a) ≠ [] ∧ categories (project a) ≠ [].
Proof.
  intros [Hm Hc].
  split; intros Hnil; rewrite Hnil in *; cbn [length] in *; lia.
Qed.



Lemma export_csv_run w center :
  center_xy (project (app w)) = Some center →
  has_all_cells (project (app w)) → cursor_ok (app w) →
  squares_fit (project (app w)) →
  let p := project (app w) in
  let lines := csv_header ::
                 map (csv_line_of p (max_area_of (measured_areas p)))
                     (cell_keys p) in
  export_csv w
  = (Some tt,
     mkWorld (app w) (toolbar_mode w)
             (<[csv_path (app w) := FCsv lines]> (disk w))
             (trace w ++ [EvWrite (csv_path (app w)) (FCsv lines)])).
Proof.
  intros Hcenter Hall Hcur Hfit. cbv zeta.
  assert (∀ mc, mc ∈ cell_keys (project (app w)) →
                is_Some (cell (project (app w)) mc.1 mc.2)) as Hkeys.
  { intros [m c] [Hm Hc]%elem_of_cell_keys. by apply Hall. }
  pose proof (proj1 (squares_fit_keys _) Hfit) as Hfk.
  unfold export_csv. rewrite bind_get_app, Hcenter, bind_liftO.
  rewrite (collect_areas_spec _ _ [] Hkeys Hfk). cbn [List.app].
  rewrite (write_rows_spec _ _ _ _ Hkeys Hfk).
  unfold bind at 1, write_file. unfold bind at 1, ret at 1.
  by rewrite refresh_ui_ok.
Qed.

Lemma is_Some_unit (o : option unit) : is_Some o ↔ o = Some tt.
Proof. split; [by intros [[] ->] | by intros ->]. Qed.

Lemma export_csv_returns w :
  has_all_cells (project (app w)) → cursor_ok (app w) →
  (export_csv w).1 = Some tt
  ↔ center_xy (project (app w)) = None ∨ squares_fit (project (app w)).
Proof.
  intros Hall Hcur.
  destruct (center_xy (project (app w))) as [center|] eqn:Hcenter.
  - split.
    + intros Hret. right. apply (proj2 (squares_fit_keys _)).
      revert Hret. unfold export_csv.
      rewrite bind_get_app, Hcenter, bind_liftO.
      destruct (collect_areas _ _ _) as [areas|] eqn:Hcollect; [| done].
      intros _. by apply (collect_areas_Some _ _ _ _ Hcollect).
    + intros [?|Hfit]; [done |].
      by rewrite (export_csv_run w center Hcenter Hall Hcur Hfit).
  - split; [by left |]. intros _. unfold export_csv.
    by rewrite bind_get_app, Hcenter.
Qed.

Lemma export_csv_settles w :
  has_all_cells (project (app w)) → cursor_ok (app w) →
  center_xy (project (app w)) = None ∨ squares_fit (project (app w)) →
  settles export_csv w.
Proof.
  intros Hall Hcur Hcase. unfold settles.
  rewrite export_csv_app. split; [| done].
  apply is_Some_unit. by apply export_csv_returns.
Qed.





Lemma bind_read_file {B} (path : string) (k : option file → M B) w :
  bind (read_file path) k w = k (disk w !! path) w.
Proof. reflexivity. Qed.







(** ** The cursor *)

(** X6. [next_item] and [prev_item] walk the table in month-major order:
    the rank of the cursor goes up, or down, by one and stops at the last,
    or first, cell; the cursor stays in range and nothing else changes. *)
Theorem cursor_steps (w : World) :
  has_all_cells (project (app w)) → cursor_ok (app w) →
  let rank := position (app w) in
  (∃ mi ci,
     next_item w = (Some tt, with_app (with_cursor mi ci (app w)) w) ∧
     cursor_ok (with_cursor mi ci (app w)) ∧
     position (with_cursor mi ci (app w))
     = Z.min (rank + 1) (n_cells (project (app w)) - 1)) ∧
  (∃ mi ci,
     prev_item w = (Some tt, with_app (with_cursor mi ci (app w)) w) ∧
     cursor_ok (with_cursor mi ci (app w)) ∧
     position (with_cursor mi ci (app w)) = Z.max (rank - 1) 0).
Proof.
  intros Hall Hcur. split.
  - by apply next_item_cursor.
  - by apply prev_item_cursor.
Qed.

Lemma position_range a :
  cursor_ok a → (0 ≤ position a < n_cells (project a))%Z.
Proof. unfold cursor_ok, position, n_cells. intros [Hm Hc]. nia. Qed.

Lemma with_cursor_back mi ci w :
  with_app (with_cursor (month_i (app w)) (cat_i (app w))
              (app (with_app (with_cursor mi ci (app w)) w)))
           (with_app (with_cursor mi ci (app w)) w) = w.
Proof. by destruct w as [[p mi0 ci0 sc pc st ph sp cp] tb dk tr]. Qed.

(** X7. [prev_item] undoes [next_item] unless the cursor was on the last
    cell, and [next_item] undoes [prev_item] unless it was on the first. *)
Theorem next_prev_inverse (w : World) :
  has_all_cells (project (app w)) → cursor_ok (app w) →
  (position (app w) < n_cells (project (app w)) - 1 →
   prev_item (next_item w).2 = (Some tt, w))%Z ∧
  (0 < position (app w) → next_item (prev_item w).2 = (Some tt, w))%Z.
Proof.
  intros Hall Hcur. pose proof (position_range _ Hcur) as Hrange. split.
  - intros Hlast.
    destruct (next_item_cursor w Hall Hcur) as (mi & ci & -> & Hok & Hpos).
    cbn [snd]. set (w1 := with_app (with_cursor mi ci (app w)) w) in *.
    assert (has_all_cells (project (app w1))) as Hall1
      by (by destruct w as [[p mi0 ci0 sc pc st ph sp cp] tb dk tr]).
    assert (cursor_ok (app w1)) as Hok1
      by (by destruct w as [[p mi0 ci0 sc pc st ph sp cp] tb dk tr]).
    destruct (prev_item_cursor w1 Hall1 Hok1) as (mi' & ci' & -> & Hok' & Hpos').
    assert (mi' = month_i (app w) ∧ ci' = cat_i (app w)) as [-> ->].
    { apply (position_inj (app w)).
      - by destruct w as [[p mi0 ci0 sc pc st ph sp cp] tb dk tr].
      - by destruct w as [[p mi0 ci0 sc pc st ph sp cp] tb dk tr].
      - destruct w as [[p mi0 ci0 sc pc st ph sp cp] tb dk tr].
        unfold position, n_cells, w1 in *. proj_norm_all. lia. }
    unfold w1. by rewrite with_cursor_back.
  - intros Hfirst.
    destruct (prev_item_cursor w Hall Hcur) as (mi & ci & -> & Hok & Hpos).
    cbn [snd]. set (w1 := with_app (with_cursor mi ci (app w)) w) in *.
    assert (has_all_cells (project (app w1))) as Hall1
      by (by destruct w as [[p mi0 ci0 sc pc st ph sp cp] tb dk tr]).
    assert (cursor_ok (app w1)) as Hok1
      by (by destruct w as [[p mi0 ci0 sc pc st ph sp cp] tb dk tr]).
    destruct (next_item_cursor w1 Hall1 Hok1) as (mi' & ci' & -> & Hok' & Hpos').
    assert (mi' = month_i (app w) ∧ ci' = cat_i (app w)) as [-> ->].
    { apply (position_inj (app w)).
      - by destruct w as [[p mi0 ci0 sc pc st ph sp cp] tb dk tr].
      - by destruct w as [[p mi0 ci0 sc pc st ph sp cp] tb dk tr].
      - destruct w as [[p mi0 ci0 sc pc st ph sp cp] tb dk tr].
        unfold position, n_cells, w1 in *. proj_norm_all. lia. }
    unfold w1. by rewrite with_cursor_back.
Qed.

(** ** Persistence *)

(** X8. [safe_write_json] never raises, leaves the application and every
    other file alone, leaves the payload under [path] and no temporary
    file behind; of two writes to the same path the last one wins. *)
Theorem safe_write_json_footprint (path : string) (payload payload' : json)
    (w : World) :
  let w' := (safe_write_json path payload w).2 in
  (safe_write_json path payload w).1 = Some tt ∧
  app w' = app w ∧ toolbar_mode w' = toolbar_mode w ∧
  (∀ q, disk w' !! q
        = if decide (q = path) then Some (FJson payload)
          else if decide (q = path ++ ".tmp") then None
          else disk w !! q) ∧
  disk (safe_write_json path payload' w').2
  = disk (safe_write_json path payload' w).2.
Proof.
  cbv zeta. rewrite !safe_write_json_spec. cbn [fst snd app toolbar_mode disk].
  repeat split.
  - intros q. destruct (decide (q = path)) as [->|Hq].
    + apply lookup_insert_eq.
    + rewrite lookup_insert_ne by done.
      destruct (decide (q = path ++ ".tmp")) as [->|Hq'].
      * apply lookup_delete_eq.
      * by rewrite lookup_delete_ne.
  - apply map_eq. intros q. destruct (decide (q = path)) as [->|Hq].
    + by rewrite !lookup_insert_eq.
    + rewrite !lookup_insert_ne by done.
      destruct (decide (q = path ++ ".tmp")) as [->|Hq'].
      * by rewrite !lookup_delete_eq.
      * rewrite lookup_delete_ne, lookup_insert_ne by done.
        by rewrite !lookup_delete_ne.
Qed.

Lemma save_run w payload :
  project_to_dict (project (app w)) = Some payload →
  save w
  = (Some tt,
     mkWorld (app w) (toolbar_mode w)
       (<[save_path (app w) := FJson payload]>
          (delete (save_path (app w) ++ ".tmp") (disk w)))
       (trace w ++ [EvWrite (save_path (app w) ++ ".tmp") (FJson payload);
                    EvReplace (save_path (app w) ++ ".tmp")
                              (save_path (app w))])%list).
Proof.
  intros Hp. unfold save.
  by rewrite bind_get_app, bind_liftO, Hp, safe_write_json_spec.
Qed.



Lemma find_first_unfilled_frame w :
  toolbar_mode (_find_first_unfilled w).2 = toolbar_mode w ∧
  csv_path (app (_find_first_unfilled w).2) = csv_path (app w).
Proof.
  unfold _find_first_unfilled. rewrite bind_get_app, bind_liftO.
  destruct (scan_months (project (app w)) (months (project (app w))) 0)
    as [[[mi ci]|]|];
    by destruct w as [[p mi0 ci0 sc pc st ph sp cp] tb dk tr].
Qed.

Lemma jump_to_unfilled_frame w :
  toolbar_mode (jump_to_unfilled w).2 = toolbar_mode w ∧
  csv_path (app (jump_to_unfilled w).2) = csv_path (app w).
Proof.
  pose proof (find_first_unfilled_frame w) as Hframe.
  unfold jump_to_unfilled, bind.
  by destruct (_find_first_unfilled w) as [[[]|] w1].
Qed.

Lemma init_project ip dk tb files ms :
  DIAGRAMS_months dk = Some ms →
  ∃ r w,
    DigitizerApp__init__ ip dk tb files = Some (r, w) ∧
    project (app w)
    = load_or_start ip dk ms (files !! ("progress_" ++ dk ++ ".json")) ∧
    undo_stack (app w) = [] ∧
    save_path (app w) = "progress_" ++ dk ++ ".json" ∧
    csv_path (app w) = "output_data_" ++ dk ++ ".csv" ∧
    disk w = files ∧ trace w = [] ∧ toolbar_mode w = tb.
Proof.
  intros Hms. unfold DigitizerApp__init__. rewrite Hms.
  cbn [mbind option_bind].
  match goal with
  | |- ∃ r w, Some (?t ?w0) = _ ∧ _ =>
      pose proof (ui_only_jump_to_unfilled w0) as (Hp & Hst & Hsp & Hd & Ht);
      pose proof (jump_to_unfilled_frame w0) as [Htb Hcsv];
      unfold jump_to_unfilled in *;
      exists (t w0).1, (t w0).2
  end.
  split; [by destruct (bind _ _ _) |].
  by rewrite Hp, Hst, Hsp, Hd, Ht, Htb, Hcsv.
Qed.

(** X10. Starting the application on the files a [save] left behind
    resumes the saved project, whatever image path is given on the
    command line; the undo stack starts empty. *)
Theorem save_then_restart (w : World) (ip dk : string) (tb : bool) :
  has_all_cells (project (app w)) →
  is_Some (DIAGRAMS_months dk) →
  save_path (app w) = "progress_" ++ dk ++ ".json" →
  ∃ r w',
    DigitizerApp__init__ ip dk tb (disk (save w).2) = Some (r, w') ∧
    project (app w') = listed (project (app w)) ∧
    (exact_cells (project (app w)) → project (app w') = project (app w)) ∧
    undo_stack (app w') = [].
Proof.
  intros Hall [ms Hms] Hpath.
  destruct (project_to_dict_total _ Hall) as [payload Hp].
  destruct (init_project ip dk tb (disk (save w).2) ms Hms)
    as (r & w' & Hinit & Hproj & Hst & _).
  exists r, w'. split; [done |].
  assert (project (app w') = listed (project (app w))) as Hl.
  { rewrite Hproj, (save_run w payload Hp). cbn [snd disk].
    rewrite <- Hpath, lookup_insert_eq. unfold load_or_start.
    cbn [json_load mbind option_bind]. by rewrite (snapshot_loads _ _ Hp). }
  split; [done |]. split; [| done].
  intros Hexact. by rewrite Hl, listed_exact.
Qed.

Lemma cell_make_empty_project ip dk ms cs m c :
  cell (make_empty_project ip dk ms cs) m c
  = if decide (m ∈ ms) then if decide (c ∈ cs) then Some None else None
    else None.
Proof.
  unfold cell, make_empty_project, empty_row. cbn [data].
  rewrite (foldl_insert_lookup (λ _, foldl _ ∅ cs)).
  destruct (decide (m ∈ ms)); cbn [mbind option_bind].
  - rewrite (foldl_insert_lookup (λ _, None)).
    destruct (decide (c ∈ cs)); [done | by rewrite lookup_empty].
  - by rewrite lookup_empty.
Qed.

(** X11. [make_empty_project] has no center, an unmeasured cell for every
    listed pair and no other cell, so it saves and loads back unchanged. *)
Theorem make_empty_project_cells (ip dk : string) (ms cs : list string) :
  let p := make_empty_project ip dk ms cs in
  center_xy p = None ∧
  (∀ m c, cell p m c
          = if decide (m ∈ ms) then if decide (c ∈ cs) then Some None else None
            else None) ∧
  exact_cells p ∧
  project_to_dict p ≫= dict_to_project = Some p.
Proof.
  cbv zeta. split; [done |]. split; [apply cell_make_empty_project |].
  assert (exact_cells (make_empty_project ip dk ms cs)) as Hexact.
  { split.
    - apply set_eq. intros m. rewrite elem_of_dom, elem_of_list_to_set.
      unfold make_empty_project. cbn [data months].
      rewrite (foldl_insert_lookup (λ _, empty_row cs)).
      destruct (decide (m ∈ ms)); [by split; eauto |].
      rewrite lookup_empty. split; [by intros [? ?] | done].
    - intros m row. unfold make_empty_project. cbn [data categories].
      rewrite (foldl_insert_lookup (λ _, empty_row cs)).
      destruct (decide (m ∈ ms)); [| by rewrite lookup_empty].
      intros [= <-]. apply set_eq. intros c.
      rewrite elem_of_dom, elem_of_list_to_set. unfold empty_row.
      rewrite (foldl_insert_lookup (λ _, None)).
      destruct (decide (c ∈ cs)); [by split; eauto |].
      rewrite lookup_empty. split; [by intros [? ?] | done]. }
  split; [done |].
  destruct (project_to_dict_total _ (exact_cells_has_all _ Hexact)) as [j Hj].
  rewrite Hj. cbn [mbind option_bind]. by apply snapshot_reloads.
Qed.

Lemma load_raises_None j : load_raises j → dict_to_project j = None.
Proof.
  destruct j as [| | | | |d]; try done. intros (k & Hk & Hnone).
  unfold dict_to_project. cbn [as_obj mbind option_bind].
  repeat (apply elem_of_cons in Hk as [->|Hk];
          [rewrite Hnone; cbn [mbind option_bind];
           repeat (match goal with
                   | |- context [?o ≫= _] =>
                       lazymatch o with
                       | None => fail
                       | _ => destruct o; cbn [mbind option_bind]
                       end
                   end); done |]).
  by apply not_elem_of_nil in Hk.
Qed.

Lemma DIAGRAMS_months_nonempty dk ms : DIAGRAMS_months dk = Some ms → ms ≠ [].
Proof.
  unfold DIAGRAMS_months. repeat case_decide; by intros [= <-].
Qed.

Lemma scan_first_unmeasured p m ms c cs mi :
  cell p m c = Some None → categories p = c :: cs →
  scan_months p (m :: ms) mi = Some (Some (mi, 0%Z)).
Proof.
  intros Hc Hcats. cbn [scan_months]. rewrite Hcats. cbn [scan_cats].
  by rewrite Hc.
Qed.

(** X12. [DigitizerApp.__init__] raises for an unknown diagram key; for a
    known one with no progress file, or with one that [json.load] rejects,
    or whose content is no object or lacks one of the keys [image_path],
    [diagram_key], [center_xy], [months], [categories], it returns
    normally (the loading of the image and the construction of the figure
    apart) with the empty project of the given image and diagram, the
    cursor on the first cell and the files untouched. *)
Theorem init_fresh (ip dk : string) (tb : bool) (files : gmap string file) :
  (DIAGRAMS_months dk = None → DigitizerApp__init__ ip dk tb files = None) ∧
  ∀ ms, DIAGRAMS_months dk = Some ms →
    match files !! ("progress_" ++ dk ++ ".json") with
    | None => True
    | Some content =>
        match json_load content with
        | None => True
        | Some j => load_raises j
        end
    end →
    DigitizerApp__init__ ip dk tb files
    = Some (Some tt,
            mkWorld (mkApp (make_empty_project ip dk ms CATEGORIES) 0 0
                           false false [] false
                           ("progress_" ++ dk ++ ".json")
                           ("output_data_" ++ dk ++ ".csv"))
                    tb files []).
Proof.
  split; [by unfold DigitizerApp__init__; intros -> |].
  intros ms Hms Hfile. unfold DigitizerApp__init__. rewrite Hms.
  cbn [mbind option_bind]. f_equal.
  assert (load_or_start ip dk ms (files !! ("progress_" ++ dk ++ ".json"))
          = make_empty_project ip dk ms CATEGORIES) as ->.
  { destruct (files !! _) as [content|]; [| done].
    apply load_or_start_fallback.
    destruct (json_load content) as [j|]; [| done].
    cbn [mbind option_bind]. by apply load_raises_None. }
  pose proof (DIAGRAMS_months_nonempty _ _ Hms) as Hne.
  destruct ms as [|m0 ms']; [done |].
  set (p := make_empty_project ip dk (m0 :: ms') CATEGORIES).
  assert (_find_first_unfilled
            (mkWorld (mkApp p 0 0 false false [] false
                            ("progress_" ++ dk ++ ".json")
                            ("output_data_" ++ dk ++ ".csv")) tb files [])
          = (Some tt,
             mkWorld (mkApp p 0 0 false false [] false
                            ("progress_" ++ dk ++ ".json")
                            ("output_data_" ++ dk ++ ".csv")) tb files []))
    as Hfind.
  { unfold _find_first_unfilled. rewrite bind_get_app, bind_liftO.
    cbn [app project]. 
    assert (scan_months p (months p) 0 = Some (Some (0, 0)%Z)) as ->; [| done].
    apply (scan_first_unmeasured p m0 ms' "preventable_disease"
             ["wounds"; "other_causes"]); [| done].
    unfold p. rewrite cell_make_empty_project.
    rewrite decide_True by apply list_elem_of_here.
    by rewrite decide_True by apply list_elem_of_here. }
  rewrite (bind_eq _ _ _ _ _ Hfind). apply refresh_ui_ok.
  - apply has_all_cells_make_empty_project.
  - split; cbn; lia.
Qed.

(** X13. [reload] does nothing when there is no progress file, and in
    every case leaves the cursor, the flags and the files as they are. *)
Theorem reload_frame (w : World) :
  (disk w !! save_path (app w) = None → reload w = (Some tt, w)) ∧
  let w' := (reload w).2 in
  month_i (app w') = month_i (app w) ∧ cat_i (app w') = cat_i (app w) ∧
  setting_center (app w') = setting_center (app w) ∧
  preview_hidden (app w') = preview_hidden (app w) ∧
  save_path (app w') = save_path (app w) ∧
  disk w' = disk w ∧ trace w' = trace w.
Proof.
  unfold reload. rewrite bind_get_app, bind_read_file.
  split; [by intros -> |]. cbv zeta.
  destruct (disk w !! save_path (app w)) as [content|]; [| done].
  rewrite bind_liftO. destruct (json_load content) as [loaded|]; [| done].
  rewrite bind_liftO. destruct (dict_to_project loaded) as [p|]; [| done].
  rewrite !bind_modify. unfold refresh_ui, reading. cbn [snd].
  by destruct w as [[p0 mi ci sc pc st ph sp cp] tb dk tr].
Qed.

(** ** Clicks *)

Lemma processing_click_reset w :
  processing_click (app w) = false →
  with_app (with_processing_click false
              (app (with_app (with_processing_click true (app w)) w)))
           (with_app (with_processing_click true (app w)) w) = w.
Proof.
  destruct w as [[p mi ci sc pc st ph sp cp] tb dk tr]. cbn. by intros ->.
Qed.

(** X14. [on_click] leaves the state as it is and returns normally when
    the event is outside the image axes or has no coordinates, when a
    click is being processed, when the button is neither the left one nor
    a right one with a center set, when the toolbar is in zoom or pan
    mode, and when a left click in measure mode comes before any center is
    set (the code then only shows a hint in the status text). *)
Theorem on_click_ignored (event : MouseEvent) (w : World) :
  inaxes event = false ∨ xdata event = None ∨ ydata event = None ∨
  processing_click (app w) = true ∨
  (button event ≠ 1%Z ∧
   (button event ≠ 3%Z ∨ center_xy (project (app w)) = None)) ∨
  (button event = 1%Z ∧ toolbar_mode w = true) ∨
  (button event = 1%Z ∧ setting_center (app w) = false ∧
   center_xy (project (app w)) = None) →
  on_click event w = (Some tt, w).
Proof.
  intros Hcase. unfold on_click.
  destruct (inaxes event); [| done].
  destruct (xdata event) as [x|]; [| done].
  destruct (ydata event) as [y|]; [| done].
  destruct (processing_click (app w)) eqn:Hpc; [done |].
  destruct Hcase as [?|[?|[?|[?|Hcase]]]]; try done.
  destruct Hcase as [[Hb1 Hb3]|[[Hb Htb]|(Hb & Hsc & Hcenter)]].
  - rewrite (bool_decide_eq_false_2 (button event = 1%Z)) by done.
    destruct Hb3 as [Hb3|Hcenter].
    + by rewrite (bool_decide_eq_false_2 (button event = 3%Z)) by done.
    + rewrite Hcenter.
      rewrite (bool_decide_eq_false_2 (is_Some None)) by (by intros [? ?]).
      by rewrite andb_false_r.
  - rewrite Hb, Htb.
    rewrite (bool_decide_eq_false_2 (1 = 3)%Z) by done.
    by rewrite (bool_decide_eq_true_2 (1 = 1)%Z) by done.
  - rewrite Hb, Hcenter.
    rewrite (bool_decide_eq_false_2 (1 = 3)%Z) by done.
    rewrite (bool_decide_eq_true_2 (1 = 1)%Z) by done.
    cbn [andb negb]. destruct (toolbar_mode w); [done |].
    rewrite bind_modify, try_finally_modify.
    assert (click_body x y (with_app (with_processing_click true (app w)) w)
            = (Some tt, with_app (with_processing_click true (app w)) w)) as ->.
    { unfold click_body. rewrite bind_get_app.
      destruct w as [[p mi ci sc pc st ph sp cp] tb dk tr].
      proj_norm. proj_norm_in Hsc. proj_norm_in Hcenter.
      by rewrite Hsc, Hcenter. }
    cbn [fst snd]. by rewrite processing_click_reset.
Qed.

(** X15. A right click inside the image, with a center set, flips the
    preview flag and nothing else; a second one restores the state. While
    the flag is set [on_move] draws no preview, and once it is cleared
    [on_move] draws one from the center to the pointer. *)
Theorem right_click_toggles_preview (event : MouseEvent) (w : World)
    (x y : R) (center : R * R) :
  inaxes event = true → xdata event = Some x → ydata event = Some y →
  button event = 3%Z → center_xy (project (app w)) = Some center →
  processing_click (app w) = false →
  let w1 := with_app (with_preview_hidden (negb (preview_hidden (app w)))
                                          (app w)) w in
  on_click event w = (Some tt, w1) ∧
  on_click event w1 = (Some tt, w) ∧
  on_move event
    (if preview_hidden (app w) then app w else app w1) = None ∧
  on_move event
    (if preview_hidden (app w) then app w1 else app w)
  = Some (center.1, center.2, x, y).
Proof.
  intros Hin Hx Hy Hb Hcenter Hpc. cbv zeta.
  unfold on_click, on_move. rewrite Hin, Hx, Hy, Hb.
  destruct w as [[p mi ci sc pc st ph sp cp] tb dk tr].
  proj_norm. proj_norm_in Hcenter. proj_norm_in Hpc. subst pc.
  rewrite Hcenter. destruct center as [cx cy].
  rewrite (bool_decide_eq_true_2 (3 = 3)%Z) by done.
  rewrite (bool_decide_eq_true_2 (is_Some (Some (cx, cy)))) by eauto.
  cbn [andb]. unfold modify. proj_norm. rewrite negb_involutive.
  repeat split; destruct ph; cbn [negb]; by rewrite ?Hcenter.
Qed.





(** ** Undo *)

Lemma list_index_lookup x l i :
  list_index x l = Some i → py_index l i = Some x.
Proof.
  intros Hi. destruct (list_index_range _ _ _ Hi) as [Hr Hl].
  by rewrite py_index_in_range.
Qed.

(** X18. [undo] does nothing on an empty stack. Otherwise it pops the
    last entry, puts the recorded value back into its cell and changes no
    other cell, moves the cursor onto that cell and shows the preview
    again. *)
Theorem undo_restores_entry (w : World) :
  consistent w →
  (undo_stack (app w) = [] → undo w = (Some tt, w)) ∧
  ∀ m c prev rest,
    undo_stack (app w) = (rest ++ [(m, c, prev)])%list →
    let w' := (undo w).2 in
    cell (project (app w')) m c = Some prev ∧
    (∀ m' c', (m', c') ≠ (m, c) →
       cell (project (app w')) m' c' = cell (project (app w)) m' c') ∧
    undo_stack (app w') = rest ∧
    current_month_cat (app w') = Some (m, c) ∧
    preview_hidden (app w') = false.
Proof.
  intros [Hall Hstack]. split.
  - intros Hnil. unfold undo. by rewrite bind_get_app, Hnil.
  - intros m c prev rest Hst. cbv zeta.
    assert (list_pop (undo_stack (app w)) = Some ((m, c, prev), rest)) as Hpop
      by (rewrite Hst; apply list_pop_snoc).
    destruct (Hstack m c prev) as [Hm Hc].
    { rewrite Hst. apply elem_of_app. right. by left. }
    destruct (set_cell_is_Some m c prev (project (app w)) (Hall m c Hm Hc))
      as [p' Hp'].
    destruct (list_index_elem _ _ Hm) as [mi Hmi].
    destruct (list_index_elem _ _ Hc) as [ci Hci].
    rewrite (undo_path w m c prev rest p' mi ci Hpop Hp' Hmi Hci).
    rewrite save_refresh_app.
    destruct (set_cell_frame _ _ _ _ _ Hp') as (_ & _ & _ & Hms & Hcs).
    apply list_index_lookup in Hmi, Hci.
    destruct w as [[p mi0 ci0 sc pc st ph sp cp] tb dk tr].
    unfold current_month_cat. proj_norm_all. rewrite Hms, Hcs, Hmi, Hci.
    split; [by eapply cell_set_cell_eq |].
    split; [| done]. intros m' c' Hne. by eapply cell_set_cell_ne.
Qed.

Lemma remeasure_current_effect w center m c meas :
  center_xy (project (app w)) = Some center →
  current_month_cat (app w) = Some (m, c) →
  cell (project (app w)) m c = Some (Some meas) →
  ∃ p', set_cell m c None (project (app w)) = Some p' ∧
        app (remeasure_current w).2
        = with_preview_hidden false
            (with_project p'
               (with_undo_stack (undo_stack (app w) ++ [(m, c, Some meas)])
                                (app w))).
Proof.
  intros Hcenter Hcur Hprev.
  destruct (set_cell_is_Some m c None (project (app w))) as [p' Hp'];
    [by rewrite Hprev |].
  exists p'. split; [done |].
  rewrite (remeasure_current_path w center m c meas p' Hcenter Hcur Hprev Hp').
  by rewrite save_refresh_app.
Qed.

(** X19. [remeasure_current] does nothing without a center or on an
    unmeasured cell. On a measured cell it clears that cell and no other,
    keeps the cursor where it is and pushes the old value, so that [undo]
    brings the project and the undo stack back. *)
Theorem remeasure_current_clears (w : World) (m c : string) :
  current_month_cat (app w) = Some (m, c) →
  (center_xy (project (app w)) = None ∨ cell (project (app w)) m c = Some None →
   remeasure_current w = (Some tt, w)) ∧
  ∀ meas,
    is_Some (center_xy (project (app w))) →
    cell (project (app w)) m c = Some (Some meas) →
    let w1 := (remeasure_current w).2 in
    let w2 := (undo w1).2 in
    cell (project (app w1)) m c = Some None ∧
    (∀ m' c', (m', c') ≠ (m, c) →
       cell (project (app w1)) m' c' = cell (project (app w)) m' c') ∧
    undo_stack (app w1) = (undo_stack (app w) ++ [(m, c, Some meas)])%list ∧
    month_i (app w1) = month_i (app w) ∧ cat_i (app w1) = cat_i (app w) ∧
    project (app w2) = project (app w) ∧
    undo_stack (app w2) = undo_stack (app w).
Proof.
  intros Hcur. split.
  - intros Hcase. unfold remeasure_current. rewrite bind_get_app.
    destruct (center_xy (project (app w))) as [center|] eqn:Hcenter; [| done].
    destruct Hcase as [?|Hcell]; [done |].
    rewrite bind_liftO, Hcur. cbn [fst snd]. by rewrite bind_liftO, Hcell.
  - intros meas [center Hcenter] Hprev. cbv zeta.
    destruct (remeasure_current_effect w center m c meas Hcenter Hcur Hprev)
      as (p' & Hset & Happ).
    pose proof (set_cell_revert _ _ _ _ _ _ Hprev Hset) as Hback.
    destruct (undo_effect (remeasure_current w).2 m c (Some meas)
                (undo_stack (app w)) (project (app w))) as (Hp2 & Hs2).
    { rewrite Happ. cbn [undo_stack with_preview_hidden with_project
                         with_undo_stack]. apply list_pop_snoc. }
    { rewrite Happ. by cbn [project with_preview_hidden with_project]. }
    rewrite Hp2, Hs2, Happ.
    destruct w as [[p mi0 ci0 sc pc st ph sp cp] tb dk tr]. proj_norm_all.
    split; [by eapply cell_set_cell_eq |].
    split; [| done]. intros m' c' Hne. by eapply cell_set_cell_ne.
Qed.

(** X20. [mark_missing] followed by [undo] brings the project and the
    undo stack back to what they were and leaves the cursor on the cell
    that had been marked. *)
Theorem mark_missing_then_undo (w : World) (center : R * R) (m c : string)
    (prev : option Measurement) :
  center_xy (project (app w)) = Some center →
  current_month_cat (app w) = Some (m, c) →
  cell (project (app w)) m c = Some prev →
  let w1 := (mark_missing w).2 in
  let w2 := (undo w1).2 in
  undo_stack (app w1) = (undo_stack (app w) ++ [(m, c, prev)])%list ∧
  project (app w2) = project (app w) ∧
  undo_stack (app w2) = undo_stack (app w) ∧
  current_month_cat (app w2) = Some (m, c).
Proof.
  intros Hcenter Hcur Hprev. cbv zeta.
  destruct (mark_missing_effect w center m c prev Hcenter Hcur Hprev)
    as (p' & Hset & Hp1 & Hs1).
  pose proof (set_cell_revert _ _ _ _ _ _ Hprev Hset) as Hback.
  destruct (undo_effect (mark_missing w).2 m c prev (undo_stack (app w))
              (project (app w))) as (Hp2 & Hs2).
  { rewrite Hs1. apply list_pop_snoc. }
  { by rewrite Hp1. }
  split; [done |]. split; [done |]. split; [done |].
  destruct (current_month_cat_elem _ _ _ Hcur) as [Hm Hc].
  destruct (list_index_elem _ _ Hm) as [mi Hmi].
  destruct (list_index_elem _ _ Hc) as [ci Hci].
  destruct (set_cell_frame _ _ _ _ _ Hset) as (_ & _ & _ & Hms & Hcs).
  rewrite (undo_path (mark_missing w).2 m c prev (undo_stack (app w))
             (project (app w)) mi ci).
  - rewrite save_refresh_app. apply list_index_lookup in Hmi, Hci.
    unfold current_month_cat. proj_norm_all. by rewrite Hmi, Hci.
  - rewrite Hs1. apply list_pop_snoc.
  - by rewrite Hp1.
  - by rewrite Hp1, Hms.
  - by rewrite Hp1, Hcs.
Qed.

(** ** Export *)

(** X21. With a center set, a complete table and the cursor in range,
    [export_csv] raises before it opens any file when the square of some
    measured, non-missing radius overflows. Otherwise it returns normally
    and writes the CSV file, header and one line per cell, and nothing
    else: the application object and every other file, the progress file
    included, stay as they are, and exporting twice leaves the same files
    as exporting once. *)
Theorem export_csv_footprint (w : World) (center : R * R) :
  center_xy (project (app w)) = Some center →
  has_all_cells (project (app w)) → cursor_ok (app w) →
  let p := project (app w) in
  let lines := csv_header ::
                 map (csv_line_of p (max_area_of (measured_areas p)))
                     (cell_keys p) in
  (¬ squares_fit p → export_csv w = (None, w)) ∧
  (squares_fit p →
   let w1 := (export_csv w).2 in
   (export_csv w).1 = Some tt ∧ app w1 = app w ∧
   disk w1 = <[csv_path (app w) := FCsv lines]> (disk w) ∧
   trace w1 = (trace w ++ [EvWrite (csv_path (app w)) (FCsv lines)])%list ∧
   (∀ q, q ≠ csv_path (app w) → disk w1 !! q = disk w !! q) ∧
   disk (export_csv w1).2 = disk w1).
Proof.
  intros Hcenter Hall Hcur. cbv zeta. split.
  - by apply (export_csv_overflow w center).
  - intros Hfit.
    rewrite (export_csv_run w center Hcenter Hall Hcur Hfit). cbv zeta.
    cbn [fst snd].
    rewrite (export_csv_run _ center) by done. cbn [snd app disk trace].
    repeat split.
    + intros q Hq. by rewrite lookup_insert_ne.
    + apply insert_insert_eq.
Qed.

Lemma measured_area_elem p m c meas area :
  m ∈ months p → c ∈ categories p →
  cell p m c = Some (Some meas) → is_missing meas = false →
  float_square (radius_px meas) = Some area →
  area ∈ measured_areas p.
Proof.
  intros Hm Hc Hcell Hmiss Harea. unfold measured_areas.
  apply list_elem_of_omap. exists (m, c). split.
  - by apply elem_of_cell_keys.
  - unfold measured_area. cbn [fst snd]. by rewrite Hcell, Hmiss.
Qed.

(** X22. In the exported line of a measured cell, with [area_rel] the
    square of its radius as the float power gives it (0 for a cell marked
    missing), the [area_norm] piece lies between 0 and 1; it is 0 for a
    cell marked missing and whenever the largest square is 0, as it is
    when every square underflows, and 1 for a cell that is not missing
    and whose square is the largest one, when that is not 0. *)
Theorem area_norm_bounds (p : ProjectData) (m c : string) (meas : Measurement)
    (area_rel : R) :
  m ∈ months p → c ∈ categories p →
  cell p m c = Some (Some meas) →
  (if is_missing meas then Some 0%R else float_square (radius_px meas))
  = Some area_rel →
  let max_area := max_area_of (measured_areas p) in
  ∃ n, csv_line_of p max_area (m, c) !! 5 = Some (CsvFixed 6 n) ∧
       (0 <= n <= 1)%R ∧
       (is_missing meas = true → n = 0%R) ∧
       (max_area = 0%R → n = 0%R) ∧
       (is_missing meas = false → area_rel = max_area →
        max_area ≠ 0%R → n = 1%R).
Proof.
  intros Hm Hc Hcell Harea. cbv zeta. unfold csv_line_of, csv_row.
  cbn [fst snd]. rewrite Hcell. cbn [default from_option Datatypes.id].
  rewrite Harea. cbn [mbind option_bind].
  set (mx := max_area_of (measured_areas p)).
  eexists. split; [by destruct (click_xy meas) as [[x y]|] |].
  destruct (is_missing meas) eqn:Hmiss.
  - injection Harea as <-.
    assert ((if decide (mx = 0%R) then 0%R else (0 / mx)%R) = 0%R) as ->
      by (destruct (decide _); [done | unfold Rdiv; lra]).
    repeat split; (lra || done).
  - pose proof (measured_area_elem p m c meas area_rel Hm Hc Hcell Hmiss Harea)
      as Hin.
    destruct (max_area_of_spec (measured_areas p)) as [_ Hmax].
    destruct Hmax as [_ Hle]; [by intros Hnil; rewrite Hnil in Hin;
                                  apply not_elem_of_nil in Hin |].
    specialize (Hle _ Hin). fold mx in Hle.
    destruct (float_square_Some _ _ Harea) as (_ & Hsq & _).
    destruct (decide (mx = 0%R)) as [Hz|Hnz].
    + repeat split; (lra || done).
    + assert (0 < mx)%R as Hpos by lra.
      repeat split; try done.
      * apply Rmult_le_pos; [lra |]. left. by apply Rinv_0_lt_compat.
      * apply (Rmult_le_reg_r mx); [lra |]. field_simplify; lra.
      * intros _ Heq _. rewrite Heq. by apply Rdiv_diag.
Qed.

(** ** Progress display *)

Lemma count_done_spec p keys :
  (∀ mc, mc ∈ keys → is_Some (cell p mc.1 mc.2)) →
  ∃ n, count_done p keys = Some n ∧ (n ≤ length keys)%nat ∧
       (n = length keys ↔ ∀ mc, mc ∈ keys → cell p mc.1 mc.2 ≠ Some None) ∧
       (n = 0 ↔ ∀ mc, mc ∈ keys → cell p mc.1 mc.2 = Some None).
Proof.
  induction keys as [|[m c] keys IH]; intros Hkeys.
  - exists 0. cbn [count_done length].
    repeat split; intros; try done;
      match goal with H : _ ∈ [] |- _ => by apply not_elem_of_nil in H end.
  - destruct IH as (n & Hn & Hle & Hfull & Hzero).
    { intros mc Hmc. apply Hkeys. by right. }
    destruct (Hkeys (m, c)) as [v Hv]; [by left |]. cbn [fst snd] in Hv.
    cbn [count_done]. rewrite Hv, Hn. cbn [mbind option_bind length].
    destruct v as [meas|].
    + exists (S n). split; [done |]. split; [lia |]. split; split.
      * intros Heq mc [->|Hmc]%elem_of_cons.
        -- cbn [fst snd]. by rewrite Hv.
        -- apply Hfull; [lia | done].
      * intros Hall. f_equal. apply Hfull. intros mc Hmc. apply Hall. by right.
      * done.
      * intros Hall. specialize (Hall (m, c) ltac:(by left)).
        cbn [fst snd] in Hall. by rewrite Hv in Hall.
    + exists n. split; [done |]. split; [lia |]. split; split.
      * lia.
      * intros Hall. specialize (Hall (m, c) ltac:(by left)).
        cbn [fst snd] in Hall. by rewrite Hv in Hall.
      * intros Heq mc [->|Hmc]%elem_of_cons; [done |]. by apply Hzero.
      * intros Hall. apply Hzero. intros mc Hmc. apply Hall. by right.
Qed.

Lemma length_cell_keys p :
  length (cell_keys p) = (length (months p) * length (categories p))%nat.
Proof.
  unfold cell_keys. generalize (months p) (categories p). intros ms cs.
  induction ms as [|m ms IH]; [done |].
  rewrite bind_cons, length_app, IH. cbn [length Nat.mul]. f_equal.
  clear IH. induction cs as [|c cs IHc]; [done |].
  rewrite bind_cons. cbn [length List.app]. by rewrite IHc.
Qed.

Lemma scan_months_none p :
  has_all_cells p →
  scan_months p (months p) 0 = Some None
  ↔ ∀ m c, m ∈ months p → c ∈ categories p → cell p m c ≠ Some None.
Proof.
  intros Hall. split.
  - intros Hscan. apply (scan_months_spec _ _ _ _ Hscan).
  - intros Hfull.
    destruct (scan_months_total p (months p) 0) as [r Hr]; [done |].
    rewrite Hr. f_equal. pose proof (scan_months_spec _ _ _ _ Hr) as Hspec.
    destruct r as [[i j]|]; [| done].
    destruct Hspec as (ki & kj & m & c & _ & _ & Hki & Hkj & Hcell & _).
    destruct (Hfull m c); [| | done]; by eapply list_elem_of_lookup_2.
Qed.

Lemma progress_spec p :
  has_all_cells p →
  ∃ done,
    progress p = Some (done, (length (months p) * length (categories p))%nat) ∧
    (done ≤ length (months p) * length (categories p))%nat ∧
    (done = (length (months p) * length (categories p))%nat
     ↔ scan_months p (months p) 0 = Some None) ∧
    (done = 0
     ↔ ∀ m c, m ∈ months p → c ∈ categories p → cell p m c = Some None).
Proof.
  intros Hall.
  destruct (count_done_spec p (cell_keys p)) as (n & Hn & Hle & Hfull & Hzero).
  { intros [m c] [Hm Hc]%elem_of_cell_keys. by apply Hall. }
  rewrite length_cell_keys in *.
  exists n. unfold progress. rewrite Hn. cbn [mbind option_bind].
  split; [done |]. split; [done |]. split.
  - rewrite Hfull, (scan_months_none p Hall). split.
    + intros Hk m c Hm Hc. apply (Hk (m, c)). by apply elem_of_cell_keys.
    + intros Hk [m c] [Hm Hc]%elem_of_cell_keys. by apply Hk.
  - rewrite Hzero. split.
    + intros Hk m c Hm Hc. apply (Hk (m, c)). by apply elem_of_cell_keys.
    + intros Hk [m c] [Hm Hc]%elem_of_cell_keys. by apply Hk.
Qed.

(** X23. On a complete table the progress shown in the header is a pair
    [(done, total)] with [done] at most [total], the number of listed
    cells; [done] reaches [total] exactly when [_find_first_unfilled]
    finds no unmeasured cell, and is 0 exactly when every cell is
    unmeasured. *)
Theorem progress_counts (p : ProjectData) :
  has_all_cells p →
  ∃ done,
    progress p = Some (done, (length (months p) * length (categories p))%nat) ∧
    (done ≤ length (months p) * length (categories p))%nat ∧
    (done = (length (months p) * length (categories p))%nat
     ↔ scan_months p (months p) 0 = Some None) ∧
    (done = 0
     ↔ ∀ m c, m ∈ months p → c ∈ categories p → cell p m c = Some None).
Proof. apply progress_spec. Qed.

(** X24. After a confirmed [clear_all] the header shows no cell done, and
    [jump_to_unfilled] lands on the first cell of the table. *)
Theorem clear_all_resets_progress (w : World) :
  has_all_cells (project (app w)) → cursor_ok (app w) →
  let w' := (clear_all true w).2 in
  progress (project (app w'))
  = Some (0, (length (months (project (app w)))
              * length (categories (project (app w))))%nat) ∧
  month_i (app (jump_to_unfilled w').2) = 0%Z ∧
  cat_i (app (jump_to_unfilled w').2) = 0%Z.
Proof.
  intros Hall Hcur. cbv zeta.
  destruct (clear_all_path w Hall) as (d' & Hpath & Hcells).
  assert (app (clear_all true w).2
          = with_preview_hidden false
              (with_cursor 0 0
                 (with_undo_stack []
                    (with_project (with_data d' (project (app w))) (app w)))))
    as Happ by (by rewrite Hpath, save_refresh_app).
  set (p' := with_data d' (project (app w))) in *.
  assert (project (app (clear_all true w).2) = p') as Hp
    by (by rewrite Happ).
  assert (has_all_cells p') as Hall'.
  { intros m c Hm Hc. rewrite Hcells by done. eauto. }
  split.
  - rewrite Hp. destruct (progress_spec p' Hall') as (n & -> & _ & _ & Hzero).
    assert (n = 0) as -> by (by apply Hzero). done.
  - destruct (cursor_ok_nonempty _ Hcur) as [Hms Hcs].
    destruct (months (project (app w))) as [|m0 ms] eqn:Hmonths; [done |].
    destruct (categories (project (app w))) as [|c0 cs] eqn:Hcats; [done |].
    assert (scan_months p' (months p') 0 = Some (Some (0, 0)%Z)) as Hscan.
    { assert (months p' = m0 :: ms) as -> by done.
      apply (scan_first_unmeasured p' m0 ms c0 cs); [| done].
      apply Hcells; rewrite ?Hmonths, ?Hcats; apply list_elem_of_here. }
    assert (_find_first_unfilled (clear_all true w).2
            = (Some tt, with_app (with_cursor 0 0 (app (clear_all true w).2))
                                 (clear_all true w).2)) as Hfind.
    { unfold _find_first_unfilled.
      by rewrite bind_get_app, bind_liftO, Hp, Hscan. }
    unfold jump_to_unfilled. by rewrite (bind_eq _ _ _ _ _ Hfind).
Qed.

(** ** Distances *)

Lemma dist_dist_euc (a b : R * R) : dist a b = dist_euc a.1 a.2 b.1 b.2.
Proof. reflexivity. Qed.

(** X25. [dist] is a metric on the points of the image: it is never
    negative, zero exactly between a point and itself, symmetric, and
    obeys the triangle inequality. *)
Theorem dist_metric (a b c : R * R) :
  (0 <= dist a b)%R ∧
  (dist a b = 0%R ↔ a = b) ∧
  dist a b = dist b a ∧
  (dist a c <= dist a b + dist b c)%R.
Proof.
  split; [apply dist_euclidean |]. split; [| split].
  - split.
    + intros Hz. destruct (dist_euclidean a b) as [_ Hsq].
      rewrite Hz in Hsq. destruct a as [a1 a2], b as [b1 b2].
      cbn [fst snd] in Hsq.
      assert (b1 - a1 = 0 ∧ b2 - a2 = 0)%R as [H1 H2].
      { apply Rplus_sqr_eq_0. unfold Rsqr. lra. }
      f_equal; lra.
    + intros <-. unfold dist, hypot.
      replace ((a.1 - a.1) * (a.1 - a.1) + (a.2 - a.2) * (a.2 - a.2))%R
        with 0%R by ring.
      apply sqrt_0.
  - unfold dist, hypot. f_equal. ring.
  - rewrite !dist_dist_euc. apply triangle.
Qed.

(** ** The stacked bars of the re-plotter *)

Lemma effective_max_pos gm : (0 < PlotRose.effective_max gm)%R.
Proof. unfold PlotRose.effective_max. destruct (Rle_dec gm 0); lra. Qed.

Lemma scaled_sqrt_mono (g x y : R) :
  (0 < g)%R → (0 <= x <= y)%R → (0 <= sqrt (x / g) <= sqrt (y / g))%R.
Proof.
  intros Hg [H0 Hxy]. split; [apply sqrt_pos |]. apply sqrt_le_1_alt.
  apply Rmult_le_compat_r; [| done]. left. by apply Rinv_0_lt_compat.
Qed.

Lemma r_cum_row table gm i rrow :
  PlotRose.area_table_ok table →
  PlotRose.r_cum table gm !! i = Some rrow →
  ∃ a b c,
    (0 <= a)%R ∧ (0 <= b)%R ∧ (0 <= c)%R ∧
    rrow = map (λ s, sqrt (s / PlotRose.effective_max gm))
               [0 + a; 0 + a + b; 0 + a + b + c]%R.
Proof.
  intros [_ Hrows] Hrrow. unfold PlotRose.r_cum, PlotRose.cumsum in Hrrow.
  rewrite !lookup_map in Hrrow.
  destruct (reverse table !! i) as [row|] eqn:Hrow; [| done].
  injection Hrrow as <-.
  destruct (Hrows row) as [Hlen Hpos].
  { apply elem_of_reverse. by eapply list_elem_of_lookup_2. }
  destruct row as [|a [|b [|c [|]]]]; try done.
  exists a, b, c. split; [| split; [| split]]; [apply Hpos .. | done].
  - by left.
  - right. by left.
  - right. right. by left.
Qed.

(** X26. [draw_rose] hands to [ax.bar] one series of bars per category of
    [STACK_ORDER], each with one bar per month. In every month the bars
    stack without gap or overlap: the innermost starts at 0, each next one
    starts where the one before ends, and no bar has a negative height. *)
Theorem bars_stack (table : list (list R)) (gm : R) :
  PlotRose.area_table_ok table →
  ∃ s0 s1 s2,
    PlotRose.draw_rose table gm
    = Some [("other_causes", s0); ("wounds", s1);
            ("preventable_disease", s2)] ∧
    length s0 = length table ∧ length s1 = length table ∧
    length s2 = length table ∧
    ∀ i b0 h0 b1 h1 b2 h2,
      s0 !! i = Some (b0, h0) → s1 !! i = Some (b1, h1) →
      s2 !! i = Some (b2, h2) →
      (b0 = 0 ∧ b1 = b0 + h0 ∧ b2 = b1 + h1 ∧
       0 <= h0 ∧ 0 <= h1 ∧ 0 <= h2)%R.
Proof.
  intros Hok. pose proof Hok as [Hne _]. unfold PlotRose.draw_rose.
  destruct (decide (length table = 0)) as [Hlen|_].
  { by apply length_zero_iff_nil in Hlen. }
  set (rc := PlotRose.r_cum table gm).
  assert (length rc = length table) as Hrc.
  { unfold rc, PlotRose.r_cum, PlotRose.cumsum.
    by rewrite !length_map, length_reverse. }
  eexists _, _, _. split; [reflexivity |].
  unfold PlotRose.bars_of.
  rewrite !length_zip_with, !length_map, length_replicate, Hrc.
  split; [lia |]. split; [lia |]. split; [lia |].
  intros i b0 h0 b1 h1 b2 h2 H0 H1 H2.
  apply lookup_zip_with_Some in H0 as (z & o0 & [= -> ->] & Hz & Ho0).
  apply lookup_zip_with_Some in H1 as (o0' & o1 & [= -> ->] & Ho0' & Ho1).
  apply lookup_zip_with_Some in H2 as (o1' & o2 & [= -> ->] & Ho1' & Ho2).
  apply lookup_replicate in Hz as [-> _].
  rewrite lookup_map in Ho0, Ho0', Ho1, Ho1', Ho2.
  destruct (rc !! i) as [rrow|] eqn:Hrrow; [| done].
  cbn [fmap option_fmap option_map] in *.
  injection Ho0 as <-. injection Ho0' as <-. injection Ho1 as <-.
  injection Ho1' as <-. injection Ho2 as <-.
  destruct (r_cum_row table gm i rrow Hok Hrrow)
    as (a & b & c & Ha & Hb & Hc & ->).
  cbn [map nth].
  pose proof (effective_max_pos gm) as Hg.
  pose proof (scaled_sqrt_mono _ 0 (0 + a) Hg ltac:(lra)) as [_ ?].
  pose proof (scaled_sqrt_mono _ (0 + a) (0 + a + b) Hg ltac:(lra)) as [? ?].
  pose proof (scaled_sqrt_mono _ (0 + a + b) (0 + a + b + c) Hg ltac:(lra))
    as [? ?].
  repeat split; lra.
Qed.

(** X27. When some stacked area is positive, the scaling by [global_max]
    is tight: in one of the two diagrams a wedge has outer radius exactly
    1, the radial limit both plots are given. *)
Theorem largest_wedge_fills (areaL areaR : list (list R)) :
  let gm := PlotRose.main_global_max areaL areaR in
  (0 < gm)%R →
  ∃ table rrow,
    (table = areaL ∨ table = areaR) ∧
    rrow ∈ PlotRose.r_cum table gm ∧ 1%R ∈ rrow.
Proof.
  intros gm Hpos.
  assert (∃ table, (table = areaL ∨ table = areaR) ∧
                   gm = PlotRose.table_max (PlotRose.cumsum table))
    as (table & Hwhich & Hgm).
  { unfold gm, PlotRose.main_global_max, Rmax.
    destruct (Rle_dec _ _); [exists areaR | exists areaL]; split; auto. }
  exists table. 
  assert (∃ crow, crow ∈ PlotRose.cumsum table ∧ gm ∈ crow) as (crow & Hcrow & Hin).
  { apply elem_of_concat. rewrite Hgm in *. unfold PlotRose.table_max in *.
    destruct (concat (PlotRose.cumsum table)) as [|x xs]; [lra |].
    apply foldl_Rmax_spec. }
  unfold PlotRose.cumsum in Hcrow.
  apply elem_of_map in Hcrow as (row & -> & Hrow).
  exists (map (λ a, sqrt (a / PlotRose.effective_max gm))
              (PlotRose.cumsum_row 0 row)).
  split; [done |]. split.
  - unfold PlotRose.r_cum, PlotRose.cumsum. apply elem_of_map.
    eexists. split; [reflexivity |]. apply elem_of_map.
    exists row. split; [done |]. by apply elem_of_reverse.
  - apply elem_of_map. exists gm. split; [| done].
    unfold PlotRose.effective_max. destruct (Rle_dec gm 0); [lra |].
    rewrite Rdiv_diag by lra. symmetry. apply sqrt_1.
Qed.

(** ** Keyboard *)




(** ** The properties on the sample states *)

Lemma sample_cursor_ok : cursor_ok sample_app.
Proof. split; cbn; lia. Defined.


Lemma save_load_keeps_listed_witness :
  ∃ p', project_to_dict sample_project ≫= dict_to_project = Some p' ∧
        months p' = months sample_project.
Proof.
  destruct (save_load_keeps_listed sample_project sample_project_has_all)
    as (p' & Hload & _ & _ & _ & Hms & _).
  exists p'. split; [exact Hload | exact Hms].
Defined.

Lemma loaded_project_normal_witness :
  let p := make_empty_project "plate.jpg" "right" ["1854-04"] ["wounds"] in
  exact_cells p ∧ project_to_dict p ≫= dict_to_project = Some p.
Proof.
  apply (loaded_project_normal sample_snapshot). reflexivity.
Defined.



Lemma cursor_steps_witness :
  ∃ mi ci,
    next_item sample_world
    = (Some tt, with_app (with_cursor mi ci sample_app) sample_world).
Proof.
  destruct (cursor_steps sample_world sample_project_has_all sample_cursor_ok)
    as [(mi & ci & Hnext & _) _].
  exists mi, ci. exact Hnext.
Defined.

Lemma next_prev_inverse_witness :
  prev_item (next_item sample_world).2 = (Some tt, sample_world).
Proof.
  apply (next_prev_inverse sample_world sample_project_has_all
           sample_cursor_ok).
  reflexivity.
Defined.


Lemma save_then_restart_witness :
  ∃ r w',
    DigitizerApp__init__ "other.jpg" "right" true (disk (save sample_world).2)
    = Some (r, w') ∧
    project (app w') = sample_project.
Proof.
  destruct (save_then_restart sample_world "other.jpg" "right" true
              sample_project_has_all ltac:(by eexists) eq_refl)
    as (r & w' & Hinit & _ & Hexact & _).
  exists r, w'. split; [exact Hinit | exact (Hexact sample_project_exact)].
Defined.

Lemma on_click_ignored_witness :
  on_click sample_middle_click sample_world = (Some tt, sample_world).
Proof.
  apply on_click_ignored. do 4 right. left. split; [discriminate |].
  left. discriminate.
Defined.

Lemma right_click_toggles_preview_witness :
  let w1 := with_app (with_preview_hidden true sample_app) sample_world in
  on_click sample_right_click sample_world = (Some tt, w1) ∧
  on_click sample_right_click w1 = (Some tt, sample_world).
Proof.
  destruct (right_click_toggles_preview sample_right_click sample_world
              13 24 (10, 20)%R eq_refl eq_refl eq_refl eq_refl eq_refl eq_refl)
    as (Hfirst & Hsecond & _).
  split; [exact Hfirst | exact Hsecond].
Defined.




Lemma undo_restores_entry_witness :
  undo_stack (app (undo sample_world).2) = [] ∧
  current_month_cat (app (undo sample_world).2) = Some ("1854-04", "wounds").
Proof.
  destruct (undo_restores_entry sample_world sample_world_consistent)
    as [_ Hpop].
  destruct (Hpop "1854-04" "wounds" None [] eq_refl)
    as (_ & _ & Hstack & Hcursor & _).
  split; [exact Hstack | exact Hcursor].
Defined.

Lemma remeasure_current_clears_witness :
  let w1 := (remeasure_current measured_world).2 in
  cell (project (app w1)) "1854-04" "preventable_disease" = Some None ∧
  project (app (undo w1).2) = sample_project.
Proof.
  destruct (remeasure_current_clears measured_world
              "1854-04" "preventable_disease" eq_refl) as [_ Hclear].
  destruct (Hclear sample_click ltac:(by eexists) eq_refl)
    as (Hcell & _ & _ & _ & _ & Hback & _).
  split; [exact Hcell | exact Hback].
Defined.

Lemma mark_missing_then_undo_witness :
  project (app (undo (mark_missing sample_world).2).2) = sample_project ∧
  undo_stack (app (undo (mark_missing sample_world).2).2)
  = [("1854-04", "wounds", None)].
Proof.
  destruct (mark_missing_then_undo sample_world (10, 20)%R
              "1854-05" "preventable_disease" None eq_refl
              sample_world_target sample_world_cell)
    as (_ & Hproj & Hstack & _).
  split; [exact Hproj | exact Hstack].
Defined.

Lemma csv_cursor_ok : cursor_ok (app csv_world).
Proof. split; split; lazy; (reflexivity || discriminate). Defined.

Lemma export_csv_footprint_witness :
  (export_csv csv_world).1 = Some tt ∧
  app (export_csv csv_world).2 = app csv_world ∧
  disk (export_csv (export_csv csv_world).2).2 = disk (export_csv csv_world).2.
Proof.
  destruct (export_csv_footprint csv_world (0, 0)%R eq_refl
              csv_project_has_all csv_cursor_ok)
    as (_ & Hwrite).
  destruct (Hwrite csv_project_squares_fit)
    as (Hret & Happ & _ & _ & _ & Hagain).
  split; [exact Hret |]. split; [exact Happ | exact Hagain].
Defined.

Lemma area_norm_bounds_witness :
  ∃ n, csv_line_of csv_project (max_area_of (measured_areas csv_project))
                   ("1854-04", "wounds") !! 5 = Some (CsvFixed 6 n) ∧
       (0 <= n <= 1)%R.
Proof.
  destruct (area_norm_bounds csv_project "1854-04" "wounds"
              (mkMeasurement 2 (Some (2, 0)%R) false) (2 ^ 2)%R)
    as (n & Hline & Hrange & _).
  - apply list_elem_of_here.
  - apply list_elem_of_further, list_elem_of_here.
  - reflexivity.
  - exact float_square_2.
  - exists n. split; [exact Hline | exact Hrange].
Defined.

Lemma progress_counts_witness :
  ∃ done, progress sample_project = Some (done, 6) ∧ (done ≤ 6)%nat.
Proof.
  destruct (progress_counts sample_project sample_project_has_all)
    as (n & Hprog & Hle & _).
  exists n. split; [exact Hprog | exact Hle].
Defined.

Lemma clear_all_resets_progress_witness :
  progress (project (app (clear_all true sample_world).2)) = Some (0, 6).
Proof.
  destruct (clear_all_resets_progress sample_world sample_project_has_all
              sample_cursor_ok) as (Hprog & _).
  exact Hprog.
Defined.

Lemma bars_stack_witness :
  ∃ s0 s1 s2,
    PlotRose.draw_rose sample_areaL 4
    = Some [("other_causes", s0); ("wounds", s1);
            ("preventable_disease", s2)] ∧
    length s0 = 2.
Proof.
  destruct (bars_stack sample_areaL 4 sample_areaL_ok)
    as (s0 & s1 & s2 & Hdraw & Hlen & _).
  exists s0, s1, s2. split; [exact Hdraw | exact Hlen].
Defined.

Lemma sample_global_max_pos :
  (0 < PlotRose.main_global_max sample_areaL sample_areaR)%R.
Proof.
  unfold PlotRose.main_global_max.
  apply Rlt_le_trans with (0 + 1)%R; [lra |].
  apply Rle_trans with (PlotRose.table_max (PlotRose.cumsum sample_areaL));
    [| apply Rmax_l].
  apply (table_max_upper _ [0 + 1; 0 + 1 + 2; 0 + 1 + 2 + 1]%R);
    apply list_elem_of_here.
Defined.

Lemma largest_wedge_fills_witness :
  ∃ table rrow,
    (table = sample_areaL ∨ table = sample_areaR) ∧
    rrow ∈ PlotRose.r_cum table
             (PlotRose.main_global_max sample_areaL sample_areaR) ∧
    1%R ∈ rrow.
Proof.
  exact (largest_wedge_fills sample_areaL sample_areaR sample_global_max_pos).
Defined.

(** ** Progress after a recording *)

Lemma NoDup_cell_keys p :
  NoDup (months p) → NoDup (categories p) → NoDup (cell_keys p).
Proof.
  intros Hms Hcs. unfold cell_keys. apply NoDup_bind; [| | done].
  - intros m1 m2 [m c] _ _ H1 H2.
    apply list_elem_of_bind in H1 as (c1 & H1 & _).
    apply list_elem_of_bind in H2 as (c2 & H2 & _).
    apply list_elem_of_singleton in H1, H2. congruence.
  - intros m _. apply NoDup_bind; [| | done].
    + intros c1 c2 y _ _ H1 H2.
      apply list_elem_of_singleton in H1, H2. congruence.
    + intros c _. apply NoDup_singleton.
Qed.

Lemma count_done_Some p keys n :
  count_done p keys = Some n → ∀ mc, mc ∈ keys → is_Some (cell p mc.1 mc.2).
Proof.
  revert n. induction keys as [|[m c] keys IH]; intros n; cbn [count_done].
  - by intros _ mc ?%not_elem_of_nil.
  - destruct (cell p m c) as [v|] eqn:Hv; cbn [mbind option_bind]; [| done].
    destruct (count_done p keys) as [n'|]; cbn [mbind option_bind]; [| done].
    intros _ mc [->|Hmc]%elem_of_cons;
      [cbn [fst snd]; by rewrite Hv | by eapply IH].
Qed.

Lemma count_done_frame p p' m c v keys :
  set_cell m c v p = Some p' → (m, c) ∉ keys →
  count_done p' keys = count_done p keys.
Proof.
  intros Hset. induction keys as [|[m0 c0] keys IH]; [done |].
  intros [Hne Hnot]%not_elem_of_cons. cbn [count_done].
  rewrite (cell_set_cell_ne _ _ _ _ _ m0 c0 Hset) by congruence.
  by rewrite IH.
Qed.

Lemma count_done_set_cell p p' m c v prev keys n :
  set_cell m c (Some v) p = Some p' → cell p m c = Some prev →
  NoDup keys → (m, c) ∈ keys →
  count_done p keys = Some n →
  count_done p' keys
  = Some (match prev with None => S n | Some _ => n end).
Proof.
  intros Hset Hprev Hnd. revert n.
  induction Hnd as [|[m0 c0] keys Hnot Hnd IH]; intros n Hin.
  - by apply not_elem_of_nil in Hin.
  - cbn [count_done]. destruct (decide ((m0, c0) = (m, c))) as [[= -> ->]|Hne].
    + rewrite (cell_set_cell_eq _ _ _ _ _ Hset), Hprev.
      rewrite (count_done_frame _ _ _ _ _ _ Hset Hnot).
      destruct (count_done p keys) as [n'|]; cbn [mbind option_bind]; [| done].
      destruct prev; by intros [= <-].
    + apply elem_of_cons in Hin as [Heq|Hin]; [congruence |].
      rewrite (cell_set_cell_ne _ _ _ _ _ m0 c0 Hset) by done.
      destruct (cell p m0 c0) as [v0|]; cbn [mbind option_bind]; [| done].
      destruct (count_done p keys) as [n'|] eqn:Hn';
        cbn [mbind option_bind]; [| done].
      rewrite (IH n' Hin eq_refl). cbn [mbind option_bind].
      intros [= <-]. by destruct v0, prev.
Qed.

Lemma progress_set_cell p p' m c v done total :
  NoDup (months p) → NoDup (categories p) →
  m ∈ months p → c ∈ categories p →
  set_cell m c (Some v) p = Some p' →
  progress p = Some (done, total) →
  progress p'
  = Some (match cell p m c with Some None => S done | _ => done end, total).
Proof.
  intros Hms Hcs Hm Hc Hset. unfold progress.
  destruct (set_cell_frame _ _ _ _ _ Hset) as (_ & _ & _ & Hms' & Hcs').
  assert (cell_keys p' = cell_keys p) as ->
    by (unfold cell_keys; by rewrite Hms', Hcs').
  rewrite Hms', Hcs'.
  destruct (count_done p (cell_keys p)) as [n|] eqn:Hn;
    cbn [mbind option_bind]; [| done].
  intros [= <- <-].
  destruct (count_done_Some _ _ _ Hn (m, c)) as [prev Hprev];
    [by apply elem_of_cell_keys |].
  cbn [fst snd] in Hprev.
  rewrite (count_done_set_cell p p' m c v prev _ n Hset Hprev);
    [| by apply NoDup_cell_keys | by apply elem_of_cell_keys | done].
  rewrite Hprev. cbn [mbind option_bind]. by destruct prev.
Qed.

(** X29. When no month and no category is listed twice, recording on the
    cell under the cursor, by [mark_missing] or by an accepted left click
    in measure mode, raises the number of cells the header shows as done
    by one if the cell was unmeasured and leaves it as it is otherwise;
    the total does not change. *)
Theorem recording_counts (w : World) (center : R * R) (m c : string)
    (done total : nat) :
  NoDup (months (project (app w))) → NoDup (categories (project (app w))) →
  center_xy (project (app w)) = Some center →
  current_month_cat (app w) = Some (m, c) →
  progress (project (app w)) = Some (done, total) →
  let done' := match cell (project (app w)) m c with
               | Some None => S done
               | _ => done
               end in
  progress (project (app (mark_missing w).2)) = Some (done', total) ∧
  ∀ event x y,
    accepted_left_click w event x y → setting_center (app w) = false →
    progress (project (app (on_click event w).2)) = Some (done', total).
Proof.
  intros Hms Hcs Hcenter Hcur Hprog. cbv zeta.
  destruct (current_month_cat_elem _ _ _ Hcur) as [Hm Hc].
  assert (is_Some (cell (project (app w)) m c)) as [prev Hprev].
  { revert Hprog. unfold progress.
    destruct (count_done _ _) as [n|] eqn:Hn; [| done]. intros _.
    apply (count_done_Some _ _ _ Hn (m, c)). by apply elem_of_cell_keys. }
  split.
  - destruct (mark_missing_effect w center m c prev Hcenter Hcur Hprev)
      as (p' & Hset & -> & _).
    by apply (progress_set_cell _ _ m c _ done total Hms Hcs Hm Hc Hset).
  - intros event x y Hacc Hsc.
    destruct (on_click_measure_effect w event x y center m c prev
                Hacc Hsc Hcenter Hcur Hprev) as (p' & Hset & -> & _).
    by apply (progress_set_cell _ _ m c _ done total Hms Hcs Hm Hc Hset).
Qed.

Lemma recording_counts_witness :
  progress (project (app (mark_missing sample_world).2)) = Some (3, 6).
Proof.
  destruct (recording_counts sample_world (10, 20)%R
              "1854-05" "preventable_disease" 2 6) as [Hmark _].
  - repeat constructor; set_solver.
  - repeat constructor; set_solver.
  - reflexivity.
  - reflexivity.
  - reflexivity.
  - exact Hmark.
Defined.

(** ** The mode switch *)

(** X30. [toggle_center_mode] flips the set-center flag and nothing else,
    so toggling twice restores the state. *)
Theorem toggle_center_mode_twice (w : World) :
  has_all_cells (project (app w)) → cursor_ok (app w) →
  toggle_center_mode w
  = (Some tt,
     with_app (with_setting_center (negb (setting_center (app w))) (app w)) w) ∧
  toggle_center_mode (toggle_center_mode w).2 = (Some tt, w).
Proof.
  intros Hall Hcur.
  assert (∀ w', has_all_cells (project (app w')) → cursor_ok (app w') →
            toggle_center_mode w'
            = (Some tt,
               with_app (with_setting_center (negb (setting_center (app w')))
                                             (app w')) w')) as Hstep.
  { intros w' Hall' Hcur'. unfold toggle_center_mode.
    rewrite bind_modify, refresh_ui_ok;
      by destruct w' as [[p mi ci sc pc st ph sp cp] tb dk tr]. }
  rewrite (Hstep w Hall Hcur). split; [done |]. cbn [snd].
  rewrite Hstep; [| by destruct w as [[p mi ci sc pc st ph sp cp] tb dk tr] ..].
  destruct w as [[p mi ci sc pc st ph sp cp] tb dk tr]. proj_norm.
  by rewrite negb_involutive.
Qed.

Lemma toggle_center_mode_twice_witness :
  toggle_center_mode (toggle_center_mode sample_world).2
  = (Some tt, sample_world).
Proof.
  destruct (toggle_center_mode_twice sample_world sample_project_has_all
              sample_cursor_ok) as [_ Htwice].
  exact Htwice.
Defined.

(** ** The definitions on small inputs *)

Example py_index_from_the_end :
  py_index ["a"; "b"; "c"] (-1) = Some "c" ∧ py_index ["a"; "b"; "c"] 3 = None.
Proof. by split. Qed.

Example list_index_first_occurrence :
  list_index "b" ["a"; "b"; "b"] = Some 1%Z ∧ list_index "z" ["a"] = None.
Proof. by split. Qed.

Example dict_set_keeps_position :
  dict_set "a" 2 [("a", 1); ("b", 3)] = [("a", 2); ("b", 3)] ∧
  dict_set "c" 4 [("a", 1); ("b", 3)] = [("a", 1); ("b", 3); ("c", 4)].
Proof. by split. Qed.

Example project_to_dict_small :
  project_to_dict (make_empty_project "plate.jpg" "right" ["1854-04"] ["wounds"])
  = Some (JObj [("image_path", JStr "plate.jpg");
                ("diagram_key", JStr "right");
                ("center_xy", JNull);
                ("months", JList [JStr "1854-04"]);
                ("categories", JList [JStr "wounds"]);
                ("data", JObj [("1854-04", JObj [("wounds", JNull)])])]).
Proof. reflexivity. Qed.

(** A snapshot without a ["data"] entry for a listed month does not load. *)
Example dict_to_project_missing_month :
  dict_to_project
    (JObj [("image_path", JStr "plate.jpg"); ("diagram_key", JStr "right");
           ("center_xy", JNull); ("months", JList [JStr "1854-04"]);
           ("categories", JList [JStr "wounds"]); ("data", JObj [])])
  = None.
Proof. reflexivity. Qed.

(** The line of an unmeasured cell has six pieces, two fewer than the
    header. *)
Example csv_row_unmeasured :
  csv_row "1854-04" "wounds" None 1
  = Some [CsvStr "1854-04"; CsvStr "wounds"; CsvStr ""; CsvStr ""; CsvStr "";
          CsvStr ""]
  ∧ length csv_header = 8.
Proof. by split. Qed.

(** From the last category of a month [next_item] goes to the first
    category of the next month; on the last cell it stays. *)
Example next_item_sample :
  let at_ mi ci := with_app (with_cursor mi ci sample_app) sample_world in
  let cursor w := (month_i (app w), cat_i (app w)) in
  cursor (next_item (at_ 0 2)%Z).2 = (1, 0)%Z ∧
  cursor (next_item (at_ 1 2)%Z).2 = (1, 2)%Z ∧
  cursor (prev_item (at_ 1 0)%Z).2 = (0, 2)%Z.
Proof. by repeat split. Qed.
